(** * organizify: the Spotify login of pkg/spotify/auth.go

    A shallow embedding of the PKCE login of [pkg/spotify/auth.go]:
    the PKCE parameters, the callback handler, the two token calls, the
    in-memory token cache and [Login] itself, with the properties of the
    design document stated and settled against that code.

    Go values are modelled as follows.
    - [string] is a Go string (a sequence of bytes); [[]byte] is a list of
      [Z] in [0, 256).
    - [time.Time] is an instant on the monotonic clock, in nanoseconds
      ([Z]); [time.Duration] is an [int64] number of nanoseconds.
    - [*oauth2.Token] is [option Token] ([None] is [nil]).
    - package variables, the default serve mux, the listener and everything
      the code does to the outside (posts, prints, processes) live in a
      [World] threaded through a state monad; what the outside answers is
      read from an [Env] of oracles. *)

From Stdlib Require Import ZArith List String Ascii Bool Lia Arith.
From Stdlib Require Import DecimalString.
Import ListNotations.

Local Open Scope Z_scope.
Local Open Scope string_scope.

(* ================================================================= *)
(** ** crypto/sha256: [Sum256] (FIPS 180-4) *)

Module Sha256.

Definition w32 (x : Z) : Z := Z.land x 0xffffffff.
Definition add32 (x y : Z) : Z := w32 (x + y).

Definition rotr (n x : Z) : Z :=
  Z.lor (Z.shiftr x n) (w32 (Z.shiftl x (32 - n))).

Definition Ch (x y z : Z) : Z :=
  Z.lxor (Z.land x y) (Z.land (Z.lnot x) z).
Definition Maj (x y z : Z) : Z :=
  Z.lxor (Z.lxor (Z.land x y) (Z.land x z)) (Z.land y z).
Definition bsig0 (x : Z) : Z :=
  Z.lxor (Z.lxor (rotr 2 x) (rotr 13 x)) (rotr 22 x).
Definition bsig1 (x : Z) : Z :=
  Z.lxor (Z.lxor (rotr 6 x) (rotr 11 x)) (rotr 25 x).
Definition ssig0 (x : Z) : Z :=
  Z.lxor (Z.lxor (rotr 7 x) (rotr 18 x)) (Z.shiftr x 3).
Definition ssig1 (x : Z) : Z :=
  Z.lxor (Z.lxor (rotr 17 x) (rotr 19 x)) (Z.shiftr x 10).

(** The constants are fractional parts of roots of primes (FIPS 180-4,
    sections 4.2.2 and 5.3.3): the first 32 bits of the cube roots of the
    first 64 primes for [K], of the square roots of the first 8 for the
    initial chaining value. *)
Definition primes : list Z :=
  [2; 3; 5; 7; 11; 13; 17; 19; 23; 29; 31; 37; 41; 43; 47; 53;
   59; 61; 67; 71; 73; 79; 83; 89; 97; 101; 103; 107; 109; 113; 127; 131;
   137; 139; 149; 151; 157; 163; 167; 173; 179; 181; 191; 193; 197; 199;
   211; 223; 227; 229; 233; 239; 241; 251; 257; 263; 269; 271; 277; 281;
   283; 293; 307; 311].

(** The integer cube root, bit by bit from bit [b - 1] down. *)
Fixpoint cbrt_from (b : nat) (n acc : Z) : Z :=
  match b with
  | O => acc
  | S b' =>
      let c := acc + 2 ^ Z.of_nat b' in
      cbrt_from b' n (if (c * c * c <=? n)%Z then c else acc)
  end.

Definition frac_cbrt (p : Z) : Z := w32 (cbrt_from 36 (p * 2 ^ 96) 0).
Definition frac_sqrt (p : Z) : Z := w32 (Z.sqrt (p * 2 ^ 64)).

Definition K : list Z := Eval vm_compute in map frac_cbrt primes.

(** The eight working variables, and the chaining value as well. *)
Record regs := mkRegs { ra : Z; rb : Z; rc : Z; rd : Z; re : Z; rf : Z; rg : Z; rh : Z }.

Definition H0 : regs :=
  Eval vm_compute in
    mkRegs (frac_sqrt 2) (frac_sqrt 3) (frac_sqrt 5) (frac_sqrt 7)
           (frac_sqrt 11) (frac_sqrt 13) (frac_sqrt 17) (frac_sqrt 19).

(** Big-endian bytes of a word, and back. *)
Definition be32 (x : Z) : list Z :=
  [Z.land (Z.shiftr x 24) 0xff; Z.land (Z.shiftr x 16) 0xff;
   Z.land (Z.shiftr x 8) 0xff; Z.land x 0xff].

Definition word_of (b0 b1 b2 b3 : Z) : Z :=
  Z.lor (Z.lor (Z.shiftl b0 24) (Z.shiftl b1 16)) (Z.lor (Z.shiftl b2 8) b3).

Fixpoint words (bs : list Z) : list Z :=
  match bs with
  | b0 :: b1 :: b2 :: b3 :: rest => word_of b0 b1 b2 b3 :: words rest
  | _ => []
  end.

(** Padding: the bit 1, zeros up to 56 mod 64, the bit length on 64 bits. *)
Definition pad (msg : list Z) : list Z :=
  let len := Z.of_nat (List.length msg) in
  let bits := 8 * len in
  msg ++ [0x80] ++ repeat 0 (Z.to_nat ((55 - len) mod 64))
      ++ be32 (Z.shiftr bits 32) ++ be32 bits.

Fixpoint blocks (fuel : nat) (bs : list Z) : list (list Z) :=
  match fuel, bs with
  | O, _ | _, [] => []
  | S fuel', _ => firstn 64 bs :: blocks fuel' (skipn 64 bs)
  end.

(** The message schedule: sixteen words of the block, extended to 64. *)
Fixpoint extend (n : nat) (ws : list Z) : list Z :=
  match n with
  | O => ws
  | S n' =>
      let t := List.length ws in
      let at_ k := nth (t - k) ws 0 in
      extend n' (ws ++ [add32 (add32 (ssig1 (at_ 2%nat)) (at_ 7%nat))
                              (add32 (ssig0 (at_ 15%nat)) (at_ 16%nat))])
  end.

Definition round (r : regs) (kw : Z * Z) : regs :=
  let '(k, w) := kw in
  let t1 := add32 (add32 (add32 (rh r) (bsig1 (re r))) (add32 (Ch (re r) (rf r) (rg r)) k)) w in
  let t2 := add32 (bsig0 (ra r)) (Maj (ra r) (rb r) (rc r)) in
  mkRegs (add32 t1 t2) (ra r) (rb r) (rc r) (add32 (rd r) t1) (re r) (rf r) (rg r).

Definition compress (h : regs) (block : list Z) : regs :=
  let r := fold_left round (combine K (extend 48 (words block))) h in
  mkRegs (add32 (ra h) (ra r)) (add32 (rb h) (rb r)) (add32 (rc h) (rc r))
         (add32 (rd h) (rd r)) (add32 (re h) (re r)) (add32 (rf h) (rf r))
         (add32 (rg h) (rg r)) (add32 (rh h) (rh r)).

Definition digest (h : regs) : list Z :=
  be32 (ra h) ++ be32 (rb h) ++ be32 (rc h) ++ be32 (rd h) ++
  be32 (re h) ++ be32 (rf h) ++ be32 (rg h) ++ be32 (rh h).

Definition Sum256 (msg : list Z) : list Z :=
  let p := pad msg in
  digest (fold_left compress (blocks (List.length p) p) H0).

End Sha256.

(* ================================================================= *)
(** ** encoding/base64: [RawURLEncoding.EncodeToString] *)

Module Base64.

(** The URL-safe alphabet of RFC 4648, section 5. *)
Definition encodeURL : string :=
  "ABCDEFGHIJKLMNOPQRSTUVWXYZabcdefghijklmnopqrstuvwxyz0123456789-_".

Definition enc (i : Z) : ascii :=
  match String.get (Z.to_nat (Z.land i 0x3F)) encodeURL with
  | Some c => c
  | None => "A"%char
  end.

(** [RawURLEncoding] has no padding: a final group of one byte gives two
    characters, one of two bytes gives three. *)
Fixpoint encode (src : list Z) : list ascii :=
  match src with
  | [] => []
  | [b0] =>
      let val := Z.shiftl b0 16 in
      [enc (Z.shiftr val 18); enc (Z.shiftr val 12)]
  | [b0; b1] =>
      let val := Z.lor (Z.shiftl b0 16) (Z.shiftl b1 8) in
      [enc (Z.shiftr val 18); enc (Z.shiftr val 12); enc (Z.shiftr val 6)]
  | b0 :: b1 :: b2 :: rest =>
      let val := Z.lor (Z.lor (Z.shiftl b0 16) (Z.shiftl b1 8)) b2 in
      enc (Z.shiftr val 18) :: enc (Z.shiftr val 12) ::
      enc (Z.shiftr val 6) :: enc val :: encode rest
  end.

Definition EncodeToString (src : list Z) : string :=
  string_of_list_ascii (encode src).

Definition urlSafe (c : ascii) : bool :=
  existsb (Ascii.eqb c) (list_ascii_of_string encodeURL).

End Base64.

(** [[]byte(s)]: the bytes of a Go string. *)
Definition bytes_of_string (s : string) : list Z :=
  map (fun c => Z.of_N (N_of_ascii c)) (list_ascii_of_string s).

(** Lower-case hexadecimal, as [hex.EncodeToString], to write digests down. *)
Definition hex_digit (n : Z) : ascii :=
  match String.get (Z.to_nat n) "0123456789abcdef" with
  | Some c => c
  | None => "?"%char
  end.

Definition hex (bs : list Z) : string :=
  string_of_list_ascii
    (flat_map (fun b => [hex_digit (Z.shiftr b 4); hex_digit (Z.land b 0xf)]) bs).

(** [fmt]'s [%d] of an integer. *)
Definition itoa (n : Z) : string := NilZero.string_of_int (Z.to_int n).

(** The line feed, which Rocq strings cannot escape. *)
Definition LF : string := String (ascii_of_nat 10) EmptyString.

(** [strings.Contains]. *)
Fixpoint prefix_at (p s : string) : bool :=
  match p, s with
  | EmptyString, _ => true
  | String a p', String b s' => Ascii.eqb a b && prefix_at p' s'
  | String _ _, EmptyString => false
  end.

Fixpoint Contains (s substr : string) : bool :=
  prefix_at substr s ||
  match s with
  | EmptyString => false
  | String _ s' => Contains s' substr
  end.

(* ================================================================= *)
(** ** The data model *)

(** [oauth2.Token], with the four fields the package fills in. *)
Record Token := mkToken {
  AccessToken : string;
  TokenType : string;
  RefreshToken : string;
  Expiry : Z
}.

(** The anonymous [tokenResp] struct both token calls decode into. *)
Record TokenResp := mkTokenResp {
  resp_AccessToken : string;
  resp_TokenType : string;
  resp_ExpiresIn : Z;
  resp_RefreshToken : string;
  resp_Scope : string
}.

(** [url.Values] as the code builds and reads it: [Set] replaces the value
    of a key or adds the key, [Get] gives the first value of a key or the
    empty string. *)
Definition Values := list (string * string).

Fixpoint Set_ (k v : string) (vs : Values) : Values :=
  match vs with
  | [] => [(k, v)]
  | (k', v') :: rest =>
      if String.eqb k k' then (k, v) :: rest else (k', v') :: Set_ k v rest
  end.

Fixpoint Get (k : string) (vs : Values) : string :=
  match vs with
  | [] => ""
  | (k', v) :: rest => if String.eqb k k' then v else Get k rest
  end.

(** What [http.PostForm] gives back: an error, or a response with its
    status code and body. *)
Inductive PostResult :=
| PostFailed (err : string)
| PostResponse (StatusCode : Z) (Body : string).

(** A Go [(value, error)] pair of which exactly one is set. *)
Inductive result (A : Type) :=
| Ok (a : A)
| Err (e : string).
Arguments Ok {A} a.
Arguments Err {A} e.

(** What the program does to the outside, in order. *)
Inductive Event :=
| EvPostForm (url : string) (data : Values)
| EvHandleFunc (pattern : string)
| EvListenAndServe (addr : string)
| EvShutdown
| EvCommandStart (cmd : string) (args : list string)
| EvPrintln (line : string)
| EvQueryGet (key : string)
| EvHttpError (code : Z) (msg : string)
| EvSuccessPage.

(** What the outside answers.  Every oracle is indexed by the number of
    calls made so far, so that two calls may be answered differently. *)
Record Env := mkEnv {
  randByte : nat -> Byte.byte;
  now : nat -> Z;
  postForm : nat -> string -> Values -> PostResult;
  jsonDecode : string -> result TokenResp;
  valuesEncode : Values -> string;
  GOOS : string;
  commandStart : string -> list string -> option string
}.

(** The package variables and the process state the package acts on.
    The channel [ch] carries no state of its own in the sequential model:
    it is unbuffered, and a send completes only in a receive. *)
Record World := mkWorld {
  state : string;
  codeVerifier : string;
  codeChallenge : string;
  cachedToken : option Token;
  muxPatterns : list string;
  listening : bool;
  randReads : nat;
  clockReads : nat;
  posts : nat;
  trace : list Event
}.

(** The outcome of a computation: a value, or a Go panic. *)
Inductive Res (A : Type) :=
| Val (a : A)
| Panic (msg : string).
Arguments Val {A} a.
Arguments Panic {A} msg.

Definition M (A : Type) : Type := World -> Res A * World.

Definition ret {A} (a : A) : M A := fun w => (Val a, w).

Definition bind {A B} (c : M A) (k : A -> M B) : M B :=
  fun w =>
    match c w with
    | (Val a, w') => k a w'
    | (Panic msg, w') => (Panic msg, w')
    end.

Definition panic {A} (msg : string) : M A := fun w => (Panic msg, w).

Notation "x <- c ;; k" := (bind c (fun x => k))
  (at level 61, c at next level, right associativity).
Notation "c ;;; k" := (bind c (fun _ => k))
  (at level 61, right associativity).

Definition gets {A} (f : World -> A) : M A := fun w => (Val (f w), w).
Definition modify (f : World -> World) : M unit := fun w => (Val tt, f w).

Definition emit (e : Event) : M unit :=
  modify (fun w => mkWorld (state w) (codeVerifier w) (codeChallenge w)
                           (cachedToken w) (muxPatterns w) (listening w)
                           (randReads w) (clockReads w) (posts w)
                           (trace w ++ [e])%list).

Definition set_pkce (st ver chal : string) (w : World) : World :=
  mkWorld st ver chal (cachedToken w) (muxPatterns w) (listening w)
          (randReads w) (clockReads w) (posts w) (trace w).

Definition set_cachedToken (t : option Token) (w : World) : World :=
  mkWorld (state w) (codeVerifier w) (codeChallenge w) t (muxPatterns w)
          (listening w) (randReads w) (clockReads w) (posts w) (trace w).

Definition set_muxPatterns (ps : list string) (w : World) : World :=
  mkWorld (state w) (codeVerifier w) (codeChallenge w) (cachedToken w) ps
          (listening w) (randReads w) (clockReads w) (posts w) (trace w).

Definition set_listening (b : bool) (w : World) : World :=
  mkWorld (state w) (codeVerifier w) (codeChallenge w) (cachedToken w)
          (muxPatterns w) b (randReads w) (clockReads w) (posts w) (trace w).

Definition set_randReads (n : nat) (w : World) : World :=
  mkWorld (state w) (codeVerifier w) (codeChallenge w) (cachedToken w)
          (muxPatterns w) (listening w) n (clockReads w) (posts w) (trace w).

Definition set_clockReads (n : nat) (w : World) : World :=
  mkWorld (state w) (codeVerifier w) (codeChallenge w) (cachedToken w)
          (muxPatterns w) (listening w) (randReads w) n (posts w) (trace w).

Definition set_posts (n : nat) (w : World) : World :=
  mkWorld (state w) (codeVerifier w) (codeChallenge w) (cachedToken w)
          (muxPatterns w) (listening w) (randReads w) (clockReads w) n (trace w).

(** [int64] wrap-around, for [time.Duration] arithmetic. *)
Definition wrap64 (x : Z) : Z := (x + 2 ^ 63) mod 2 ^ 64 - 2 ^ 63.

Definition Second : Z := 1000000000.
Definition Minute : Z := 60 * Second.

(* ================================================================= *)
(** ** pkg/spotify/auth.go *)

Module Spotify.
Section Code.

Variable env : Env.

Definition clientID := "e2d7b802ac6a4132a265fab71f0645d0".
Definition redirectURI := "http://127.0.0.1:1069".
Definition authURL := "https://accounts.spotify.com/authorize".
Definition tokenURL := "https://accounts.spotify.com/api/token".

Definition scopes : list string :=
  ["playlist-read-private"; "playlist-read-collaborative"; "user-library-read"].

(** *** The library calls the package makes *)

(** [rand.Read(b)]: the next [n] bytes of the entropy source. *)
Definition rand_Read (n : nat) : M (list Z) :=
  k <- gets randReads ;;
  modify (set_randReads (k + n)) ;;;
  ret (map (fun i => Z.of_N (Byte.to_N (randByte env (k + i)))) (seq 0 n)).

(** [time.Now()]. *)
Definition time_Now : M Z :=
  k <- gets clockReads ;;
  modify (set_clockReads (S k)) ;;;
  ret (now env k).

(** [http.PostForm(url, data)]. *)
Definition http_PostForm (url : string) (data : Values) : M PostResult :=
  k <- gets posts ;;
  modify (set_posts (S k)) ;;;
  emit (EvPostForm url data) ;;;
  ret (postForm env k url data).

(** [http.HandleFunc(pattern, handler)] on the default serve mux, which
    panics when the pattern is registered already (with this message
    before Go 1.22, with a longer one since). *)
Definition http_HandleFunc (pattern : string) : M unit :=
  ps <- gets muxPatterns ;;
  emit (EvHandleFunc pattern) ;;;
  if existsb (String.eqb pattern) ps
  then panic ("http: multiple registrations for " ++ pattern)
  else modify (set_muxPatterns (pattern :: ps)).

(** [go func() { server.ListenAndServe() }()]. *)
Definition server_ListenAndServe (addr : string) : M unit :=
  emit (EvListenAndServe addr) ;;;
  modify (set_listening true).

(** [server.Shutdown(ctx)]: the listener is closed first. *)
Definition server_Shutdown : M unit :=
  emit EvShutdown ;;;
  modify (set_listening false).

Definition Println (line : string) : M unit := emit (EvPrintln line).

(** [r.URL.Query().Get(key)]. *)
Definition Query_Get (r : Values) (key : string) : M string :=
  emit (EvQueryGet key) ;;;
  ret (Get key r).

(** [http.Error(w, msg, code)]. *)
Definition http_Error (msg : string) (code : Z) : M unit :=
  emit (EvHttpError code msg).

Definition StatusOK : Z := 200.
Definition StatusBadRequest : Z := 400.
Definition StatusForbidden : Z := 403.
Definition StatusInternalServerError : Z := 500.

(** *** The package's functions *)

Definition generateRandomString (length : nat) : M string :=
  b <- rand_Read length ;;
  ret (Base64.EncodeToString b).

Definition generateCodeVerifier : M string := generateRandomString 32.

Definition generateCodeChallenge (verifier : string) : string :=
  let hash := Sha256.Sum256 (bytes_of_string verifier) in
  Base64.EncodeToString hash.

Definition initPKCE : M unit :=
  st <- generateRandomString 16 ;;
  ver <- generateCodeVerifier ;;
  modify (set_pkce st ver (generateCodeChallenge ver)).

Definition buildAuthURL : M string :=
  st <- gets state ;;
  chal <- gets codeChallenge ;;
  let params := [] in
  let params := Set_ "client_id" clientID params in
  let params := Set_ "response_type" "code" params in
  let params := Set_ "redirect_uri" redirectURI params in
  let params := Set_ "state" st params in
  let params := Set_ "scope" (String.concat " " scopes) params in
  let params := Set_ "code_challenge_method" "S256" params in
  let params := Set_ "code_challenge" chal params in
  ret (authURL ++ "?" ++ valuesEncode env params).

(** The error of [exec.Command(cmd, args...).Start()], [None] for nil. *)
Definition openBrowser (url : string) : M (option string) :=
  let '(cmd, args) :=
    if String.eqb (GOOS env) "windows" then ("cmd", ["/c"; "start"])
    else if String.eqb (GOOS env) "darwin" then ("open", [])
    else ("xdg-open", []) in
  let args := (args ++ [url])%list in
  emit (EvCommandStart cmd args) ;;;
  ret (commandStart env cmd args).

Definition exchangeCodeForToken (code : string) : M (result Token) :=
  ver <- gets codeVerifier ;;
  let data := [] in
  let data := Set_ "client_id" clientID data in
  let data := Set_ "grant_type" "authorization_code" data in
  let data := Set_ "code" code data in
  let data := Set_ "redirect_uri" redirectURI data in
  let data := Set_ "code_verifier" ver data in
  resp <- http_PostForm tokenURL data ;;
  match resp with
  | PostFailed err => ret (Err ("failed to exchange code: " ++ err))
  | PostResponse status body =>
      if negb (status =? StatusOK)%Z then
        ret (Err ("token exchange failed (status " ++ itoa status ++ "): " ++ body))
      else
        match jsonDecode env body with
        | Err err => ret (Err ("failed to decode token response: " ++ err))
        | Ok tokenResp =>
            t <- time_Now ;;
            ret (Ok (mkToken (resp_AccessToken tokenResp)
                             (resp_TokenType tokenResp)
                             (resp_RefreshToken tokenResp)
                             (t + wrap64 (resp_ExpiresIn tokenResp * Second))))
        end
  end.

Definition refreshToken (oldToken : Token) : M (result Token) :=
  let data := [] in
  let data := Set_ "client_id" clientID data in
  let data := Set_ "grant_type" "refresh_token" data in
  let data := Set_ "refresh_token" (RefreshToken oldToken) data in
  resp <- http_PostForm tokenURL data ;;
  match resp with
  | PostFailed err => ret (Err ("failed to refresh token: " ++ err))
  | PostResponse status body =>
      if negb (status =? StatusOK)%Z then
        ret (Err ("token refresh failed (status " ++ itoa status ++ "): " ++ body))
      else
        match jsonDecode env body with
        | Err err => ret (Err ("failed to decode token response: " ++ err))
        | Ok tokenResp =>
            let newRefreshToken := resp_RefreshToken tokenResp in
            let newRefreshToken :=
              if String.eqb newRefreshToken "" then RefreshToken oldToken
              else newRefreshToken in
            t <- time_Now ;;
            ret (Ok (mkToken (resp_AccessToken tokenResp)
                             (resp_TokenType tokenResp)
                             newRefreshToken
                             (t + wrap64 (resp_ExpiresIn tokenResp * Second))))
        end
  end.

(** [token.Expiry.After(time.Now().Add(5 * time.Minute))]. *)
Definition isTokenValid (token : option Token) : M bool :=
  match token with
  | None => ret false
  | Some token =>
      t <- time_Now ;;
      ret (t + 5 * Minute <? Expiry token)%Z
  end.

(** The handler of the callback, for a request with query [r].  Its
    value is the token it sends on [ch], [None] when it returns without
    sending. *)
Definition completeAuthHandler (r : Values) : M (option Token) :=
  errMsg <- Query_Get r "error" ;;
  if negb (String.eqb errMsg "") then
    errDesc <- Query_Get r "error_description" ;;
    http_Error ("Authentication error: " ++ errMsg ++ " - " ++ errDesc)
               StatusForbidden ;;;
    ret None
  else
    st <- Query_Get r "state" ;;
    expected <- gets state ;;
    if negb (String.eqb st expected) then
      http_Error "Invalid state parameter" StatusForbidden ;;;
      ret None
    else
      code <- Query_Get r "code" ;;
      if String.eqb code "" then
        http_Error "No authorization code" StatusBadRequest ;;;
        ret None
      else
        res <- exchangeCodeForToken code ;;
        match res with
        | Err err =>
            http_Error ("Failed to get token: " ++ err)
                       StatusInternalServerError ;;;
            ret None
        | Ok token =>
            emit EvSuccessPage ;;;
            ret (Some token)
        end.

(** The [select] of [Login].  [arrivals] are the callback requests the
    listener serves before the five-minute timer fires, in the order
    their handlers run; each handler runs to its end before the next.
    The wait ends with the first handler that sends on [ch], or, when
    the requests are used up, with the timer ([None]).  These are the
    waits in which no two handlers overlap and none is running when the
    timer fires; the module [Wait] below has the handlers side by side,
    and a handler that is still running when [Login] leaves its
    [select]. *)
Fixpoint awaitToken (arrivals : list Values) : M (option Token) :=
  match arrivals with
  | [] => ret None
  | r :: rest =>
      sent <- completeAuthHandler r ;;
      match sent with
      | Some token => ret (Some token)
      | None => awaitToken rest
      end
  end.

(** What [Login] returns: [(accessToken, refToken, err)]. *)
Definition LoginReturn : Type := string * string * option string.

(** Lines 283 to 310 of [Login]: the PKCE parameters, the handler, the
    listener and the authorization URL. *)
Definition startListener : M unit :=
  initPKCE ;;;
  http_HandleFunc "/" ;;;
  server_ListenAndServe ":1069" ;;;
  url <- buildAuthURL ;;
  Println (LF ++ "=== Spotify Authentication Required ===") ;;;
  Println "Opening browser for authentication..." ;;;
  Println "" ;;;
  err <- openBrowser url ;;
  match err with
  | Some _ =>
      Println "Could not open browser automatically. Please visit this URL:" ;;;
      Println url
  | None =>
      Println "If browser doesn't open, visit this URL:" ;;;
      Println url
  end ;;;
  Println "" ;;;
  Println "Waiting for authentication...".

(** Lines 283 to 331 of [Login]: the interactive login. *)
Definition authenticate (arrivals : list Values) : M LoginReturn :=
  startListener ;;;
  got <- awaitToken arrivals ;;
  match got with
  | None =>
      server_Shutdown ;;;
      ret ("", "", Some "authentication timeout after 5 minutes")
  | Some token =>
      server_Shutdown ;;;
      modify (set_cachedToken (Some token)) ;;;
      Println "✓ Authentication successful!" ;;;
      ret (AccessToken token, RefreshToken token, None)
  end.

Definition Login (arrivals : list Values) : M LoginReturn :=
  cached <- gets cachedToken ;;
  match cached with
  | None => authenticate arrivals
  | Some tok =>
      valid <- isTokenValid (Some tok) ;;
      if valid then ret (AccessToken tok, RefreshToken tok, None)
      else
        valid <- isTokenValid (Some tok) ;;
        if negb valid then
          res <- refreshToken tok ;;
          match res with
          | Ok newToken =>
              modify (set_cachedToken (Some newToken)) ;;;
              ret (AccessToken newToken, RefreshToken newToken, None)
          | Err _ => authenticate arrivals
          end
        else authenticate arrivals
  end.

Definition GetAccessToken (arrivals : list Values) : M (string * option string) :=
  r <- Login arrivals ;;
  let '(accessToken, _, err) := r in
  ret (accessToken, err).

End Code.
End Spotify.

Import Spotify.

(* ================================================================= *)
(** ** Vocabulary of the statements *)

(** The form [refreshToken] posts for [old], and the one
    [exchangeCodeForToken] posts for [code] under verifier [ver]. *)
Definition refreshData (old : Token) : Values :=
  [("client_id", clientID); ("grant_type", "refresh_token");
   ("refresh_token", RefreshToken old)].

Definition exchangeData (code ver : string) : Values :=
  [("client_id", clientID); ("grant_type", "authorization_code");
   ("code", code); ("redirect_uri", redirectURI); ("code_verifier", ver)].

Definition timeoutError : string := "authentication timeout after 5 minutes".

(** A world with further events in its trace and nothing else changed. *)
Definition add_events (evs : list Event) (w : World) : World :=
  mkWorld (state w) (codeVerifier w) (codeChallenge w) (cachedToken w)
          (muxPatterns w) (listening w) (randReads w) (clockReads w)
          (posts w) (trace w ++ evs).

(** The events a computation added to the trace of [w]. *)
Definition events_since (w w' : World) : list Event :=
  skipn (List.length (trace w)) (trace w').

Definition isPost (e : Event) : bool :=
  match e with
  | EvPostForm _ _ => true
  | _ => false
  end.

Definition isRefreshPost (e : Event) : bool :=
  match e with
  | EvPostForm _ data => String.eqb (Get "grant_type" data) "refresh_token"
  | _ => false
  end.

Definition isQueryGet (key : string) (e : Event) : bool :=
  match e with
  | EvQueryGet k => String.eqb k key
  | _ => false
  end.

Definition count (p : Event -> bool) (evs : list Event) : nat :=
  List.length (filter p evs).

(** A callback request carries a failure, for an attempt whose state is
    [st]: an [error] parameter, another [state], or no [code]. *)
Definition carriesFailure (st : string) (r : Values) : Prop :=
  Get "error" r <> "" \/ Get "state" r <> st \/ Get "code" r = "".

(** A call of [Login] from [w] gets to its interactive login in [w1]:
    there is no cached token, or the cached one is stale and its refresh
    fails. *)
Inductive interactive (env : Env) : World -> World -> Prop :=
| interactive_no_cache w :
    cachedToken w = None ->
    interactive env w w
| interactive_refresh_failed w tok e w1 :
    cachedToken w = Some tok ->
    Expiry tok <= now env (clockReads w) + 5 * Minute ->
    Expiry tok <= now env (S (clockReads w)) + 5 * Minute ->
    refreshToken env tok (set_clockReads (2 + clockReads w) w) = (Val (Err e), w1) ->
    interactive env w w1.

(** The events the handler adds when it serves [r] in [w]. *)
Definition handlerEvents (env : Env) (r : Values) (w : World) : list Event :=
  events_since w (snd (completeAuthHandler env r w)).

(** The comparison of the state is the first thing the handler does. *)
Definition stateCheckedFirst (env : Env) (r : Values) (w : World) : Prop :=
  hd_error (handlerEvents env r w) = Some (EvQueryGet "state").

(* ================================================================= *)
(** ** The hand-off on [ch], as goroutines

    One call of [Login] that has reached its [select], and the handler
    goroutines the listener starts, one per request.  [ch] is unbuffered
    and never closed: a send completes only together with a receive, and
    the only receive is the [select] of [Login].  What [Login] does after
    its [select] is left out, the shutdown of the listener too: the
    listener of the model goes on accepting, which only adds steps. *)

Module Handoff.

(** Where [Login] is: in the [select]; out of it by the timer; out of
    it with a token. *)
Inductive LoginPc :=
| Selecting
| TimedOut
| Received (token : Token).

(** Where a handler is: before line 199 with its request; at the send
    of line 263; returned. *)
Inductive HandlerPc :=
| Serving (r : Values)
| Sending (token : Token)
| Returned.

Record State := mkState {
  login : LoginPc;
  handlers : list HandlerPc;
  world : World
}.

Fixpoint update {A} (i : nat) (a : A) (l : list A) : list A :=
  match l, i with
  | [], _ => []
  | _ :: rest, O => a :: rest
  | x :: rest, S i' => x :: update i' a rest
  end.

Definition afterBody (sent : option Token) : HandlerPc :=
  match sent with
  | Some token => Sending token
  | None => Returned
  end.

Inductive step (env : Env) : State -> State -> Prop :=
| step_accept s r :
    listening (world s) = true ->
    step env s (mkState (login s) (handlers s ++ [Serving r]) (world s))
| step_serve s i r sent w' :
    nth_error (handlers s) i = Some (Serving r) ->
    completeAuthHandler env r (world s) = (Val sent, w') ->
    step env s (mkState (login s) (update i (afterBody sent) (handlers s)) w')
| step_handoff s i token :
    login s = Selecting ->
    nth_error (handlers s) i = Some (Sending token) ->
    step env s (mkState (Received token) (update i Returned (handlers s)) (world s))
| step_timer s :
    login s = Selecting ->
    step env s (mkState TimedOut (handlers s) (world s)).

Inductive steps (env : Env) : State -> State -> Prop :=
| steps_refl s : steps env s s
| steps_step s s' s'' : step env s s' -> steps env s' s'' -> steps env s s''.

(** The number of sends on [ch] that have completed. *)
Definition received (s : State) : nat :=
  match login s with
  | Received _ => 1
  | _ => 0
  end.

End Handoff.

(** The token a 200 response gives, read at clock reading [t]. *)
Definition tokenOf (refresh : string) (tr : TokenResp) (t : Z) : Token :=
  mkToken (resp_AccessToken tr) (resp_TokenType tr) refresh
          (t + wrap64 (resp_ExpiresIn tr * Second)).

Definition posted (data : Values) (w : World) : World :=
  add_events [EvPostForm tokenURL data] (set_posts (S (posts w)) w).

(** The bytes [rand.Read] gives for a read of [n] bytes after [k]. *)
Definition randBytes (env : Env) (k n : nat) : list Z :=
  map (fun i => Z.of_N (Byte.to_N (randByte env (k + i)%nat))) (seq 0 n).

(** The PKCE values [initPKCE] generates in [w]. *)
Definition attemptState (env : Env) (w : World) : string :=
  Base64.EncodeToString (randBytes env (randReads w) 16).

Definition attemptVerifier (env : Env) (w : World) : string :=
  Base64.EncodeToString (randBytes env (randReads w + 16) 32).

(** The world in which [Login] waits, but for the events: the PKCE values
    set, the handler registered, the listener open. *)
Definition started (env : Env) (w : World) : World :=
  mkWorld (attemptState env w) (attemptVerifier env w)
          (generateCodeChallenge (attemptVerifier env w))
          (cachedToken w) ("/" :: muxPatterns w) true
          (randReads w + 16 + 32) (clockReads w) (posts w) (trace w).

Definition registered (w : World) : bool :=
  existsb (String.eqb "/") (muxPatterns w).

Definition noPost (evs : list Event) : Prop := count isPost evs = 0%nat.
Definition noRefreshPost (evs : list Event) : Prop := count isRefreshPost evs = 0%nat.

(** What serving callbacks leaves alone: the package variables but for
    the clock, post and trace, where no refresh is ever posted. *)
Definition served (w w' : World) : Prop :=
  state w' = state w /\
  codeVerifier w' = codeVerifier w /\
  cachedToken w' = cachedToken w /\
  listening w' = listening w /\
  muxPatterns w' = muxPatterns w /\
  exists evs, trace w' = (trace w ++ evs)%list /\ noRefreshPost evs.

Definition registrationPanic : string := "http: multiple registrations for /".

(** The world [Login] returns in after the wait ended in [w3], when the
    timer won and when [token] was received. *)
Definition closed (w3 : World) : World :=
  set_listening false (add_events [EvShutdown] w3).

Definition loggedIn (token : Token) (w3 : World) : World :=
  add_events [EvPrintln "✓ Authentication successful!"]
             (set_cachedToken (Some token) (closed w3)).

(** The HTTP errors among events, in order. *)
Fixpoint httpErrors (evs : list Event) : list (Z * string) :=
  match evs with
  | [] => []
  | EvHttpError code msg :: rest => (code, msg) :: httpErrors rest
  | _ :: rest => httpErrors rest
  end.

(** What the browser is told for a request that carries a failure. *)
Definition failureReply (st : string) (r : Values) : Z * string :=
  if negb (String.eqb (Get "error" r) "") then
    (403, "Authentication error: " ++ Get "error" r ++ " - " ++
          Get "error_description" r)
  else if negb (String.eqb (Get "state" r) st) then
    (403, "Invalid state parameter")
  else (400, "No authorization code").

(** *** Sample inputs *)

(** The process as it starts: no PKCE values, no token, nothing
    registered, nothing read. *)
Definition initialWorld : World := mkWorld "" "" "" None [] false 0 0 0 [].

(** An environment whose entropy source gives the byte 0x61, whose clock
    starts at 1000 s and ticks by a nanosecond a reading, whose token
    endpoint always answers [post], and whose bodies decode to one fixed
    token response. *)
Definition sampleEnv (post : PostResult) (refresh : string) : Env :=
  mkEnv (fun _ => Byte.x61)
        (fun k => 1000 * Second + Z.of_nat k)
        (fun _ _ _ => post)
        (fun _ => Ok (mkTokenResp "AT" "Bearer" 3600 refresh ""))
        (fun vs => String.concat "&" (map (fun kv => fst kv ++ "=" ++ snd kv) vs))
        "linux"
        (fun _ _ => None).

Definition okEnv : Env := sampleEnv (PostResponse 200 "{}") "RT".
Definition badEnv : Env := sampleEnv (PostResponse 400 "invalid_grant") "RT".

(** The state the sample entropy gives an attempt. *)
Definition sampleState : string := "YWFhYWFhYWFhYWFhYWFhYQ".

Definition deniedCallback : Values := [("error", "access_denied")].
Definition goodCallback : Values := [("state", sampleState); ("code", "c0de")].
Definition forgedCallback : Values :=
  [("error", "access_denied"); ("state", "forged"); ("code", "c0de")].

Definition oldToken (expiry : Z) : Token := mkToken "A0" "Bearer" "R0" expiry.

Definition cachedWorld (expiry : Z) : World :=
  mkWorld sampleState "" "" (Some (oldToken expiry)) ["/"] false 48 1 1 [].

(** A world in which an attempt with state [sampleState] waits. *)
Definition waitingWorld : World :=
  mkWorld sampleState "verifier" "challenge" None ["/"] true 48 0 0 [].


(** The attempt of the sample entropy at its [select], the token the
    sample endpoint gives it, and the state in which the timer has fired
    while the handler of a good callback is at its send. *)
Definition selectWorld : World := snd (startListener okEnv initialWorld).

Definition selecting : Handoff.State :=
  Handoff.mkState Handoff.Selecting [] selectWorld.

Definition lateToken : Token :=
  mkToken "AT" "Bearer" "RT" (1000 * Second + wrap64 (3600 * Second)).

Definition lateSend : Handoff.State :=
  Handoff.mkState Handoff.TimedOut [Handoff.Sending lateToken]
    (snd (completeAuthHandler okEnv goodCallback selectWorld)).

(** An environment like [okEnv] whose token responses declare a
    lifetime of 300 seconds and no refresh token. *)
Definition shortEnv : Env :=
  mkEnv (fun _ => Byte.x61)
        (fun k => 1000 * Second + Z.of_nat k)
        (fun _ _ _ => PostResponse 200 "{}")
        (fun _ => Ok (mkTokenResp "AT" "Bearer" 300 "" ""))
        (fun vs => String.concat "&" (map (fun kv => fst kv ++ "=" ++ snd kv) vs))
        "linux"
        (fun _ _ => None).

(** An event is no post, or it is the post of an exchange: to the token
    endpoint, with the code of one of the requests [arrivals] and with
    the verifier [ver]. *)
Definition exchangePostOf (arrivals : list Values) (ver : string) (e : Event) : Prop :=
  match e with
  | EvPostForm url data =>
      url = tokenURL /\
      exists r, In r arrivals /\ data = exchangeData (Get "code" r) ver
  | _ => True
  end.

Definition isListen (e : Event) : bool :=
  match e with
  | EvListenAndServe _ => true
  | _ => false
  end.

(** A world without its trace: what the program holds and has read. *)
Definition forget (w : World) : World :=
  mkWorld (state w) (codeVerifier w) (codeChallenge w) (cachedToken w)
          (muxPatterns w) (listening w) (randReads w) (clockReads w)
          (posts w) [].

(** Two environments in which the entropy, the clock, the token endpoint
    and the JSON decoder are the same; the operating system, the launch
    of the browser and the encoding of the URL may differ. *)
Definition sameService (env env' : Env) : Prop :=
  randByte env = randByte env' /\
  now env = now env' /\
  postForm env = postForm env' /\
  jsonDecode env = jsonDecode env'.

(** An environment like [okEnv] on another system, where the browser
    does not start. *)
Definition noBrowserEnv : Env :=
  mkEnv (fun _ => Byte.x61)
        (fun k => 1000 * Second + Z.of_nat k)
        (fun _ _ _ => PostResponse 200 "{}")
        (fun _ => Ok (mkTokenResp "AT" "Bearer" 3600 "RT" ""))
        (fun vs => String.concat "&" (map (fun kv => fst kv ++ "=" ++ snd kv) vs))
        "windows"
        (fun _ _ => Some "exec: not found").

(* ================================================================= *)
(** ** net/url: [QueryEscape] and [Values.Encode] *)

Module URL.

(** The bytes [QueryEscape] leaves alone: letters, digits and [-_.~]. *)
Definition unreserved (c : ascii) : bool :=
  let n := N_of_ascii c in
  ((97 <=? n) && (n <=? 122) || (65 <=? n) && (n <=? 90) ||
   (48 <=? n) && (n <=? 57) ||
   (n =? 45) || (n =? 95) || (n =? 46) || (n =? 126))%N.

Definition upperhex : string := "0123456789ABCDEF".

Definition hexChar (n : N) : ascii :=
  match String.get (N.to_nat n) upperhex with
  | Some c => c
  | None => "0"%char
  end.

(** A space becomes [+], any other byte that is not unreserved becomes
    [%] and its two upper-case hexadecimal digits. *)
Fixpoint QueryEscape (s : string) : string :=
  match s with
  | EmptyString => EmptyString
  | String c s' =>
      if Ascii.eqb c " " then String "+" (QueryEscape s')
      else if unreserved c then String c (QueryEscape s')
      else
        let n := N_of_ascii c in
        String "%" (String (hexChar (N.shiftr n 4))
                           (String (hexChar (N.land n 15)) (QueryEscape s')))
  end.

(** The keys in increasing order, by insertion. *)
Fixpoint insert (kv : string * string) (vs : Values) : Values :=
  match vs with
  | [] => [kv]
  | kv' :: rest =>
      if String.leb (fst kv) (fst kv') then kv :: kv' :: rest
      else kv' :: insert kv rest
  end.

Definition sorted (vs : Values) : Values := fold_right insert [] vs.

(** [v.Encode()]: [key=value] pairs, both escaped, joined by [&], in the
    order of the keys. *)
Definition Encode (vs : Values) : string :=
  String.concat "&"
    (map (fun kv => QueryEscape (fst kv) ++ "=" ++ QueryEscape (snd kv)) (sorted vs)).

End URL.

(* ================================================================= *)
(** ** pkg/spotify: the API client *)

Module Client.

Definition apiBaseURL := "https://api.spotify.com/v1".

Record Playlist := mkPlaylist {
  pl_ID : string;
  pl_Name : string;
  pl_TracksTotal : Z;
  pl_OwnerDisplayName : string;
  pl_Public : bool;
  pl_Collaborative : bool
}.

Record Track := mkTrack {
  tr_ID : string;
  tr_Name : string;
  tr_Artists : list string;
  tr_AlbumName : string;
  tr_DurationMs : Z
}.

Record SavedTrack := mkSavedTrack {
  AddedAt : string;
  saved_Track : Track
}.

(** The anonymous item of the response of a playlist's tracks. *)
Record TrackItem := mkTrackItem { item_Track : Track }.

Record User := mkUser {
  user_ID : string;
  user_DisplayName : string;
  user_Email : string
}.

(** The anonymous paged response: [Next] is a [*string]. *)
Record Page (A : Type) := mkPage {
  Items : list A;
  Total : Z;
  Next : option string
}.
Arguments mkPage {A} Items Total Next.
Arguments Items {A} p.
Arguments Total {A} p.
Arguments Next {A} p.

(** [Client]: the access token is all the requests depend on. *)
Record Client := mkClient { accessToken : string }.

(** A request as [makeRequest] sends it. *)
Record Request := mkRequest {
  req_method : string;
  req_url : string;
  req_headers : list (string * string)
}.

(** What comes of building and sending a request and reading the body:
    the error of any of the three, which [makeRequest] returns as it is,
    or a status code and a body. *)
Inductive DoResult :=
| DoFailed (err : string)
| DoResponse (StatusCode : Z) (Body : string).

(** The API and the JSON decoder, for each shape the client decodes. *)
Record Api := mkApi {
  apiDo : nat -> Request -> DoResult;
  unmarshalPlaylists : string -> result (Page Playlist);
  unmarshalSavedTracks : string -> result (Page SavedTrack);
  unmarshalTrackItems : string -> result (Page TrackItem);
  unmarshalUser : string -> result User;
  unmarshalTotal : string -> result Z
}.

(** The requests made so far. *)
Definition Sent := list Request.

Section Code.

Variable api : Api.

Definition makeRequest (c : Client) (method endpoint : string)
    (params : option Values) (sent : Sent) : result string * Sent :=
  let urlStr := apiBaseURL ++ endpoint in
  let urlStr :=
    match params with
    | Some params => urlStr ++ "?" ++ URL.Encode params
    | None => urlStr
    end in
  let req :=
    mkRequest method urlStr
      (Set_ "Content-Type" "application/json"
         (Set_ "Authorization" ("Bearer " ++ accessToken c) [])) in
  match apiDo api (List.length sent) req with
  | DoFailed err => (Err err, (sent ++ [req])%list)
  | DoResponse status body =>
      if negb (status =? 200)%Z then
        (Err ("API request failed (status " ++ itoa status ++ "): " ++ body),
         (sent ++ [req])%list)
      else (Ok body, (sent ++ [req])%list)
  end.

(** The loop of the three paged calls, which differ in the endpoint, the
    limit, the shape of the items and the texts of the errors.  [None]
    is a loop that is still running when the fuel is used up. *)
Section Paged.

Variables A B : Type.
Variable endpoint : string.
Variable limit : Z.
Variable unmarshal : string -> result (Page B).
Variable unwrap : B -> A.
Variables getError parseError : string.

Fixpoint fetchPages (fuel : nat) (c : Client) (offset : Z) (all : list A)
    (sent : Sent) : option (result (list A)) * Sent :=
  match fuel with
  | O => (None, sent)
  | S fuel' =>
      let params := Set_ "offset" (itoa offset) (Set_ "limit" (itoa limit) []) in
      match makeRequest c "GET" endpoint (Some params) sent with
      | (Err err, sent') => (Some (Err (getError ++ ": " ++ err)), sent')
      | (Ok body, sent') =>
          match unmarshal body with
          | Err err => (Some (Err (parseError ++ ": " ++ err)), sent')
          | Ok response =>
              let all := (all ++ map unwrap (Items response))%list in
              match Next response with
              | None => (Some (Ok all), sent')
              | Some _ =>
                  if (Z.of_nat (List.length (Items response)) <? limit)%Z
                  then (Some (Ok all), sent')
                  else fetchPages fuel' c (wrap64 (offset + limit)) all sent'
              end
          end
      end
  end.

End Paged.

Definition GetAllPlaylists (fuel : nat) (c : Client) :=
  fetchPages Playlist Playlist "/me/playlists" 50 (unmarshalPlaylists api)
             (fun p => p) "failed to get playlists" "failed to parse playlists"
             fuel c 0 [].

Definition GetLikedSongs (fuel : nat) (c : Client) :=
  fetchPages SavedTrack SavedTrack "/me/tracks" 50 (unmarshalSavedTracks api)
             (fun t => t) "failed to get liked songs" "failed to parse liked songs"
             fuel c 0 [].

Definition GetPlaylistTracks (fuel : nat) (c : Client) (playlistID : string) :=
  fetchPages Track TrackItem ("/playlists/" ++ playlistID ++ "/tracks") 100
             (unmarshalTrackItems api) item_Track
             "failed to get playlist tracks" "failed to parse playlist tracks"
             fuel c 0 [].

Definition GetCurrentUser (c : Client) (sent : Sent) : result User * Sent :=
  match makeRequest c "GET" "/me" None sent with
  | (Err err, sent') => (Err ("failed to get current user: " ++ err), sent')
  | (Ok body, sent') =>
      match unmarshalUser api body with
      | Err err => (Err ("failed to parse user: " ++ err), sent')
      | Ok user => (Ok user, sent')
      end
  end.

Definition GetPlaylistByName (fuel : nat) (c : Client) (name : string)
    (sent : Sent) : option (result Playlist) * Sent :=
  match GetAllPlaylists fuel c sent with
  | (None, sent') => (None, sent')
  | (Some (Err err), sent') => (Some (Err err), sent')
  | (Some (Ok playlists), sent') =>
      match find (fun playlist => String.eqb (pl_Name playlist) name) playlists with
      | Some playlist => (Some (Ok playlist), sent')
      | None => (Some (Err ("playlist '" ++ name ++ "' not found")), sent')
      end
  end.

Definition GetLikedSongsCount (c : Client) (sent : Sent) : result Z * Sent :=
  let params := Set_ "limit" "1" [] in
  match makeRequest c "GET" "/me/tracks" (Some params) sent with
  | (Err err, sent') => (Err ("failed to get liked songs count: " ++ err), sent')
  | (Ok body, sent') =>
      match unmarshalTotal api body with
      | Err err => (Err ("failed to parse response: " ++ err), sent')
      | Ok total => (Ok total, sent')
      end
  end.

Definition GetPlaylistsCount (c : Client) (sent : Sent) : result Z * Sent :=
  let params := Set_ "limit" "1" [] in
  match makeRequest c "GET" "/me/playlists" (Some params) sent with
  | (Err err, sent') => (Err ("failed to get playlists count: " ++ err), sent')
  | (Ok body, sent') =>
      match unmarshalTotal api body with
      | Err err => (Err ("failed to parse response: " ++ err), sent')
      | Ok total => (Ok total, sent')
      end
  end.

End Code.

(** [NewClient]: the token of [GetAccessToken], or its error wrapped. *)
Definition NewClient (env : Env) (arrivals : list Values) : M (result Client) :=
  r <- GetAccessToken env arrivals ;;
  let '(token, err) := r in
  match err with
  | Some err => ret (Err ("failed to get access token: " ++ err))
  | None => ret (Ok (mkClient token))
  end.

End Client.

(** *** Vocabulary of the client *)

(** The headers of every request of client [c]. *)
Definition clientHeaders (c : Client.Client) : list (string * string) :=
  [("Authorization", "Bearer " ++ Client.accessToken c);
   ("Content-Type", "application/json")].

(** The request of the page at [offset] of a paged call. *)
Definition pageRequest (c : Client.Client) (endpoint : string) (limit offset : Z)
    : Client.Request :=
  Client.mkRequest "GET"
    (Client.apiBaseURL ++ endpoint ++ "?limit=" ++ itoa limit ++
     "&offset=" ++ itoa offset)
    (clientHeaders c).

(** The requests of the first [m] pages. *)
Definition pageRequests (c : Client.Client) (endpoint : string) (limit : Z)
    (m : nat) : list Client.Request :=
  map (fun j => pageRequest c endpoint limit (limit * Z.of_nat j)) (seq 0 m).

(** The error [makeRequest] makes of what came of a request, if any. *)
Definition requestError (r : Client.DoResult) : option string :=
  match r with
  | Client.DoFailed err => Some err
  | Client.DoResponse status body =>
      if (status =? 200)%Z then None
      else Some ("API request failed (status " ++ itoa status ++ "): " ++ body)
  end.

(** *** A sample API: 120 playlists, served 50 a page *)

Definition samplePlaylist (i : nat) : Client.Playlist :=
  Client.mkPlaylist (itoa (Z.of_nat i)) ("playlist " ++ itoa (Z.of_nat i))
                    (Z.of_nat i) "me" false false.

Definition samplePlaylists : list Client.Playlist := map samplePlaylist (seq 0 120).

(** The body of the [k]-th response is [k] letters; it decodes to the
    page of the playlists from [50 * k] on. *)
Definition sampleApi : Client.Api :=
  Client.mkApi
    (fun k _ => Client.DoResponse 200 (string_of_list_ascii (repeat "x"%char k)))
    (fun body =>
       let k := String.length body in
       Ok (Client.mkPage (firstn 50 (skipn (50 * k) samplePlaylists)) 120
                         (if (50 * (k + 1) <? 120)%nat then Some "next" else None)))
    (fun _ => Err "unexpected")
    (fun _ => Err "unexpected")
    (fun _ => Err "unexpected")
    (fun _ => Err "unexpected").

(** An API that never runs out of full pages. *)
Definition endlessApi : Client.Api :=
  Client.mkApi
    (fun _ _ => Client.DoResponse 200 "{}")
    (fun _ => Ok (Client.mkPage (firstn 50 samplePlaylists) 120 (Some "next")))
    (fun _ => Err "unexpected")
    (fun _ => Err "unexpected")
    (fun _ => Err "unexpected")
    (fun _ => Err "unexpected").

(** An API that is down. *)
Definition downApi : Client.Api :=
  Client.mkApi
    (fun _ _ => Client.DoResponse 503 "unavailable")
    (fun _ => Err "unexpected")
    (fun _ => Err "unexpected")
    (fun _ => Err "unexpected")
    (fun _ => Err "unexpected")
    (fun _ => Err "unexpected").

Definition sampleClient : Client.Client := Client.mkClient "AT".

(** The API answers the [k]-th request, [req], with a 200 whose body
    decodes to the page [p]. *)
Definition servedPage {B} (api : Client.Api)
    (unmarshal : string -> result (Client.Page B))
    (k : nat) (req : Client.Request) (p : Client.Page B) : Prop :=
  exists body,
    Client.apiDo api k req = Client.DoResponse 200 body /\
    unmarshal body = Ok p.

(** A page after which the loop goes on: it has a next link and is
    full.  A page at which it stops: no next link, or a short page. *)
Definition continuing {B} (limit : Z) (p : Client.Page B) : Prop :=
  Client.Next p <> None /\ limit <= Z.of_nat (List.length (Client.Items p)).

Definition final {B} (limit : Z) (p : Client.Page B) : Prop :=
  Client.Next p = None \/ Z.of_nat (List.length (Client.Items p)) < limit.

(** The items of the pages [page 0], ..., [page (m - 1)], in order. *)
Definition collected {A B} (unwrap : B -> A) (page : nat -> Client.Page B)
    (m : nat) : list A :=
  flat_map (fun j => map unwrap (Client.Items (page j))) (seq 0 m).

(** The pages of the sample API. *)
Definition samplePage (j : nat) : Client.Page Client.Playlist :=
  Client.mkPage (firstn 50 (skipn (50 * j) samplePlaylists)) 120
                (if (50 * (j + 1) <? 120)%nat then Some "next" else None).

Definition unavailable : string := "API request failed (status 503): unavailable".

(** An environment like [okEnv] whose [Encode] is the one of [net/url]. *)
Definition libEnv : Env :=
  mkEnv (fun _ => Byte.x61)
        (fun k => 1000 * Second + Z.of_nat k)
        (fun _ _ _ => PostResponse 200 "{}")
        (fun _ => Ok (mkTokenResp "AT" "Bearer" 3600 "RT" ""))
        URL.Encode
        "linux"
        (fun _ _ => None).

(** The place of a character in the URL-safe alphabet (64 if it has
    none), as in the decode map of [encoding/base64]. *)
Fixpoint indexIn (c : ascii) (alphabet : list ascii) : Z :=
  match alphabet with
  | [] => 0
  | a :: rest => if Ascii.eqb c a then 0 else 1 + indexIn c rest
  end.

Definition base64Index (c : ascii) : Z :=
  indexIn c (list_ascii_of_string Base64.encodeURL).

Definition isByte (b : Z) : Prop := 0 <= b < 256.

(** A token that a run of the handler sent. *)
Definition producedBy (env : Env) (token : Token) : Prop :=
  exists r w w', completeAuthHandler env r w = (Val (Some token), w').

(** A state of the hand-off in which [Login] has its token while the
    handler of a second good callback is at its send. *)
Definition secondSend : Handoff.State :=
  Handoff.mkState (Handoff.Received lateToken) [Handoff.Returned; Handoff.Sending lateToken]
    (snd (completeAuthHandler okEnv goodCallback selectWorld)).

(** A request of client [c] to the API: a GET under the base URL with
    the headers of [c]. *)
Definition apiRequestOf (c : Client.Client) (r : Client.Request) : Prop :=
  Client.req_method r = "GET" /\
  Client.req_headers r = clientHeaders c /\
  prefix_at Client.apiBaseURL (Client.req_url r) = true.

(* ================================================================= *)
(** ** The wait of [Login], as goroutines

    Lines 313 to 331 of [Login] together with the handler goroutines of
    the listener: [net/http] serves every connection in a goroutine of
    its own, so handlers run side by side, and one may still be running
    when [Login] leaves its [select].  [server.Shutdown] closes the
    listeners first and then waits for the connections that are serving
    a request: under [context.Background()] (line 318) without limit,
    under the five-second context of line 323 for five seconds at the
    most.  A handler runs its body up to the send of line 263 in one
    step; what it shares with [Login] and with the other handlers is the
    package variables it reads and the order of the calls to the clock
    and to the token endpoint.  The instructions between the [select]
    and the closing of the listeners are no state of their own: a request
    accepted there is a request accepted just before.  The shutdown of
    line 325 may return at any time, its context ending it after five
    seconds whatever the handlers do.

    [awaitToken] is the part of this model in which the handlers run one
    after the other and have all returned when the timer fires
    ([awaitToken_is_a_run] below). *)

Module Wait.

(** Where [Login] is: in the [select] of line 314; in the
    [server.Shutdown(context.Background())] of line 318, the timer
    having fired; in the [server.Shutdown(shutdownCtx)] of line 325 with
    the token it received; returned. *)
Inductive LoginPc :=
| Selecting
| Draining
| Stopping (token : Token)
| Returned (ret : LoginReturn).

(** Where the handler of request [r] is: before line 199; at the send
    of line 263; returned. *)
Inductive HandlerPc :=
| Serving (r : Values)
| Sending (r : Values) (token : Token)
| Done (r : Values).

Record State := mkState {
  login : LoginPc;
  handlers : list HandlerPc;
  world : World
}.

Definition request (h : HandlerPc) : Values :=
  match h with
  | Serving r => r
  | Sending r _ => r
  | Done r => r
  end.

(** The connection of a handler that has returned is idle. *)
Definition idle (h : HandlerPc) : bool :=
  match h with
  | Done _ => true
  | _ => false
  end.

Definition afterBody (r : Values) (sent : option Token) : HandlerPc :=
  match sent with
  | Some token => Sending r token
  | None => Done r
  end.

(** Lines 328 to 331. *)
Definition finish (token : Token) (w : World) : World :=
  add_events [EvPrintln "✓ Authentication successful!"]
             (set_cachedToken (Some token) w).

Inductive step (env : Env) : State -> State -> Prop :=
| step_accept s r :
    listening (world s) = true ->
    step env s (mkState (login s) (handlers s ++ [Serving r]) (world s))
| step_serve s i r sent w' :
    nth_error (handlers s) i = Some (Serving r) ->
    completeAuthHandler env r (world s) = (Val sent, w') ->
    step env s (mkState (login s) (Handoff.update i (afterBody r sent) (handlers s)) w')
| step_receive s i r token :
    login s = Selecting ->
    nth_error (handlers s) i = Some (Sending r token) ->
    step env s (mkState (Stopping token) (Handoff.update i (Done r) (handlers s))
                        (closed (world s)))
| step_timer s :
    login s = Selecting ->
    step env s (mkState Draining (handlers s) (closed (world s)))
| step_drained s :
    login s = Draining ->
    forallb idle (handlers s) = true ->
    step env s (mkState (Returned ("", "", Some timeoutError)) (handlers s) (world s))
| step_stopped s token :
    login s = Stopping token ->
    step env s (mkState (Returned (AccessToken token, RefreshToken token, None))
                        (handlers s) (finish token (world s))).

Inductive steps (env : Env) : State -> State -> Prop :=
| steps_refl s : steps env s s
| steps_step s s' s'' : step env s s' -> steps env s' s'' -> steps env s s''.

(** [Login] at its [select] in [w], no request accepted yet. *)
Definition start (w : World) : State := mkState Selecting [] w.

(** The state after the timer has fired in [s]. *)
Definition expire (s : State) : State :=
  mkState Draining (handlers s) (closed (world s)).

(** [P] comes to hold on every run from [s]: it holds in [s], or [s]
    has a step and [P] comes to hold after every step of [s]. *)
Inductive inevitably (env : Env) (P : State -> Prop) : State -> Prop :=
| inevitably_now s : P s -> inevitably env P s
| inevitably_later s :
    (exists s', step env s s') ->
    (forall s', step env s s' -> inevitably env P s') ->
    inevitably env P s.

End Wait.

(** A callback that passes the three checks of the handler, for an
    attempt whose state is [st]. *)
Definition wellFormed (st : string) (r : Values) : bool :=
  String.eqb (Get "error" r) "" && String.eqb (Get "state" r) st &&
  negb (String.eqb (Get "code" r) "").

(** The handler of [r] sends whenever it runs, for an attempt with state
    [st] and verifier [ver]: [r] passes the checks and the token
    endpoint answers its exchange with a 200 that decodes, at whatever
    place among the posts. *)
Definition sends (env : Env) (st ver : string) (r : Values) : Prop :=
  wellFormed st r = true /\
  forall k, exists body tr,
    postForm env k tokenURL (exchangeData (Get "code" r) ver) = PostResponse 200 body /\
    jsonDecode env body = Ok tr.

(** A handler that will not return: it is at its send, or it is on its
    way there. *)
Definition blocking (env : Env) (w : World) (h : Wait.HandlerPc) : Prop :=
  match h with
  | Wait.Serving r => sends env (state w) (codeVerifier w) r
  | Wait.Sending _ _ => True
  | Wait.Done _ => False
  end.

(** A handler that returns: it has returned, or serves a callback that
    carries a failure. *)
Definition returning (st : string) (h : Wait.HandlerPc) : Prop :=
  match h with
  | Wait.Serving r => carriesFailure st r
  | Wait.Sending _ _ => False
  | Wait.Done _ => True
  end.

(** The number of handlers that have not returned. *)
Definition running (hs : list Wait.HandlerPc) : nat :=
  List.length (filter (fun h => negb (Wait.idle h)) hs).

(** The worlds a process gets to: the one it starts in, and the one any
    call of [Login] leaves. *)
Inductive reachable : World -> Prop :=
| reachable_initial : reachable initialWorld
| reachable_login env arrivals w :
    reachable w -> reachable (snd (Login env arrivals w)).

(** An environment like [okEnv] whose tokens live for a minute and whose
    token endpoint answers the first post only; and the world of a
    process after its first login there. *)
Definition staleEnv : Env :=
  mkEnv (fun _ => Byte.x61)
        (fun k => 1000 * Second + Z.of_nat k)
        (fun k _ _ => match k with
                      | O => PostResponse 200 "{}"
                      | S _ => PostResponse 400 "invalid_grant"
                      end)
        (fun _ => Ok (mkTokenResp "AT" "Bearer" 60 "RT" ""))
        (fun vs => String.concat "&" (map (fun kv => fst kv ++ "=" ++ snd kv) vs))
        "linux"
        (fun _ _ => None).

Definition staleWorld : World := snd (Login staleEnv [goodCallback] initialWorld).

Definition staleToken : Token :=
  mkToken "AT" "Bearer" "RT" (1000 * Second + wrap64 (60 * Second)).

(** The wait of the sample attempt with a good callback accepted and its
    handler not yet run. *)
Definition inFlight : Wait.State :=
  Wait.mkState Wait.Selecting [Wait.Serving goodCallback] selectWorld.

(** *** The wait with one callback that passes the checks *)

(** A handler that has sent nothing and posted nothing: it has not run,
    or it has returned from a callback that does not pass the checks. *)
Definition settled (st : string) (h : Wait.HandlerPc) : Prop :=
  match h with
  | Wait.Serving _ => True
  | Wait.Sending _ _ => False
  | Wait.Done r => wellFormed st r = false
  end.

Definition othersSettled (st : string) (j : nat) (hs : list Wait.HandlerPc) : Prop :=
  forall i h, i <> j -> nth_error hs i = Some h -> settled st h.

(** The world [w] of a wait that began in [w2], after [n] exchanges and
    the events [evs]. *)
Definition during (n : nat) (evs : list Event) (w2 w : World) : Prop :=
  state w = state w2 /\ codeVerifier w = codeVerifier w2 /\
  posts w = (n + posts w2)%nat /\ clockReads w = (n + clockReads w2)%nat /\
  trace w = (trace w2 ++ evs)%list.

(** The one callback of the wait that passes the checks is [r], and
    [more] of the callbacks that pass them are still to be accepted. *)
Definition onlyGood (st : string) (r : Values) (s : Wait.State) : Prop :=
  exists more,
    (filter (wellFormed st) (map Wait.request (Wait.handlers s)) ++ more)%list = [r].

(** Where a wait that began in [w2] stands when [r] is its one callback
    that passes the checks and [token] what its exchange gives: the
    handler of [r] has not run; it is at its send; [Login] has received
    its token. *)
Inductive waitInv (w2 : World) (r : Values) (token : Token) (s : Wait.State) : Prop :=
| inv_waiting evs :
    during 0 evs w2 (Wait.world s) ->
    filter isPost evs = [] ->
    cachedToken (Wait.world s) = cachedToken w2 ->
    Forall (settled (state w2)) (Wait.handlers s) ->
    (Wait.login s = Wait.Selecting \/
     (Wait.login s = Wait.Draining /\ listening (Wait.world s) = false) \/
     (Wait.login s = Wait.Returned ("", "", Some timeoutError) /\
      listening (Wait.world s) = false /\
      forallb Wait.idle (Wait.handlers s) = true)) ->
    waitInv w2 r token s
| inv_sending evs j :
    during 1 evs w2 (Wait.world s) ->
    filter isPost evs =
      [EvPostForm tokenURL (exchangeData (Get "code" r) (codeVerifier w2))] ->
    cachedToken (Wait.world s) = cachedToken w2 ->
    nth_error (Wait.handlers s) j = Some (Wait.Sending r token) ->
    othersSettled (state w2) j (Wait.handlers s) ->
    (Wait.login s = Wait.Selecting \/
     (Wait.login s = Wait.Draining /\ listening (Wait.world s) = false)) ->
    waitInv w2 r token s
| inv_received evs j :
    during 1 evs w2 (Wait.world s) ->
    filter isPost evs =
      [EvPostForm tokenURL (exchangeData (Get "code" r) (codeVerifier w2))] ->
    nth_error (Wait.handlers s) j = Some (Wait.Done r) ->
    othersSettled (state w2) j (Wait.handlers s) ->
    listening (Wait.world s) = false ->
    ((Wait.login s = Wait.Stopping token /\
      cachedToken (Wait.world s) = cachedToken w2) \/
     (Wait.login s = Wait.Returned (AccessToken token, RefreshToken token, None) /\
      cachedToken (Wait.world s) = Some token)) ->
    waitInv w2 r token s.

(** A run of the sample attempt in which the handlers of a denied and of
    a good callback run side by side: both are accepted, the good one is
    served first, then the denied one, and [Login] receives. *)
Definition sideBySide : Wait.State :=
  Wait.mkState
    (Wait.Returned ("AT", "RT", None))
    [Wait.Done deniedCallback; Wait.Done goodCallback]
    (Wait.finish lateToken
       (closed (snd (completeAuthHandler okEnv deniedCallback
                       (snd (completeAuthHandler okEnv goodCallback selectWorld)))))).

(* ================================================================= *)
(** ** [Sum256] on the test vectors of FIPS 180-4 *)

Example K_first_last :
  hd 0 Sha256.K = 0x428a2f98 /\ last Sha256.K 0 = 0xc67178f2 /\
  List.length Sha256.K = 64%nat /\ Sha256.ra Sha256.H0 = 0x6a09e667.
Proof. vm_compute. repeat split. Qed.

Example sum256_empty :
  hex (Sha256.Sum256 []) =
  "e3b0c44298fc1c149afbf4c8996fb92427ae41e4649b934ca495991b7852b855".
Proof. vm_compute. reflexivity. Qed.

Example sum256_abc :
  hex (Sha256.Sum256 (bytes_of_string "abc")) =
  "ba7816bf8f01cfea414140de5dae2223b00361a396177a9cb410ff61f20015ad".
Proof. vm_compute. reflexivity. Qed.

Example sum256_two_blocks :
  hex (Sha256.Sum256 (bytes_of_string
    "abcdbcdecdefdefgefghfghighijhijkijkljklmklmnlmnomnopnopq")) =
  "248d6a61d20638b8e5c026930c3e6039a33ce45964ff2167f6ecedd419db06c1".
Proof. vm_compute. reflexivity. Qed.

(* ================================================================= *)
(** ** Running the monad *)

Local Arguments String.append : simpl never.
Local Arguments generateCodeChallenge : simpl never.
Local Arguments Base64.EncodeToString : simpl never.
Local Arguments String.concat : simpl never.

Ltac run :=
  unfold Login, authenticate, startListener, completeAuthHandler,
    isTokenValid, refreshToken, exchangeCodeForToken, initPKCE,
    generateCodeVerifier, generateRandomString, buildAuthURL, openBrowser,
    http_Error, Query_Get, Println, server_Shutdown, server_ListenAndServe,
    http_HandleFunc, http_PostForm, time_Now, rand_Read,
    emit, modify, gets, bind, ret, panic; cbn.

Lemma add_events_nil w : add_events [] w = w.
Proof. destruct w; unfold add_events; cbn. now rewrite app_nil_r. Qed.

Lemma add_events_app evs1 evs2 w :
  add_events evs2 (add_events evs1 w) = add_events (evs1 ++ evs2) w.
Proof. unfold add_events; cbn. now rewrite app_assoc. Qed.

Lemma events_since_add evs w : events_since w (add_events evs w) = evs.
Proof.
  unfold events_since, add_events; cbn.
  rewrite skipn_app, skipn_all, Nat.sub_diag. reflexivity.
Qed.

Lemma emit_eq e w : emit e w = (Val tt, add_events [e] w).
Proof. reflexivity. Qed.

Lemma exchangeCodeForToken_eq env code w :
  exchangeCodeForToken env code w =
  let data := exchangeData code (codeVerifier w) in
  let w1 := posted data w in
  match postForm env (posts w) tokenURL data with
  | PostFailed err => (Val (Err ("failed to exchange code: " ++ err)), w1)
  | PostResponse status body =>
      if negb (status =? 200)%Z then
        (Val (Err ("token exchange failed (status " ++ itoa status ++ "): " ++ body)), w1)
      else
        match jsonDecode env body with
        | Err err => (Val (Err ("failed to decode token response: " ++ err)), w1)
        | Ok tr =>
            (Val (Ok (tokenOf (resp_RefreshToken tr) tr (now env (clockReads w)))),
             set_clockReads (S (clockReads w)) w1)
        end
  end.
Proof.
  run. unfold exchangeData.
  destruct (postForm env (posts w) tokenURL _) as [err|status body]; [reflexivity|].
  unfold StatusOK. destruct (status =? 200)%Z; cbn; [|reflexivity].
  destruct (jsonDecode env body); reflexivity.
Qed.

Lemma refreshToken_eq env old w :
  refreshToken env old w =
  let data := refreshData old in
  let w1 := posted data w in
  match postForm env (posts w) tokenURL data with
  | PostFailed err => (Val (Err ("failed to refresh token: " ++ err)), w1)
  | PostResponse status body =>
      if negb (status =? 200)%Z then
        (Val (Err ("token refresh failed (status " ++ itoa status ++ "): " ++ body)), w1)
      else
        match jsonDecode env body with
        | Err err => (Val (Err ("failed to decode token response: " ++ err)), w1)
        | Ok tr =>
            (Val (Ok (tokenOf (if String.eqb (resp_RefreshToken tr) ""
                               then RefreshToken old else resp_RefreshToken tr)
                              tr (now env (clockReads w)))),
             set_clockReads (S (clockReads w)) w1)
        end
  end.
Proof.
  run. unfold refreshData.
  destruct (postForm env (posts w) tokenURL _) as [err|status body]; [reflexivity|].
  unfold StatusOK. destruct (status =? 200)%Z; cbn; [|reflexivity].
  destruct (jsonDecode env body); reflexivity.
Qed.

Lemma completeAuthHandler_eq env r w :
  completeAuthHandler env r w =
  if negb (String.eqb (Get "error" r) "") then
    (Val None,
     add_events [EvQueryGet "error"; EvQueryGet "error_description";
                 EvHttpError 403 ("Authentication error: " ++ Get "error" r ++
                                  " - " ++ Get "error_description" r)] w)
  else if negb (String.eqb (Get "state" r) (state w)) then
    (Val None,
     add_events [EvQueryGet "error"; EvQueryGet "state";
                 EvHttpError 403 "Invalid state parameter"] w)
  else if String.eqb (Get "code" r) "" then
    (Val None,
     add_events [EvQueryGet "error"; EvQueryGet "state"; EvQueryGet "code";
                 EvHttpError 400 "No authorization code"] w)
  else
    match exchangeCodeForToken env (Get "code" r)
            (add_events [EvQueryGet "error"; EvQueryGet "state"; EvQueryGet "code"] w)
    with
    | (Val (Ok token), w') => (Val (Some token), add_events [EvSuccessPage] w')
    | (Val (Err err), w') =>
        (Val None, add_events [EvHttpError 500 ("Failed to get token: " ++ err)] w')
    | (Panic msg, w') => (Panic msg, w')
    end.
Proof.
  unfold completeAuthHandler, Query_Get, http_Error, bind, ret, gets.
  rewrite !emit_eq.
  destruct (String.eqb (Get "error" r) ""); cbn [negb].
  2:{ rewrite !emit_eq, !add_events_app. reflexivity. }
  rewrite !emit_eq, !add_events_app. cbn [app].
  change (state (add_events _ w)) with (state w).
  destruct (String.eqb (Get "state" r) (state w)); cbn [negb].
  2:{ rewrite !emit_eq, !add_events_app. reflexivity. }
  rewrite !emit_eq, !add_events_app. cbn [app].
  destruct (String.eqb (Get "code" r) "").
  { rewrite !emit_eq, !add_events_app. reflexivity. }
  destruct (exchangeCodeForToken env _ _) as [[[tok|e]|m] w']; try reflexivity.
Qed.

Lemma count_app p evs1 evs2 :
  count p (evs1 ++ evs2) = (count p evs1 + count p evs2)%nat.
Proof. unfold count. now rewrite filter_app, length_app. Qed.

Lemma initPKCE_eq env w :
  initPKCE env w =
  (Val tt,
   set_pkce (attemptState env w) (attemptVerifier env w)
            (generateCodeChallenge (attemptVerifier env w))
            (set_randReads (randReads w + 16 + 32) w)).
Proof. reflexivity. Qed.

(** Events commute with the setters: worlds are normalised to
    [add_events evs base]. *)
Lemma set_listening_add b evs w :
  set_listening b (add_events evs w) = add_events evs (set_listening b w).
Proof. reflexivity. Qed.

Lemma set_muxPatterns_add ps evs w :
  set_muxPatterns ps (add_events evs w) = add_events evs (set_muxPatterns ps w).
Proof. reflexivity. Qed.

Lemma set_cachedToken_add t evs w :
  set_cachedToken t (add_events evs w) = add_events evs (set_cachedToken t w).
Proof. reflexivity. Qed.

Lemma set_clockReads_add n evs w :
  set_clockReads n (add_events evs w) = add_events evs (set_clockReads n w).
Proof. reflexivity. Qed.

Lemma set_posts_add n evs w :
  set_posts n (add_events evs w) = add_events evs (set_posts n w).
Proof. reflexivity. Qed.

Create Rewrite HintDb world.
#[local] Hint Rewrite emit_eq set_listening_add set_muxPatterns_add
  set_cachedToken_add set_clockReads_add set_posts_add add_events_app : world.

Lemma http_HandleFunc_eq w :
  http_HandleFunc "/" w =
  if registered w then (Panic registrationPanic, add_events [EvHandleFunc "/"] w)
  else (Val tt, set_muxPatterns ("/" :: muxPatterns w) (add_events [EvHandleFunc "/"] w)).
Proof.
  unfold http_HandleFunc, registered, bind, gets. rewrite emit_eq.
  change (existsb (String.eqb "/") (muxPatterns w)) with (registered w).
  destruct (registered w); reflexivity.
Qed.

Lemma startListener_ok env w :
  registered w = false ->
  exists evs,
    startListener env w = (Val tt, add_events evs (started env w)) /\
    noPost evs.
Proof.
  intros Hreg. unfold startListener.
  unfold bind at 1. rewrite initPKCE_eq.
  unfold bind at 1. rewrite http_HandleFunc_eq.
  change (registered (set_pkce _ _ _ _)) with (registered w). rewrite Hreg.
  unfold server_ListenAndServe, buildAuthURL, openBrowser, Println.
  destruct (if String.eqb (GOOS env) "windows" then _ else _) as [cmd args].
  unfold bind, gets, modify, ret. rewrite !emit_eq.
  cbn [state codeChallenge add_events set_listening set_muxPatterns set_pkce].
  destruct (commandStart env cmd _); autorewrite with world; cbn [app];
    eexists; (split; [reflexivity | reflexivity]).
Qed.

Lemma startListener_panics env w :
  registered w = true ->
  startListener env w =
    (Panic registrationPanic,
     add_events [EvHandleFunc "/"]
       (set_pkce (attemptState env w) (attemptVerifier env w)
                 (generateCodeChallenge (attemptVerifier env w))
                 (set_randReads (randReads w + 16 + 32) w))).
Proof.
  intros Hreg. unfold startListener.
  unfold bind at 1. rewrite initPKCE_eq.
  unfold bind at 1. rewrite http_HandleFunc_eq.
  change (registered (set_pkce _ _ _ _)) with (registered w). rewrite Hreg.
  reflexivity.
Qed.

Lemma served_refl w : served w w.
Proof.
  unfold served. repeat split. exists []. now rewrite app_nil_r.
Qed.

Lemma served_trans w1 w2 w3 : served w1 w2 -> served w2 w3 -> served w1 w3.
Proof.
  intros (A1 & A2 & A3 & A4 & A5 & e1 & A6 & A7) (B1 & B2 & B3 & B4 & B5 & e2 & B6 & B7).
  unfold served. repeat split; try congruence.
  exists (e1 ++ e2)%list. split.
  - rewrite B6, A6. now rewrite app_assoc.
  - unfold noRefreshPost in *. rewrite count_app. lia.
Qed.

Lemma served_add_events evs w : noRefreshPost evs -> served w (add_events evs w).
Proof. intros H. unfold served. repeat split. now exists evs. Qed.

Lemma exchange_served env code w :
  exists res w',
    exchangeCodeForToken env code w = (Val res, w') /\ served w w'.
Proof.
  rewrite exchangeCodeForToken_eq. cbv zeta.
  assert (Hp : served w (posted (exchangeData code (codeVerifier w)) w)).
  { unfold served, posted. repeat split. eexists. split; [reflexivity|reflexivity]. }
  destruct (postForm env _ _ _) as [err|status body]; [eauto|].
  destruct (negb _); [eauto|].
  destruct (jsonDecode env body); [|eauto].
  do 2 eexists. split; [reflexivity|].
  eapply served_trans; [exact Hp|].
  unfold served. repeat split. exists []. cbn. now rewrite app_nil_r.
Qed.

Lemma handler_served env r w :
  exists sent w',
    completeAuthHandler env r w = (Val sent, w') /\ served w w'.
Proof.
  rewrite completeAuthHandler_eq.
  destruct (negb (String.eqb (Get "error" r) "")).
  { do 2 eexists. split; [reflexivity|]. now apply served_add_events. }
  destruct (negb (String.eqb (Get "state" r) (state w))).
  { do 2 eexists. split; [reflexivity|]. now apply served_add_events. }
  destruct (String.eqb (Get "code" r) "").
  { do 2 eexists. split; [reflexivity|]. now apply served_add_events. }
  destruct (exchange_served env (Get "code" r)
              (add_events [EvQueryGet "error"; EvQueryGet "state"; EvQueryGet "code"] w))
    as (res & w' & -> & Hs).
  assert (Hq : served w w').
  { eapply served_trans; [|exact Hs]. now apply served_add_events. }
  destruct res as [tok|e]; do 2 eexists; (split; [reflexivity|]);
    (eapply served_trans; [exact Hq|]); now apply served_add_events.
Qed.

Lemma awaitToken_served env arrivals :
  forall w, exists got w',
    awaitToken env arrivals w = (Val got, w') /\ served w w'.
Proof.
  induction arrivals as [|r rest IH]; intros w.
  - exists None, w. split; [reflexivity|apply served_refl].
  - cbn [awaitToken]. unfold bind.
    destruct (handler_served env r w) as (sent & w1 & -> & Hs).
    destruct sent as [tok|].
    + exists (Some tok), w1. split; [reflexivity|exact Hs].
    + destruct (IH w1) as (got & w' & -> & Hs').
      exists got, w'. split; [reflexivity|]. eapply served_trans; eauto.
Qed.

Lemma isTokenValid_eq env tok w :
  isTokenValid env (Some tok) w =
  (Val (now env (clockReads w) + 5 * Minute <? Expiry tok)%Z,
   set_clockReads (S (clockReads w)) w).
Proof. reflexivity. Qed.

(** [Login], branch by branch. *)
Lemma Login_cases env arrivals w :
  Login env arrivals w =
  match cachedToken w with
  | None => authenticate env arrivals w
  | Some tok =>
      if (now env (clockReads w) + 5 * Minute <? Expiry tok)%Z then
        (Val (AccessToken tok, RefreshToken tok, None),
         set_clockReads (S (clockReads w)) w)
      else if (now env (S (clockReads w)) + 5 * Minute <? Expiry tok)%Z then
        authenticate env arrivals (set_clockReads (2 + clockReads w) w)
      else
        match refreshToken env tok (set_clockReads (2 + clockReads w) w) with
        | (Val (Ok newToken), w1) =>
            (Val (AccessToken newToken, RefreshToken newToken, None),
             set_cachedToken (Some newToken) w1)
        | (Val (Err _), w1) => authenticate env arrivals w1
        | (Panic msg, w1) => (Panic msg, w1)
        end
  end.
Proof.
  unfold Login, bind, gets, ret, modify.
  destruct (cachedToken w) as [tok|]; [|reflexivity].
  rewrite isTokenValid_eq.
  destruct (now env (clockReads w) + 5 * Minute <? Expiry tok)%Z; [reflexivity|].
  rewrite isTokenValid_eq.
  change (clockReads (set_clockReads _ w)) with (S (clockReads w)).
  change (set_clockReads _ (set_clockReads _ w)) with (set_clockReads (2 + clockReads w) w).
  destruct (now env (S (clockReads w)) + 5 * Minute <? Expiry tok)%Z; cbn [negb]; [reflexivity|].
  destruct (refreshToken env tok _) as [[[nt|e]|m] w1]; reflexivity.
Qed.

(** The interactive login, outcome by outcome. *)
Lemma authenticate_cases env arrivals w :
  (registered w = true /\
   exists w', authenticate env arrivals w = (Panic registrationPanic, w') /\
              cachedToken w' = cachedToken w /\
              posts w' = posts w /\
              events_since w w' = [EvHandleFunc "/"])
  \/
  (registered w = false /\
   exists evs0 got w3,
     startListener env w = (Val tt, add_events evs0 (started env w)) /\
     noPost evs0 /\
     awaitToken env arrivals (add_events evs0 (started env w)) = (Val got, w3) /\
     served (add_events evs0 (started env w)) w3 /\
     authenticate env arrivals w =
       match got with
       | None => (Val ("", "", Some timeoutError), closed w3)
       | Some token =>
           (Val (AccessToken token, RefreshToken token, None), loggedIn token w3)
       end).
Proof.
  destruct (registered w) eqn:Hreg.
  - left. split; [reflexivity|].
    eexists. unfold authenticate, bind.
    rewrite (startListener_panics env w Hreg).
    split; [reflexivity|]. repeat split.
    unfold events_since. cbn [trace add_events set_pkce set_randReads].
    now rewrite skipn_app, skipn_all, Nat.sub_diag.
  - right. split; [reflexivity|].
    destruct (startListener_ok env w Hreg) as (evs0 & Hs & Hn).
    destruct (awaitToken_served env arrivals (add_events evs0 (started env w)))
      as (got & w3 & Ha & Hv).
    exists evs0, got, w3.
    split; [exact Hs|]. split; [exact Hn|]. split; [exact Ha|]. split; [exact Hv|].
    unfold authenticate, bind. rewrite Hs, Ha.
    destruct got as [token|]; reflexivity.
Qed.

Lemma events_since_app w w' evs :
  trace w' = (trace w ++ evs)%list -> events_since w w' = evs.
Proof.
  intros H. unfold events_since. rewrite H.
  now rewrite skipn_app, skipn_all, Nat.sub_diag.
Qed.

Lemma login_interactive env arrivals w w1 :
  interactive env w w1 ->
  Login env arrivals w = authenticate env arrivals w1.
Proof.
  intros H. rewrite Login_cases. destruct H as [w Hc|w tok e w1 Hc H1 H2 Hr].
  - now rewrite Hc.
  - rewrite Hc.
    replace (now env (clockReads w) + 5 * Minute <? Expiry tok)%Z with false
      by (symmetry; apply Z.ltb_ge; exact H1).
    replace (now env (S (clockReads w)) + 5 * Minute <? Expiry tok)%Z with false
      by (symmetry; apply Z.ltb_ge; exact H2).
    now rewrite Hr.
Qed.

Lemma interactive_keeps_cache env w w1 :
  interactive env w w1 -> cachedToken w1 = cachedToken w.
Proof.
  intros [w0 Hc|w0 tok e w2 Hc H1 H2 Hr]; [reflexivity|].
  rewrite refreshToken_eq in Hr. cbv zeta in Hr.
  destruct (postForm env _ _ _) as [err|status body].
  - injection Hr as _ <-. reflexivity.
  - destruct (negb _).
    + injection Hr as _ <-. reflexivity.
    + destruct (jsonDecode env body); [discriminate|].
      injection Hr as _ <-. reflexivity.
Qed.


(* ================================================================= *)
(** ** The token cache *)

(** C5.  When the cached token expires more than five minutes after the
    current time, [Login] returns its access and refresh tokens at once:
    it reads the clock and does nothing else, so the trace gets no event
    (no refresh, no exchange, no listener) and no post is made. *)
Theorem login_cached_fresh env arrivals w tok :
  cachedToken w = Some tok ->
  now env (clockReads w) + 5 * Minute < Expiry tok ->
  Login env arrivals w =
    (Val (AccessToken tok, RefreshToken tok, None),
     set_clockReads (S (clockReads w)) w) /\
  events_since w (snd (Login env arrivals w)) = [] /\
  posts (snd (Login env arrivals w)) = posts w /\
  listening (snd (Login env arrivals w)) = listening w /\
  cachedToken (snd (Login env arrivals w)) = Some tok.
Proof.
  intros Hc Hfresh.
  assert (E : Login env arrivals w =
              (Val (AccessToken tok, RefreshToken tok, None),
               set_clockReads (S (clockReads w)) w)).
  { rewrite Login_cases, Hc.
    apply Z.ltb_lt in Hfresh. now rewrite Hfresh. }
  rewrite E. cbn [snd]. repeat split; cbn; auto.
  unfold events_since. cbn. apply skipn_all.
Qed.

Lemma login_cached_fresh_witness :
  Login okEnv [goodCallback] (cachedWorld (2000 * Second)) =
    (Val ("A0", "R0", None), set_clockReads 2 (cachedWorld (2000 * Second))) /\
  events_since (cachedWorld (2000 * Second))
    (snd (Login okEnv [goodCallback] (cachedWorld (2000 * Second)))) = [] /\
  posts (snd (Login okEnv [goodCallback] (cachedWorld (2000 * Second)))) = 1%nat /\
  listening (snd (Login okEnv [goodCallback] (cachedWorld (2000 * Second)))) = false /\
  cachedToken (snd (Login okEnv [goodCallback] (cachedWorld (2000 * Second)))) =
    Some (oldToken (2000 * Second)).
Proof.
  apply (login_cached_fresh okEnv [goodCallback] (cachedWorld (2000 * Second))
           (oldToken (2000 * Second))).
  - reflexivity.
  - vm_compute. reflexivity.
Defined.

(** C7.  A refresh that is answered 200 with a body that decodes gives a
    token; when the decoded [refresh_token] is the empty string (the field
    was left out) the token has the refresh token of the old one, and
    otherwise the one of the response. *)
Theorem refresh_keeps_refresh_token env old w body tr :
  postForm env (posts w) tokenURL (refreshData old) = PostResponse 200 body ->
  jsonDecode env body = Ok tr ->
  exists tok w',
    refreshToken env old w = (Val (Ok tok), w') /\
    AccessToken tok = resp_AccessToken tr /\
    (resp_RefreshToken tr = "" -> RefreshToken tok = RefreshToken old) /\
    (resp_RefreshToken tr <> "" -> RefreshToken tok = resp_RefreshToken tr).
Proof.
  intros Hp Hj. rewrite refreshToken_eq. cbv zeta. rewrite Hp. cbn [negb Z.eqb Pos.eqb].
  rewrite Hj. do 2 eexists. split; [reflexivity|]. cbn [tokenOf AccessToken RefreshToken].
  split; [reflexivity|]. split.
  - intros ->. reflexivity.
  - intros Hne. apply String.eqb_neq in Hne. now rewrite Hne.
Qed.

Lemma refresh_keeps_refresh_token_witness :
  exists tok w',
    refreshToken (sampleEnv (PostResponse 200 "{}") "")
                 (oldToken 0) initialWorld = (Val (Ok tok), w') /\
    AccessToken tok = "AT" /\
    ("" = "" -> RefreshToken tok = "R0") /\
    ("" <> "" -> RefreshToken tok = "").
Proof.
  apply (refresh_keeps_refresh_token (sampleEnv (PostResponse 200 "{}") "")
           (oldToken 0) initialWorld "{}" (mkTokenResp "AT" "Bearer" 3600 "" ""));
    reflexivity.
Defined.

Lemma authenticate_trace env arrivals w :
  exists evs,
    trace (snd (authenticate env arrivals w)) = (trace w ++ evs)%list /\
    noRefreshPost evs.
Proof.
  destruct (authenticate_cases env arrivals w)
    as [(Hreg & w2 & Hp & _)|(_ & evs0 & got & w3 & Hs & Hn & Ha & Hv & Hl)].
  - unfold authenticate, bind in *. rewrite (startListener_panics env w Hreg).
    exists [EvHandleFunc "/"]. split; reflexivity.
  - destruct Hv as (_ & _ & _ & _ & _ & evs & Ht & Hr).
    cbn [trace add_events started] in Ht.
    assert (H0 : noRefreshPost evs0).
    { clear - Hn. unfold noPost, noRefreshPost, count in *.
      induction evs0 as [|e evs0 IH]; [reflexivity|].
      destruct e; cbn in *; try discriminate; auto. }
    rewrite Hl. destruct got as [token|]; cbn; rewrite Ht, <- !app_assoc;
      eexists; (split; [reflexivity|]);
      unfold noRefreshPost in *; rewrite !count_app, H0, Hr; reflexivity.
Qed.

Lemma refresh_error_not_timeout env old w e w1 :
  refreshToken env old w = (Val (Err e), w1) -> e <> timeoutError.
Proof.
  rewrite refreshToken_eq. cbv zeta.
  destruct (postForm env _ _ _) as [err|status body].
  - intros H. injection H as <- _. unfold timeoutError. intros E.
    cbv [append] in E. discriminate.
  - destruct (negb _).
    + intros H. injection H as <- _. unfold timeoutError. intros E.
      cbv [append] in E. discriminate.
    + destruct (jsonDecode env body); [discriminate|].
      intros H. injection H as <- _. unfold timeoutError. intros E.
      cbv [append] in E. discriminate.
Qed.

Lemma refresh_posts_once env old w :
  exists res w1,
    refreshToken env old w = (Val res, w1) /\
    trace w1 = (trace w ++ [EvPostForm tokenURL (refreshData old)])%list.
Proof.
  rewrite refreshToken_eq. cbv zeta.
  destruct (postForm env _ _ _) as [err|status body]; [eauto|].
  destruct (negb _); [eauto|].
  destruct (jsonDecode env body); eauto.
Qed.

Lemma refresh_keeps_cache env old w res w1 :
  refreshToken env old w = (res, w1) -> cachedToken w1 = cachedToken w.
Proof.
  rewrite refreshToken_eq. cbv zeta.
  destruct (postForm env _ _ _) as [err|status body].
  - intros H. injection H as _ <-. reflexivity.
  - destruct (negb _).
    + intros H. injection H as _ <-. reflexivity.
    + destruct (jsonDecode env body); intros H; injection H as _ <-; reflexivity.
Qed.

Lemma authenticate_cache env arrivals w res w' :
  authenticate env arrivals w = (res, w') ->
  (forall a b e, res = Val (a, b, Some e) -> cachedToken w' = cachedToken w) /\
  (cachedToken w' = cachedToken w \/
   exists t,
     cachedToken w' = Some t /\
     res = Val (AccessToken t, RefreshToken t, None) /\
     exists w2 w3, awaitToken env arrivals w2 = (Val (Some t), w3)).
Proof.
  intros H.
  destruct (authenticate_cases env arrivals w)
    as [(_ & w2 & Hp & Hc & _)|(_ & evs0 & got & w3 & Hs & Hn & Ha & Hv & Hl)].
  - rewrite Hp in H. injection H as <- <-.
    split; [discriminate|]. left. exact Hc.
  - rewrite Hl in H. destruct Hv as (_ & _ & Hc & _). cbn in Hc.
    destruct got as [token|]; injection H as <- <-.
    + split; [discriminate|]. right. exists token.
      split; [reflexivity|]. split; [reflexivity|]. eauto.
    + assert (E : cachedToken (closed w3) = cachedToken w) by (cbn; congruence).
      split; [intros; exact E|left; exact E].
Qed.

(** C10.  When [Login] returns an error, the cached token is the one the
    call started with.  The cache changes only to a token [t] that
    [Login] returns without error, and [t] is then the token of a
    successful refresh of the cached one or the token a handler sent
    during the wait. *)
Theorem login_error_keeps_cache env arrivals w res w' :
  Login env arrivals w = (res, w') ->
  (forall a b e, res = Val (a, b, Some e) -> cachedToken w' = cachedToken w) /\
  (cachedToken w' = cachedToken w \/
   exists t,
     cachedToken w' = Some t /\
     res = Val (AccessToken t, RefreshToken t, None) /\
     ((exists tok w0 w1,
         cachedToken w = Some tok /\
         refreshToken env tok w0 = (Val (Ok t), w1)) \/
      (exists w2 w3, awaitToken env arrivals w2 = (Val (Some t), w3)))).
Proof.
  assert (A : forall w1,
             cachedToken w1 = cachedToken w ->
             authenticate env arrivals w1 = (res, w') ->
             (forall a b e, res = Val (a, b, Some e) -> cachedToken w' = cachedToken w) /\
             (cachedToken w' = cachedToken w \/
              exists t,
                cachedToken w' = Some t /\
                res = Val (AccessToken t, RefreshToken t, None) /\
                ((exists tok w0 w1,
                    cachedToken w = Some tok /\
                    refreshToken env tok w0 = (Val (Ok t), w1)) \/
                 (exists w2 w3, awaitToken env arrivals w2 = (Val (Some t), w3))))).
  { intros w1 Hc1 H.
    destruct (authenticate_cache env arrivals w1 res w' H) as (He & Hk).
    rewrite Hc1 in He, Hk. split; [exact He|].
    destruct Hk as [Hk|(t & H1 & H2 & H3)]; [left; exact Hk|].
    right. exists t. auto. }
  rewrite Login_cases.
  remember (cachedToken w) as c eqn:Hc. symmetry in Hc. destruct c as [tok|].
  2:{ intros H. apply (A w); [exact Hc|exact H]. }
  destruct (_ <? _)%Z.
  { intros H. injection H as <- <-. split; [discriminate|]. left. exact Hc. }
  destruct (_ <? _)%Z.
  { intros H. exact (A (set_clockReads (2 + clockReads w) w) Hc H). }
  destruct (refreshToken env tok _) as [[[newToken|e]|msg] w1] eqn:Hr.
  - intros H. injection H as <- <-. split; [discriminate|].
    right. exists newToken. split; [reflexivity|]. split; [reflexivity|].
    left. eauto.
  - intros H. refine (A w1 _ H).
    rewrite (refresh_keeps_cache env tok _ _ _ Hr). exact Hc.
  - intros H. injection H as <- <-. split; [discriminate|]. left.
    rewrite (refresh_keeps_cache env tok _ _ _ Hr). exact Hc.
Qed.

Lemma login_error_keeps_cache_witness :
  (forall a b e,
      fst (Login badEnv [goodCallback] initialWorld) = Val (a, b, Some e) ->
      cachedToken (snd (Login badEnv [goodCallback] initialWorld)) =
      cachedToken initialWorld) /\
  (cachedToken (snd (Login badEnv [goodCallback] initialWorld)) =
   cachedToken initialWorld \/
   exists t,
     cachedToken (snd (Login badEnv [goodCallback] initialWorld)) = Some t /\
     fst (Login badEnv [goodCallback] initialWorld) =
       Val (AccessToken t, RefreshToken t, None) /\
     ((exists tok w0 w1,
         cachedToken initialWorld = Some tok /\
         refreshToken badEnv tok w0 = (Val (Ok t), w1)) \/
      (exists w2 w3, awaitToken badEnv [goodCallback] w2 = (Val (Some t), w3)))).
Proof.
  apply (login_error_keeps_cache badEnv [goodCallback] initialWorld).
  apply surjective_pairing.
Defined.

(* ================================================================= *)
(** ** The callbacks *)

Lemma httpErrors_app evs1 evs2 :
  httpErrors (evs1 ++ evs2) = (httpErrors evs1 ++ httpErrors evs2)%list.
Proof.
  induction evs1 as [|e evs1 IH]; [reflexivity|].
  destruct e; cbn; rewrite ?IH; reflexivity.
Qed.

(** A request that carries a failure is answered with that failure and
    nothing more: no post, no send on [ch]. *)
Lemma handler_rejects env r w :
  carriesFailure (state w) r ->
  exists evs,
    completeAuthHandler env r w = (Val None, add_events evs w) /\
    noPost evs /\
    httpErrors evs = [failureReply (state w) r].
Proof.
  intros Hf. rewrite completeAuthHandler_eq. unfold failureReply.
  destruct (String.eqb (Get "error" r) "") eqn:He; cbn [negb].
  2:{ eexists. split; [reflexivity|]. split; reflexivity. }
  destruct (String.eqb (Get "state" r) (state w)) eqn:Hs; cbn [negb].
  2:{ eexists. split; [reflexivity|]. split; reflexivity. }
  destruct (String.eqb (Get "code" r) "") eqn:Hc.
  { eexists. split; [reflexivity|]. split; reflexivity. }
  apply String.eqb_eq in He, Hs. apply String.eqb_neq in Hc.
  destruct Hf as [Hf|[Hf|Hf]]; contradiction.
Qed.

Lemma awaitToken_failures env arrivals :
  forall w,
    Forall (carriesFailure (state w)) arrivals ->
    exists evs,
      awaitToken env arrivals w = (Val None, add_events evs w) /\
      noPost evs /\
      httpErrors evs = map (failureReply (state w)) arrivals.
Proof.
  induction arrivals as [|r rest IH]; intros w Hall.
  - exists []. rewrite add_events_nil. repeat split.
  - inversion Hall as [|r' rest' Hr Hrest]; subst.
    destruct (handler_rejects env r w Hr) as (evs1 & H1 & Hn1 & Hh1).
    destruct (IH (add_events evs1 w) Hrest) as (evs2 & H2 & Hn2 & Hh2).
    exists (evs1 ++ evs2)%list. cbn [awaitToken]. unfold bind.
    rewrite H1, H2, add_events_app. split; [reflexivity|]. split.
    + unfold noPost in *. rewrite count_app. lia.
    + rewrite httpErrors_app, Hh1, Hh2. reflexivity.
Qed.

(** C1, as the code has it.  In an interactive login all of whose
    callbacks carry a failure, each callback is answered over HTTP with
    its failure (403 for a reported error and for a state mismatch, 400
    for a missing code) and the token endpoint is not called; nothing is
    sent to [Login], which waits on, stops the listener when the timer
    fires and returns the timeout error, in which [access_denied] does
    not occur. *)
Theorem login_failed_callbacks env arrivals w w1 :
  interactive env w w1 ->
  registered w1 = false ->
  Forall (carriesFailure (attemptState env w1)) arrivals ->
  exists w',
    Login env arrivals w = (Val ("", "", Some timeoutError), w') /\
    listening w' = false /\
    posts w' = posts w1 /\
    cachedToken w' = cachedToken w /\
    httpErrors (events_since (snd (startListener env w1)) w') =
      map (failureReply (attemptState env w1)) arrivals /\
    Contains timeoutError "access_denied" = false.
Proof.
  intros Hi Hreg Hall.
  rewrite (login_interactive env arrivals w w1 Hi).
  destruct (startListener_ok env w1 Hreg) as (evs0 & Hs & Hn0).
  destruct (awaitToken_failures env arrivals (add_events evs0 (started env w1)) Hall)
    as (evs & Ha & Hn & Hh).
  unfold authenticate, bind. rewrite Hs, Ha. cbn [snd].
  eexists. split; [reflexivity|].
  split; [reflexivity|]. split; [reflexivity|].
  split; [exact (interactive_keeps_cache env w w1 Hi)|].
  split; [|reflexivity].
  rewrite (events_since_app (add_events evs0 (started env w1)) _ (evs ++ [EvShutdown])).
  - rewrite httpErrors_app, Hh. cbn. now rewrite app_nil_r.
  - cbn. now rewrite <- !app_assoc.
Qed.

Lemma login_failed_callbacks_witness :
  exists w',
    Login okEnv [deniedCallback; [("state", "forged"); ("code", "c0de")];
                 [("state", sampleState)]] initialWorld =
      (Val ("", "", Some timeoutError), w') /\
    listening w' = false /\
    posts w' = posts initialWorld /\
    cachedToken w' = cachedToken initialWorld /\
    httpErrors (events_since (snd (startListener okEnv initialWorld)) w') =
      map (failureReply (attemptState okEnv initialWorld))
          [deniedCallback; [("state", "forged"); ("code", "c0de")];
           [("state", sampleState)]] /\
    Contains timeoutError "access_denied" = false.
Proof.
  apply (login_failed_callbacks okEnv _ initialWorld initialWorld).
  - apply interactive_no_cache. reflexivity.
  - reflexivity.
  - apply Forall_cons; [left; discriminate|].
    apply Forall_cons; [right; left; vm_compute; discriminate|].
    apply Forall_cons; [right; right; reflexivity|].
    apply Forall_nil.
Defined.

(** C1, as stated, fails: a login whose only callback reports
    [access_denied] returns no error in which [access_denied] occurs; it
    returns the timeout error. *)
Lemma login_denied_counterexample :
  ~ (exists a b e w',
        Login okEnv [deniedCallback] initialWorld = (Val (a, b, Some e), w') /\
        Contains e "access_denied" = true).
Proof.
  intros (a & b & e & w' & H & Hc).
  assert (E : fst (Login okEnv [deniedCallback] initialWorld) =
              Val ("", "", Some timeoutError)) by (vm_compute; reflexivity).
  rewrite H in E. cbn [fst] in E. injection E as _ _ ->.
  vm_compute in Hc. discriminate.
Qed.






(* ================================================================= *)
(** ** The callback handler *)

(** C3, as the code has it.  The handler looks at the [error] parameter
    first.  A request whose state differs from the attempt's is rejected
    with 403 in either case, the code is not read and nothing is posted
    or sent; when the request has no [error] parameter the comparison of
    the state is what rejects it, right after the look at [error]. *)
Theorem state_mismatch_rejected env r w :
  Get "state" r <> state w ->
  exists evs msg,
    completeAuthHandler env r w =
      (Val None, add_events (evs ++ [EvHttpError 403 msg]) w) /\
    hd_error evs = Some (EvQueryGet "error") /\
    count (isQueryGet "code") evs = 0%nat /\
    noPost evs /\
    (Get "error" r = "" ->
     evs = [EvQueryGet "error"; EvQueryGet "state"] /\
     msg = "Invalid state parameter").
Proof.
  intros Hne. rewrite completeAuthHandler_eq.
  destruct (String.eqb (Get "error" r) "") eqn:He; cbn [negb].
  - apply String.eqb_neq in Hne. rewrite Hne. cbn [negb].
    exists [EvQueryGet "error"; EvQueryGet "state"], "Invalid state parameter".
    repeat split.
  - apply String.eqb_neq in He.
    exists [EvQueryGet "error"; EvQueryGet "error_description"].
    eexists. split; [reflexivity|]. repeat split; contradiction.
Qed.

Lemma state_mismatch_rejected_witness :
  exists evs msg,
    completeAuthHandler okEnv [("state", "forged"); ("code", "c0de")] waitingWorld =
      (Val None, add_events (evs ++ [EvHttpError 403 msg]) waitingWorld) /\
    hd_error evs = Some (EvQueryGet "error") /\
    count (isQueryGet "code") evs = 0%nat /\
    noPost evs /\
    (Get "error" [("state", "forged"); ("code", "c0de")] = "" ->
     evs = [EvQueryGet "error"; EvQueryGet "state"] /\
     msg = "Invalid state parameter").
Proof.
  apply (state_mismatch_rejected okEnv [("state", "forged"); ("code", "c0de")]
           waitingWorld).
  vm_compute. discriminate.
Defined.

(** C3, as stated, fails: for a request with an [error] parameter the
    first thing the handler does is to read that parameter, and it
    answers without ever reading the state. *)
Lemma state_checked_first_counterexample :
  ~ stateCheckedFirst okEnv forgedCallback waitingWorld /\
  handlerEvents okEnv forgedCallback waitingWorld =
    [EvQueryGet "error"; EvQueryGet "error_description";
     EvHttpError 403 "Authentication error: access_denied - "].
Proof.
  split.
  - unfold stateCheckedFirst. vm_compute. discriminate.
  - vm_compute. reflexivity.
Qed.

(* ================================================================= *)
(** ** The PKCE parameters *)

Lemma list_ind3 (P : list Z -> Prop) :
  P [] ->
  (forall a, P [a]) ->
  (forall a b, P [a; b]) ->
  (forall a b c l, P l -> P (a :: b :: c :: l)) ->
  forall l, P l.
Proof.
  intros H0 H1 H2 H3. fix IH 1.
  intros [|a [|b [|c l]]];
    [apply H0|apply H1|apply H2|apply H3; apply IH].
Qed.

Lemma enc_urlSafe i : Base64.urlSafe (Base64.enc i) = true.
Proof.
  unfold Base64.enc.
  assert (H : (Z.to_nat (Z.land i 0x3F) < 64)%nat).
  { assert (0 <= Z.land i 0x3F < 64).
    { change 0x3F with (Z.ones 6). rewrite Z.land_ones by lia.
      apply Z.mod_pos_bound. lia. }
    lia. }
  revert H. generalize (Z.to_nat (Z.land i 0x3F)). intros n H.
  do 64 (destruct n as [|n]; [reflexivity|]). lia.
Qed.

Lemma encode_urlSafe bs : forallb Base64.urlSafe (Base64.encode bs) = true.
Proof.
  induction bs as [|a|a b|a b c l IH] using list_ind3;
    cbn [Base64.encode forallb]; rewrite ?enc_urlSafe, ?IH; reflexivity.
Qed.

Lemma encode_length bs :
  List.length (Base64.encode bs) = ((4 * List.length bs + 2) / 3)%nat.
Proof.
  induction bs as [|a|a b|a b c l IH] using list_ind3; try reflexivity.
  cbn [Base64.encode List.length]. rewrite IH.
  replace (4 * S (S (S (List.length l))) + 2)%nat
    with ((4 * List.length l + 2) + 4 * 3)%nat by lia.
  rewrite Nat.div_add by lia. lia.
Qed.

Lemma length_string_of_list_ascii l :
  String.length (string_of_list_ascii l) = List.length l.
Proof. induction l; cbn; congruence. Qed.

Lemma EncodeToString_length bs :
  String.length (Base64.EncodeToString bs) = ((4 * List.length bs + 2) / 3)%nat.
Proof.
  unfold Base64.EncodeToString.
  now rewrite length_string_of_list_ascii, encode_length.
Qed.

Lemma EncodeToString_urlSafe bs :
  forallb Base64.urlSafe (list_ascii_of_string (Base64.EncodeToString bs)) = true.
Proof.
  unfold Base64.EncodeToString.
  rewrite list_ascii_of_string_of_list_ascii. apply encode_urlSafe.
Qed.

Lemma Sum256_length msg : List.length (Sha256.Sum256 msg) = 32%nat.
Proof. unfold Sha256.Sum256, Sha256.digest. cbv zeta. now rewrite !length_app. Qed.

Lemma randBytes_length env k n : List.length (randBytes env k n) = n.
Proof. unfold randBytes. now rewrite length_map, length_seq. Qed.

Lemma randBytes_range env k n :
  Forall (fun b => 0 <= b < 256) (randBytes env k n).
Proof.
  unfold randBytes. apply Forall_map, Forall_forall. intros i _.
  pose proof (Byte.to_N_bounded (randByte env (k + i))). lia.
Qed.

(** C8.  The challenge of a verifier is the URL-safe base64, without
    padding, of the SHA-256 of the verifier's bytes: 43 characters of the
    URL-safe alphabet, in which [=] is not.  [initPKCE] sets the state to
    the encoding of 16 bytes of the entropy source and the verifier to the
    encoding of the next 32, both without padding (22 and 43 characters
    of the alphabet), and the challenge to the challenge of the
    verifier. *)
Theorem pkce_parameters env w verifier :
  generateCodeChallenge verifier =
    Base64.EncodeToString (Sha256.Sum256 (bytes_of_string verifier)) /\
  String.length (generateCodeChallenge verifier) = 43%nat /\
  forallb Base64.urlSafe (list_ascii_of_string (generateCodeChallenge verifier)) = true /\
  Base64.urlSafe "="%char = false /\
  let w' := snd (initPKCE env w) in
  let stateBytes := randBytes env (randReads w) 16 in
  let verifierBytes := randBytes env (randReads w + 16) 32 in
  fst (initPKCE env w) = Val tt /\
  state w' = Base64.EncodeToString stateBytes /\
  codeVerifier w' = Base64.EncodeToString verifierBytes /\
  codeChallenge w' = generateCodeChallenge (codeVerifier w') /\
  List.length stateBytes = 16%nat /\
  List.length verifierBytes = 32%nat /\
  Forall (fun b => 0 <= b < 256) (stateBytes ++ verifierBytes) /\
  String.length (state w') = 22%nat /\
  String.length (codeVerifier w') = 43%nat /\
  forallb Base64.urlSafe (list_ascii_of_string (state w')) = true /\
  forallb Base64.urlSafe (list_ascii_of_string (codeVerifier w')) = true.
Proof.
  split; [reflexivity|].
  split. { unfold generateCodeChallenge. now rewrite EncodeToString_length, Sum256_length. }
  split. { apply EncodeToString_urlSafe. }
  split; [reflexivity|].
  rewrite initPKCE_eq. cbn [fst snd state codeVerifier codeChallenge set_pkce].
  unfold attemptState, attemptVerifier.
  split; [reflexivity|]. split; [reflexivity|]. split; [reflexivity|].
  split; [reflexivity|].
  split; [apply randBytes_length|]. split; [apply randBytes_length|].
  split; [apply Forall_app; split; apply randBytes_range|].
  split; [now rewrite EncodeToString_length, randBytes_length|].
  split; [now rewrite EncodeToString_length, randBytes_length|].
  split; apply EncodeToString_urlSafe.
Qed.

(** The example of RFC 7636, appendix B. *)
Example challenge_rfc7636 :
  generateCodeChallenge "dBjftJeZ4CVP-mB92K27uhbUJU1p1r_wW1gFWFOEjXk" =
  "E9Melhoa2OwvFrEMTJguCHaoeK1t8URWbuGJSstw-cM".
Proof. vm_compute. reflexivity. Qed.

(* ================================================================= *)
(** ** The hand-off on [ch] *)

Module HandoffFacts.
Import Handoff.

Lemma nth_error_update_other {A} (l : list A) i j a :
  i <> j -> nth_error (update j a l) i = nth_error l i.
Proof.
  revert i j. induction l as [|x l IH]; intros i j Hne.
  - destruct j; reflexivity.
  - destruct j, i; cbn; try reflexivity; try congruence.
    apply IH. congruence.
Qed.

(** A step taken when [Login] has left its [select] leaves [Login] where
    it is and leaves a handler at its send there. *)
Lemma step_after_select env s s' i token :
  step env s s' ->
  login s <> Selecting ->
  nth_error (handlers s) i = Some (Sending token) ->
  login s' = login s /\
  nth_error (handlers s') i = Some (Sending token).
Proof.
  intros Hstep Hl Hi. destruct Hstep as [s r Hopen|s j r sent w' Hj Hb|s j t Hsel Hj|s Hsel];
    cbn [login handlers]; try contradiction.
  - split; [reflexivity|].
    rewrite nth_error_app1; [exact Hi|].
    apply nth_error_Some. congruence.
  - split; [reflexivity|].
    rewrite nth_error_update_other; [exact Hi|].
    intros ->. congruence.
Qed.

(** What [Login] received it has received for good: the [select] does
    not run twice. *)
Lemma received_is_final env s s' token :
  steps env s s' -> login s = Received token -> login s' = Received token.
Proof.
  induction 1 as [s|s s1 s2 Hstep _ IH]; intros Hl; [exact Hl|].
  apply IH. destruct Hstep; cbn [login]; congruence.
Qed.

End HandoffFacts.

(** C9, at the late send.  Once the timer has won the [select], a handler
    that is at its send on [ch] is at its send in every state the
    goroutines can get to: nothing receives, so the send does not
    complete and the handler does not return. *)
Theorem late_send_never_completes env s s' i token :
  Handoff.login s = Handoff.TimedOut ->
  nth_error (Handoff.handlers s) i = Some (Handoff.Sending token) ->
  Handoff.steps env s s' ->
  Handoff.login s' = Handoff.TimedOut /\
  nth_error (Handoff.handlers s') i = Some (Handoff.Sending token).
Proof.
  intros Hl Hi Hsteps. induction Hsteps as [s|s s1 s2 Hstep _ IH]; [auto|].
  destruct (HandoffFacts.step_after_select env s s1 i token Hstep) as (H1 & H2);
    [congruence|exact Hi|].
  apply IH; congruence.
Qed.

Lemma late_send_never_completes_witness :
  Handoff.login lateSend = Handoff.TimedOut /\
  nth_error (Handoff.handlers lateSend) 0 = Some (Handoff.Sending lateToken).
Proof.
  apply (late_send_never_completes okEnv lateSend lateSend 0 lateToken).
  - reflexivity.
  - reflexivity.
  - apply Handoff.steps_refl.
Defined.

(** The late send is within reach: a good callback is accepted, the
    timer fires, and the handler goes through its exchange to its send. *)
Lemma late_send_reachable : Handoff.steps okEnv selecting lateSend.
Proof.
  eapply Handoff.steps_step.
  { apply (Handoff.step_accept okEnv selecting goodCallback). vm_compute. reflexivity. }
  eapply Handoff.steps_step.
  { apply Handoff.step_timer. reflexivity. }
  eapply Handoff.steps_step.
  { apply (Handoff.step_serve okEnv _ 0 goodCallback (Some lateToken)
             (snd (completeAuthHandler okEnv goodCallback selectWorld))).
    - reflexivity.
    - vm_compute. reflexivity. }
  apply Handoff.steps_refl.
Qed.

(* ================================================================= *)
(** ** More on [Login] *)

Lemma refresh_frame env old w res w1 :
  refreshToken env old w = (res, w1) ->
  listening w1 = listening w /\ muxPatterns w1 = muxPatterns w /\
  state w1 = state w.
Proof.
  rewrite refreshToken_eq. cbv zeta.
  destruct (postForm env _ _ _) as [err|status body].
  - intros H. injection H as _ <-. repeat split.
  - destruct (negb _).
    + intros H. injection H as _ <-. repeat split.
    + destruct (jsonDecode env body); intros H; injection H as _ <-; repeat split.
Qed.

(** X1.  The timeout is the only error [Login] returns; it comes with
    two empty strings, and the listener is closed by then. *)
Theorem login_only_error_is_timeout env arrivals w a b e w' :
  Login env arrivals w = (Val (a, b, Some e), w') ->
  e = timeoutError /\ a = "" /\ b = "" /\ listening w' = false.
Proof.
  assert (A : forall w1, authenticate env arrivals w1 = (Val (a, b, Some e), w') ->
                         e = timeoutError /\ a = "" /\ b = "" /\ listening w' = false).
  { intros w1 H.
    destruct (authenticate_cases env arrivals w1)
      as [(_ & w2 & Hp & _)|(_ & evs0 & got & w3 & Hs & Hn & Ha & Hv & Hl)].
    - rewrite Hp in H. discriminate.
    - rewrite Hl in H. destruct got as [token|]; [discriminate|].
      injection H as <- <- <- <-. repeat split. }
  rewrite Login_cases. destruct (cachedToken w) as [tok|]; [|apply A].
  destruct (_ <? _)%Z; [discriminate|].
  destruct (_ <? _)%Z; [apply A|].
  destruct (refreshToken env tok _) as [[[newToken|err]|msg] w1];
    [discriminate|apply A|discriminate].
Qed.

Lemma login_only_error_is_timeout_witness :
  timeoutError = timeoutError /\ "" = "" /\ "" = "" /\
  listening (snd (Login badEnv [goodCallback] initialWorld)) = false.
Proof.
  apply (login_only_error_is_timeout badEnv [goodCallback] initialWorld
           "" "" timeoutError).
  vm_compute. reflexivity.
Defined.

Lemma login_ok_pair env arrivals w a b w' :
  Login env arrivals w = (Val (a, b, None), w') ->
  exists tok,
    cachedToken w' = Some tok /\ AccessToken tok = a /\ RefreshToken tok = b.
Proof.
  assert (A : forall w1, authenticate env arrivals w1 = (Val (a, b, None), w') ->
                         exists tok, cachedToken w' = Some tok /\
                                     AccessToken tok = a /\ RefreshToken tok = b).
  { intros w1 H.
    destruct (authenticate_cases env arrivals w1)
      as [(_ & w2 & Hp & _)|(_ & evs0 & got & w3 & Hs & Hn & Ha & Hv & Hl)].
    - rewrite Hp in H. discriminate.
    - rewrite Hl in H. destruct got as [token|]; [|discriminate].
      injection H as <- <- <-. exists token. repeat split. }
  rewrite Login_cases. destruct (cachedToken w) as [tok|] eqn:Hc; [|apply A].
  destruct (_ <? _)%Z.
  { intros H. injection H as <- <- <-. exists tok. repeat split. exact Hc. }
  destruct (_ <? _)%Z; [apply A|].
  destruct (refreshToken env tok _) as [[[newToken|err]|msg] w1];
    [|apply A|discriminate].
  intros H. injection H as <- <- <-. exists newToken. repeat split.
Qed.

(** X2.  When [Login] returns without error, the pair it returns is the
    access and refresh token of the token the cache then holds. *)
Theorem login_success_is_cached env arrivals w a b w' :
  Login env arrivals w = (Val (a, b, None), w') ->
  exists tok,
    cachedToken w' = Some tok /\ AccessToken tok = a /\ RefreshToken tok = b.
Proof.
  intros H. destruct (login_ok_pair env arrivals w a b w' H) as (tok & H1 & H2 & H3).
  exists tok. split; [exact H1|]. split; [exact H2|exact H3].
Qed.

Lemma login_success_is_cached_witness :
  exists tok,
    cachedToken (snd (Login okEnv [goodCallback] initialWorld)) = Some tok /\
    AccessToken tok = "AT" /\ RefreshToken tok = "RT".
Proof.
  apply (login_success_is_cached okEnv [goodCallback] initialWorld "AT" "RT").
  vm_compute. reflexivity.
Defined.

(** X3.  No listener outlives a call of [Login]: started with the
    listener closed, [Login] ends with the listener closed, however it
    ends, a panic included. *)
Theorem login_leaves_listener_closed env arrivals w :
  listening w = false ->
  listening (snd (Login env arrivals w)) = false.
Proof.
  intros Hl.
  assert (A : forall w1, listening w1 = false ->
                         listening (snd (authenticate env arrivals w1)) = false).
  { intros w1 H1.
    destruct (authenticate_cases env arrivals w1)
      as [(Hreg & _)|(_ & evs0 & got & w3 & Hs & Hn & Ha & Hv & Hq)].
    - unfold authenticate, bind. rewrite (startListener_panics env w1 Hreg).
      exact H1.
    - rewrite Hq. destruct got; reflexivity. }
  rewrite Login_cases. destruct (cachedToken w) as [tok|]; [|apply A, Hl].
  destruct (_ <? _)%Z; [exact Hl|].
  destruct (_ <? _)%Z; [apply A, Hl|].
  destruct (refreshToken env tok _) as [[[newToken|err]|msg] w1] eqn:Hr;
    destruct (refresh_frame env tok _ _ _ Hr) as (H1 & _).
  - cbn. rewrite H1. exact Hl.
  - apply A. rewrite H1. exact Hl.
  - cbn. rewrite H1. exact Hl.
Qed.

Lemma login_leaves_listener_closed_witness :
  listening (snd (Login okEnv [deniedCallback; goodCallback] initialWorld)) = false.
Proof.
  apply (login_leaves_listener_closed okEnv [deniedCallback; goodCallback] initialWorld).
  reflexivity.
Defined.

Lemma authenticate_registers env arrivals w :
  registered (snd (authenticate env arrivals w)) = true.
Proof.
  destruct (authenticate_cases env arrivals w)
    as [(Hreg & _)|(_ & evs0 & got & w3 & Hs & Hn & Ha & Hv & Hq)].
  - unfold authenticate, bind. rewrite (startListener_panics env w Hreg).
    exact Hreg.
  - destruct Hv as (_ & _ & _ & _ & Hm & _).
    rewrite Hq. unfold registered.
    destruct got; cbn [snd muxPatterns loggedIn closed add_events set_cachedToken
                       set_listening]; rewrite Hm; reflexivity.
Qed.

Lemma interactive_frame env w w1 :
  interactive env w w1 ->
  muxPatterns w1 = muxPatterns w /\ listening w1 = listening w.
Proof.
  intros [w0 Hc|w0 tok e w2 Hc H1 H2 Hr]; [split; reflexivity|].
  destruct (refresh_frame env tok _ _ _ Hr) as (Hl & Hm & _).
  split; assumption.
Qed.

(** X4.  A process has one interactive login in it.  The interactive
    login registers the handler for the pattern [/] on the default serve
    mux; once one has been made, whatever its outcome, the next call of
    [Login] that gets to its interactive login panics on the second
    registration, before it opens a listener, and leaves the cache as it
    was. *)
Theorem second_interactive_login_panics env a1 a2 w w1 w' w1' :
  interactive env w w1 ->
  w' = snd (Login env a1 w) ->
  interactive env w' w1' ->
  exists w'',
    Login env a2 w' = (Panic registrationPanic, w'') /\
    cachedToken w'' = cachedToken w' /\
    listening w'' = listening w' /\
    count isListen
          (events_since w1' w'') = 0%nat.
Proof.
  intros Hi Hw Hi'.
  rewrite (login_interactive env a1 w w1 Hi) in Hw.
  assert (Hreg : registered w1' = true).
  { destruct (interactive_frame env w' w1' Hi') as (Hm & _).
    unfold registered. rewrite Hm, Hw. apply authenticate_registers. }
  rewrite (login_interactive env a2 w' w1' Hi').
  unfold authenticate, bind. rewrite (startListener_panics env w1' Hreg).
  eexists. split; [reflexivity|].
  destruct (interactive_frame env w' w1' Hi') as (_ & Hl).
  split; [exact (interactive_keeps_cache env w' w1' Hi')|].
  split; [exact Hl|].
  rewrite (events_since_app w1' _ [EvHandleFunc "/"]); reflexivity.
Qed.

Lemma second_interactive_login_panics_witness :
  exists w'',
    Login okEnv [goodCallback] (snd (Login okEnv [] initialWorld)) =
      (Panic registrationPanic, w'') /\
    cachedToken w'' = cachedToken (snd (Login okEnv [] initialWorld)) /\
    listening w'' = listening (snd (Login okEnv [] initialWorld)) /\
    count isListen
          (events_since (snd (Login okEnv [] initialWorld)) w'') = 0%nat.
Proof.
  apply (second_interactive_login_panics okEnv [] [goodCallback]
           initialWorld initialWorld
           (snd (Login okEnv [] initialWorld))
           (snd (Login okEnv [] initialWorld))).
  - apply interactive_no_cache. reflexivity.
  - reflexivity.
  - apply interactive_no_cache. vm_compute. reflexivity.
Defined.

(* ================================================================= *)
(** ** More on the handler and the two token calls *)

(** X5.  The handler sends a token on [ch] in exactly one case: the
    request has no [error], its state is the attempt's, it has a code,
    and the exchange of that code under the attempt's verifier is
    answered 200 with a body that decodes; the token sent is the one of
    that response, stamped at the clock reading of the handler. *)
Theorem handler_sends_iff env r w token :
  (exists w', completeAuthHandler env r w = (Val (Some token), w')) <->
  (Get "error" r = "" /\ Get "state" r = state w /\ Get "code" r <> "" /\
   exists body tr,
     postForm env (posts w) tokenURL
       (exchangeData (Get "code" r) (codeVerifier w)) = PostResponse 200 body /\
     jsonDecode env body = Ok tr /\
     token = tokenOf (resp_RefreshToken tr) tr (now env (clockReads w))).
Proof.
  rewrite completeAuthHandler_eq, exchangeCodeForToken_eq. cbv zeta.
  cbn [posts codeVerifier clockReads add_events].
  destruct (String.eqb (Get "error" r) "") eqn:He; cbn [negb].
  2:{ apply String.eqb_neq in He. split.
      - intros (w' & H). discriminate.
      - intros (H & _). contradiction. }
  destruct (String.eqb (Get "state" r) (state w)) eqn:Hs; cbn [negb].
  2:{ apply String.eqb_neq in Hs. split.
      - intros (w' & H). discriminate.
      - intros (_ & H & _). contradiction. }
  destruct (String.eqb (Get "code" r) "") eqn:Hc.
  { apply String.eqb_eq in Hc. split.
    - intros (w' & H). discriminate.
    - intros (_ & _ & H & _). contradiction. }
  apply String.eqb_eq in He, Hs. apply String.eqb_neq in Hc.
  destruct (postForm env _ _ _) as [err|status body].
  { split.
    - intros (w' & H). discriminate.
    - intros (_ & _ & _ & b & tr & H & _). discriminate. }
  destruct (Z.eqb_spec status 200) as [->|Hne]; cbn [negb].
  2:{ split.
      - intros (w' & H). discriminate.
      - intros (_ & _ & _ & b & tr & H & _). injection H as H _. contradiction. }
  destruct (jsonDecode env body) as [tr|err] eqn:Hj.
  - split.
    + intros (w' & H). injection H as <- _. repeat split; auto.
      exists body, tr. repeat split. exact Hj.
    + intros (_ & _ & _ & b & tr' & H & Hj' & ->).
      injection H as <-. rewrite Hj in Hj'. injection Hj' as <-.
      eexists. reflexivity.
  - split.
    + intros (w' & H). discriminate.
    + intros (_ & _ & _ & b & tr' & H & Hj' & _).
      injection H as <-. rewrite Hj in Hj'. discriminate.
Qed.


Lemma wrap64_small x : - 2 ^ 63 <= x < 2 ^ 63 -> wrap64 x = x.
Proof. intros H. unfold wrap64. rewrite Z.mod_small; lia. Qed.

Lemma wrap64_over x : 2 ^ 63 <= x < 2 ^ 64 -> wrap64 x = x - 2 ^ 64.
Proof.
  intros H. unfold wrap64.
  replace (x + 2 ^ 63) with ((x - 2 ^ 63) + 1 * 2 ^ 64) by lia.
  rewrite Z_mod_plus_full, Z.mod_small; lia.
Qed.

(** X7.  The expiry of an exchanged token.  For a 200 response that
    decodes, the token expires at the clock reading plus [expires_in]
    seconds as long as the lifetime is at most 9223372036 seconds in
    absolute value; from 9223372037 seconds on (up to 18446744073) the
    [int64] duration has wrapped round and the token expires before it
    was received. *)
Theorem exchange_expiry env code w body tr :
  postForm env (posts w) tokenURL
    (exchangeData code (codeVerifier w)) = PostResponse 200 body ->
  jsonDecode env body = Ok tr ->
  exists token w',
    exchangeCodeForToken env code w = (Val (Ok token), w') /\
    (-9223372036 <= resp_ExpiresIn tr <= 9223372036 ->
     Expiry token = now env (clockReads w) + resp_ExpiresIn tr * Second) /\
    (9223372037 <= resp_ExpiresIn tr <= 18446744073 ->
     Expiry token < now env (clockReads w)).
Proof.
  intros Hp Hj. rewrite exchangeCodeForToken_eq. cbv zeta.
  rewrite Hp. cbn [Z.eqb Pos.eqb negb]. rewrite Hj.
  do 2 eexists. split; [reflexivity|]. cbn [Expiry tokenOf]. unfold Second. split.
  - intros H. rewrite wrap64_small; lia.
  - intros H. rewrite wrap64_over; lia.
Qed.

Lemma exchange_expiry_witness :
  exists token w',
    exchangeCodeForToken okEnv "c0de" waitingWorld = (Val (Ok token), w') /\
    (-9223372036 <= 3600 <= 9223372036 ->
     Expiry token = now okEnv (clockReads waitingWorld) + 3600 * Second) /\
    (9223372037 <= 3600 <= 18446744073 ->
     Expiry token < now okEnv (clockReads waitingWorld)).
Proof.
  apply (exchange_expiry okEnv "c0de" waitingWorld "{}"
           (mkTokenResp "AT" "Bearer" 3600 "RT" "")); reflexivity.
Defined.

(** X8.  A token whose declared lifetime is five minutes or less is
    never served from the cache.  Such a token, from a refresh answered
    at clock reading [k], fails the check of [isTokenValid] at every
    reading that is not before it. *)
Theorem short_lived_token_never_valid env old w body tr k' w2 :
  postForm env (posts w) tokenURL (refreshData old) = PostResponse 200 body ->
  jsonDecode env body = Ok tr ->
  0 <= resp_ExpiresIn tr <= 300 ->
  clockReads w2 = k' ->
  now env (clockReads w) <= now env k' ->
  exists token w',
    refreshToken env old w = (Val (Ok token), w') /\
    isTokenValid env (Some token) w2 = (Val false, set_clockReads (S k') w2).
Proof.
  intros Hp Hj Hx <- Hmono. rewrite refreshToken_eq. cbv zeta.
  rewrite Hp. cbn [Z.eqb Pos.eqb negb]. rewrite Hj.
  do 2 eexists. split; [reflexivity|].
  rewrite isTokenValid_eq. cbn [Expiry tokenOf].
  replace (_ <? _)%Z with false; [reflexivity|].
  symmetry. apply Z.ltb_ge. unfold Minute, Second in *.
  rewrite wrap64_small; lia.
Qed.

Lemma short_lived_token_never_valid_witness :
  exists token w',
    refreshToken shortEnv (oldToken 0) initialWorld = (Val (Ok token), w') /\
    isTokenValid shortEnv (Some token) (cachedWorld 0) =
      (Val false, set_clockReads 2 (cachedWorld 0)).
Proof.
  apply (short_lived_token_never_valid shortEnv (oldToken 0) initialWorld "{}"
           (mkTokenResp "AT" "Bearer" 300 "" "") 1%nat (cachedWorld 0)).
  - reflexivity.
  - reflexivity.
  - cbn. lia.
  - reflexivity.
  - vm_compute. discriminate.
Defined.

(** X9.  Two calls in a row.  After a call of [Login] that returned a
    pair, a second call made while the cached token still has more than
    five minutes to live returns the same pair; it reads the clock and
    does nothing else. *)
Theorem login_twice env a1 a2 w a b w' tok :
  Login env a1 w = (Val (a, b, None), w') ->
  cachedToken w' = Some tok ->
  now env (clockReads w') + 5 * Minute < Expiry tok ->
  Login env a2 w' = (Val (a, b, None), set_clockReads (S (clockReads w')) w').
Proof.
  intros H1 Hc Hfresh.
  destruct (login_ok_pair env a1 w a b w' H1) as (tok' & Hc' & <- & <-).
  rewrite Hc in Hc'. injection Hc' as <-.
  rewrite Login_cases, Hc. apply Z.ltb_lt in Hfresh. now rewrite Hfresh.
Qed.

Lemma login_twice_witness :
  Login okEnv [] (snd (Login okEnv [goodCallback] initialWorld)) =
    (Val ("AT", "RT", None),
     set_clockReads 2 (snd (Login okEnv [goodCallback] initialWorld))).
Proof.
  apply (login_twice okEnv [goodCallback] [] initialWorld "AT" "RT"
           (snd (Login okEnv [goodCallback] initialWorld))
           (tokenOf "RT" (mkTokenResp "AT" "Bearer" 3600 "RT" "") (1000 * Second))).
  - vm_compute. reflexivity.
  - vm_compute. reflexivity.
  - vm_compute. reflexivity.
Defined.

Lemma handler_posts env r w :
  exists sent w' evs,
    completeAuthHandler env r w = (Val sent, w') /\
    trace w' = (trace w ++ evs)%list /\
    codeVerifier w' = codeVerifier w /\
    codeChallenge w' = codeChallenge w /\
    Forall (exchangePostOf [r] (codeVerifier w)) evs.
Proof.
  assert (P : forall l, noPost l -> Forall (exchangePostOf [r] (codeVerifier w)) l).
  { intros l Hl. unfold noPost, count in Hl. apply length_zero_iff_nil in Hl.
    induction l as [|e l IH]; [constructor|].
    destruct e; cbn in Hl; try discriminate; constructor; cbn; auto. }
  rewrite completeAuthHandler_eq.
  destruct (negb (String.eqb (Get "error" r) "")).
  { do 3 eexists. split; [reflexivity|]. repeat split. now apply P. }
  destruct (negb (String.eqb (Get "state" r) (state w))).
  { do 3 eexists. split; [reflexivity|]. repeat split. now apply P. }
  destruct (String.eqb (Get "code" r) "").
  { do 3 eexists. split; [reflexivity|]. repeat split. now apply P. }
  rewrite exchangeCodeForToken_eq. cbv zeta.
  cbn [posts codeVerifier clockReads add_events].
  assert (Q : forall tail, noPost tail ->
            Forall (exchangePostOf [r] (codeVerifier w))
              ([EvQueryGet "error"; EvQueryGet "state"; EvQueryGet "code"] ++
               [EvPostForm tokenURL (exchangeData (Get "code" r) (codeVerifier w))] ++
               tail)).
  { intros tail Ht. repeat constructor.
    - exists r. split; [left; reflexivity|reflexivity].
    - now apply P. }
  destruct (postForm env _ _ _) as [err|status body].
  { do 3 eexists. split; [reflexivity|]. split; [|split; [reflexivity|split; [reflexivity|]]].
    - cbn [trace add_events posted set_posts]. rewrite <- !app_assoc. reflexivity.
    - apply Q. reflexivity. }
  destruct (negb _).
  { do 3 eexists. split; [reflexivity|]. split; [|split; [reflexivity|split; [reflexivity|]]].
    - cbn [trace add_events posted set_posts]. rewrite <- !app_assoc. reflexivity.
    - apply Q. reflexivity. }
  destruct (jsonDecode env body).
  - do 3 eexists. split; [reflexivity|]. split; [|split; [reflexivity|split; [reflexivity|]]].
    + cbn [trace add_events posted set_posts set_clockReads].
      rewrite <- !app_assoc. reflexivity.
    + apply Q. reflexivity.
  - do 3 eexists. split; [reflexivity|]. split; [|split; [reflexivity|split; [reflexivity|]]].
    + cbn [trace add_events posted set_posts]. rewrite <- !app_assoc. reflexivity.
    + apply Q. reflexivity.
Qed.

Lemma exchangePostOf_incl l1 l2 ver e :
  incl l1 l2 -> exchangePostOf l1 ver e -> exchangePostOf l2 ver e.
Proof.
  intros Hi. destruct e; cbn; auto.
  intros (Hu & r & Hr & Hd). split; [exact Hu|]. exists r. split; [apply Hi, Hr|exact Hd].
Qed.

Lemma awaitToken_posts env arrivals :
  forall w, exists got w' evs,
    awaitToken env arrivals w = (Val got, w') /\
    trace w' = (trace w ++ evs)%list /\
    codeVerifier w' = codeVerifier w /\
    codeChallenge w' = codeChallenge w /\
    Forall (exchangePostOf arrivals (codeVerifier w)) evs.
Proof.
  induction arrivals as [|r rest IH]; intros w.
  - exists None, w, []. cbn. rewrite app_nil_r. repeat split. constructor.
  - destruct (handler_posts env r w) as (sent & w1 & evs1 & Hh & Ht1 & Hv1 & Hc1 & Hp1).
    cbn [awaitToken]. unfold bind. rewrite Hh.
    assert (Hp1' : Forall (exchangePostOf (r :: rest) (codeVerifier w)) evs1).
    { eapply Forall_impl; [|exact Hp1]. intros e.
      apply exchangePostOf_incl. intros x [<-|[]]. left. reflexivity. }
    destruct sent as [token|].
    + exists (Some token), w1, evs1. repeat split; assumption.
    + destruct (IH w1) as (got & w2 & evs2 & Ha & Ht2 & Hv2 & Hc2 & Hp2).
      exists got, w2, (evs1 ++ evs2)%list. split; [exact Ha|].
      split; [rewrite Ht2, Ht1; now rewrite app_assoc|].
      split; [congruence|]. split; [congruence|].
      apply Forall_app. split; [exact Hp1'|].
      rewrite Hv1 in Hp2. eapply Forall_impl; [|exact Hp2]. intros e.
      apply exchangePostOf_incl. intros x Hx. right. exact Hx.
Qed.

(** X10.  The PKCE binding.  In an interactive login that starts its
    listener, the verifier and the challenge are those of the attempt
    from then on, the challenge being the challenge of the verifier; and
    every post the login makes is an exchange: to the token endpoint,
    with the code of one of the callbacks and with that verifier. *)
Theorem exchanges_carry_the_verifier env arrivals w w1 :
  interactive env w w1 ->
  registered w1 = false ->
  let w' := snd (Login env arrivals w) in
  codeVerifier w' = attemptVerifier env w1 /\
  codeChallenge w' = generateCodeChallenge (codeVerifier w') /\
  Forall (exchangePostOf arrivals (codeVerifier w')) (events_since w1 w').
Proof.
  intros Hi Hreg w'. subst w'.
  rewrite (login_interactive env arrivals w w1 Hi).
  destruct (authenticate_cases env arrivals w1)
    as [(Hr & _)|(_ & evs0 & got & w3 & Hs & Hn0 & Ha & _ & Hq)]; [congruence|].
  destruct (awaitToken_posts env arrivals (add_events evs0 (started env w1)))
    as (got' & w3' & evs & Ha' & Ht & Hv & Hc & Hp).
  rewrite Ha in Ha'. injection Ha' as <- <-.
  cbn [trace codeVerifier codeChallenge add_events started] in Ht, Hv, Hc, Hp.
  assert (P : forall l, noPost l ->
                        Forall (exchangePostOf arrivals (attemptVerifier env w1)) l).
  { intros l Hl. unfold noPost, count in Hl. apply length_zero_iff_nil in Hl.
    induction l as [|e l IH]; [constructor|].
    destruct e; cbn in Hl; try discriminate; constructor; cbn; auto. }
  rewrite Hq.
  destruct got as [token|];
    cbn [snd codeVerifier codeChallenge add_events set_listening set_cachedToken
         loggedIn closed];
    rewrite Hv, Hc; (split; [reflexivity|]); (split; [reflexivity|]).
  - rewrite (events_since_app w1 _
               (evs0 ++ evs ++ [EvShutdown; EvPrintln "✓ Authentication successful!"])).
    + apply Forall_app. split; [now apply P|].
      apply Forall_app. split; [exact Hp|now apply P].
    + cbn [trace add_events set_listening set_cachedToken loggedIn closed]. rewrite Ht.
      now rewrite <- !app_assoc.
  - rewrite (events_since_app w1 _ (evs0 ++ evs ++ [EvShutdown])).
    + apply Forall_app. split; [now apply P|].
      apply Forall_app. split; [exact Hp|now apply P].
    + cbn [trace add_events set_listening closed]. rewrite Ht.
      now rewrite <- !app_assoc.
Qed.

Lemma exchanges_carry_the_verifier_witness :
  let w' := snd (Login badEnv [goodCallback; goodCallback] initialWorld) in
  codeVerifier w' = attemptVerifier badEnv initialWorld /\
  codeChallenge w' = generateCodeChallenge (codeVerifier w') /\
  Forall (exchangePostOf [goodCallback; goodCallback] (codeVerifier w'))
         (events_since initialWorld w').
Proof.
  apply (exchanges_carry_the_verifier badEnv [goodCallback; goodCallback]
           initialWorld initialWorld).
  - apply interactive_no_cache. reflexivity.
  - reflexivity.
Defined.

(* ================================================================= *)
(** ** The browser *)

Ltac same_fields H :=
  match type of H with
  | forget ?w1 = forget ?w2 =>
      destruct w1, w2; unfold forget in H;
      cbn [state codeVerifier codeChallenge cachedToken muxPatterns listening
           randReads clockReads posts trace] in H;
      injection H as -> -> -> -> -> -> -> -> ->
  end.

Lemma forget_add_events evs w : forget (add_events evs w) = forget w.
Proof. reflexivity. Qed.

Lemma exchange_forget env code w1 w2 :
  forget w1 = forget w2 ->
  fst (exchangeCodeForToken env code w1) = fst (exchangeCodeForToken env code w2) /\
  forget (snd (exchangeCodeForToken env code w1)) =
  forget (snd (exchangeCodeForToken env code w2)).
Proof.
  intros H. same_fields H. rewrite !exchangeCodeForToken_eq. cbv zeta.
  cbn [posts codeVerifier clockReads].
  destruct (postForm env _ _ _) as [err|status body]; [split; reflexivity|].
  destruct (negb _); [split; reflexivity|].
  destruct (jsonDecode env body); split; reflexivity.
Qed.

Lemma handler_forget env r w1 w2 :
  forget w1 = forget w2 ->
  fst (completeAuthHandler env r w1) = fst (completeAuthHandler env r w2) /\
  forget (snd (completeAuthHandler env r w1)) =
  forget (snd (completeAuthHandler env r w2)).
Proof.
  intros H. rewrite !completeAuthHandler_eq.
  assert (Hs : state w1 = state w2) by (same_fields H; reflexivity).
  rewrite Hs.
  destruct (negb (String.eqb (Get "error" r) "")); [split; [reflexivity|exact H]|].
  destruct (negb (String.eqb (Get "state" r) (state w2))); [split; [reflexivity|exact H]|].
  destruct (String.eqb (Get "code" r) ""); [split; [reflexivity|exact H]|].
  destruct (exchange_forget env (Get "code" r)
              (add_events [EvQueryGet "error"; EvQueryGet "state"; EvQueryGet "code"] w1)
              (add_events [EvQueryGet "error"; EvQueryGet "state"; EvQueryGet "code"] w2))
    as (Hf & Hw); [rewrite !forget_add_events; exact H|].
  destruct (exchangeCodeForToken env _ (add_events _ w1)) as [r1 x1].
  destruct (exchangeCodeForToken env _ (add_events _ w2)) as [r2 x2].
  cbn [fst snd] in Hf, Hw. subst r2.
  destruct r1 as [[tok|e]|msg]; split; try reflexivity;
    cbn [snd]; rewrite ?forget_add_events; exact Hw.
Qed.

Lemma awaitToken_forget env arrivals :
  forall w1 w2,
    forget w1 = forget w2 ->
    fst (awaitToken env arrivals w1) = fst (awaitToken env arrivals w2) /\
    forget (snd (awaitToken env arrivals w1)) =
    forget (snd (awaitToken env arrivals w2)).
Proof.
  induction arrivals as [|r rest IH]; intros w1 w2 H.
  - split; [reflexivity|exact H].
  - cbn [awaitToken]. unfold bind.
    destruct (handler_forget env r w1 w2 H) as (Hf & Hw).
    destruct (completeAuthHandler env r w1) as [r1 x1].
    destruct (completeAuthHandler env r w2) as [r2 x2].
    cbn [fst snd] in Hf, Hw. subst r2.
    destruct r1 as [[tok|]|msg]; try (split; [reflexivity|exact Hw]).
    apply IH. exact Hw.
Qed.

Lemma exchange_same_service env env' code w :
  sameService env env' ->
  exchangeCodeForToken env code w = exchangeCodeForToken env' code w.
Proof.
  intros (_ & Hn & Hp & Hj). rewrite !exchangeCodeForToken_eq.
  now rewrite Hn, Hp, Hj.
Qed.

Lemma refresh_same_service env env' old w :
  sameService env env' ->
  refreshToken env old w = refreshToken env' old w.
Proof.
  intros (_ & Hn & Hp & Hj). rewrite !refreshToken_eq.
  now rewrite Hn, Hp, Hj.
Qed.

Lemma awaitToken_same_service env env' arrivals :
  sameService env env' ->
  forall w, awaitToken env arrivals w = awaitToken env' arrivals w.
Proof.
  intros Hs. induction arrivals as [|r rest IH]; intros w; [reflexivity|].
  cbn [awaitToken]. unfold bind.
  rewrite !completeAuthHandler_eq, (exchange_same_service env env' _ _ Hs).
  destruct (negb (String.eqb (Get "error" r) "")); [apply IH|].
  destruct (negb (String.eqb (Get "state" r) (state w))); [apply IH|].
  destruct (String.eqb (Get "code" r) ""); [apply IH|].
  destruct (exchangeCodeForToken env' _ _) as [[[tok|e]|msg] x]; try reflexivity.
  apply IH.
Qed.

Lemma started_same_service env env' w :
  sameService env env' -> started env w = started env' w.
Proof.
  intros (Hr & _). unfold started, attemptState, attemptVerifier, randBytes.
  now rewrite Hr.
Qed.

Lemma authenticate_same_service env env' arrivals w :
  sameService env env' ->
  fst (authenticate env arrivals w) = fst (authenticate env' arrivals w) /\
  forget (snd (authenticate env arrivals w)) =
  forget (snd (authenticate env' arrivals w)).
Proof.
  intros Hs. destruct (registered w) eqn:Hreg.
  - unfold authenticate, bind.
    rewrite (startListener_panics env w Hreg), (startListener_panics env' w Hreg).
    cbn [fst snd]. split; [reflexivity|].
    destruct Hs as (Hr & _). unfold attemptState, attemptVerifier, randBytes.
    now rewrite Hr.
  - destruct (startListener_ok env w Hreg) as (evs0 & H0 & _).
    destruct (startListener_ok env' w Hreg) as (evs0' & H0' & _).
    unfold authenticate, bind. rewrite H0, H0'.
    rewrite <- (started_same_service env env' w Hs).
    rewrite <- (awaitToken_same_service env env' arrivals Hs).
    destruct (awaitToken_forget env arrivals
                (add_events evs0 (started env w)) (add_events evs0' (started env w)))
      as (Hf & Hw); [reflexivity|].
    destruct (awaitToken env arrivals (add_events evs0 _)) as [r1 x1].
    destruct (awaitToken env arrivals (add_events evs0' _)) as [r2 x2].
    cbn [fst snd] in Hf, Hw. subst r2.
    destruct r1 as [[token|]|msg]; cbn; split; try reflexivity;
      try exact Hw; same_fields Hw; reflexivity.
Qed.

(** X11.  A browser that does not open is no failure.  Whatever the
    operating system and whatever the launch of the browser gives,
    [Login] returns the same and leaves the same world behind, the trace
    apart: between two environments that differ in nothing else, the
    outcome of [Login] and everything it holds and has read are the
    same. *)
Theorem browser_failure_is_not_fatal env env' arrivals w :
  sameService env env' ->
  fst (Login env arrivals w) = fst (Login env' arrivals w) /\
  forget (snd (Login env arrivals w)) = forget (snd (Login env' arrivals w)).
Proof.
  intros Hs. rewrite !Login_cases.
  assert (Hn : now env = now env') by apply Hs. rewrite <- Hn.
  destruct (cachedToken w) as [tok|]; [|now apply authenticate_same_service].
  destruct (_ <? _)%Z; [split; reflexivity|].
  destruct (_ <? _)%Z; [now apply authenticate_same_service|].
  rewrite <- (refresh_same_service env env' _ _ Hs).
  destruct (refreshToken env tok _) as [[[newToken|e]|msg] w1];
    [split; reflexivity|now apply authenticate_same_service|split; reflexivity].
Qed.

Lemma browser_failure_is_not_fatal_witness :
  fst (Login okEnv [goodCallback] initialWorld) =
  fst (Login noBrowserEnv [goodCallback] initialWorld) /\
  forget (snd (Login okEnv [goodCallback] initialWorld)) =
  forget (snd (Login noBrowserEnv [goodCallback] initialWorld)).
Proof.
  apply (browser_failure_is_not_fatal okEnv noBrowserEnv [goodCallback] initialWorld).
  repeat split.
Defined.

(* ================================================================= *)
(** ** The API client *)

Local Arguments itoa : simpl never.

Lemma QueryEscape_uint u :
  URL.QueryEscape (NilEmpty.string_of_uint u) = NilEmpty.string_of_uint u.
Proof. induction u; cbn; rewrite ?IHu; reflexivity. Qed.

Lemma QueryEscape_itoa n : URL.QueryEscape (itoa n) = itoa n.
Proof.
  unfold itoa, NilZero.string_of_int, NilZero.string_of_uint.
  destruct (Z.to_int n) as [u|u].
  - destruct u; try reflexivity; apply QueryEscape_uint.
  - destruct u; try reflexivity;
      change (URL.QueryEscape (String "-" ?s)) with (String "-" (URL.QueryEscape s));
      cbn [URL.QueryEscape]; rewrite ?QueryEscape_uint; reflexivity.
Qed.

Lemma makeRequest_page api c endpoint limit offset sent :
  Client.makeRequest api c "GET" endpoint
    (Some (Set_ "offset" (itoa offset) (Set_ "limit" (itoa limit) []))) sent =
  match requestError (Client.apiDo api (List.length sent)
                        (pageRequest c endpoint limit offset)) with
  | Some err => (Err err, sent ++ [pageRequest c endpoint limit offset])%list
  | None =>
      match Client.apiDo api (List.length sent) (pageRequest c endpoint limit offset) with
      | Client.DoResponse _ body =>
          (Ok body, sent ++ [pageRequest c endpoint limit offset])%list
      | Client.DoFailed err =>
          (Err err, sent ++ [pageRequest c endpoint limit offset])%list
      end
  end.
Proof.
  unfold Client.makeRequest.
  assert (E : URL.Encode (Set_ "offset" (itoa offset) (Set_ "limit" (itoa limit) [])) =
              "limit=" ++ itoa limit ++ "&offset=" ++ itoa offset).
  { cbn [Set_ String.eqb Ascii.eqb Bool.eqb]. unfold URL.Encode. cbn.
    rewrite !QueryEscape_itoa. cbn [append]. reflexivity. }
  assert (R : Client.mkRequest "GET"
                ((Client.apiBaseURL ++ endpoint) ++ "?" ++
                 URL.Encode (Set_ "offset" (itoa offset) (Set_ "limit" (itoa limit) [])))
                (Set_ "Content-Type" "application/json"
                   (Set_ "Authorization" ("Bearer " ++ Client.accessToken c) [])) =
              pageRequest c endpoint limit offset).
  { rewrite E. reflexivity. }
  rewrite R. unfold requestError.
  destruct (Client.apiDo api _ _) as [err|status body]; [reflexivity|].
  destruct (status =? 200)%Z; reflexivity.
Qed.

Section PagedFacts.

Variable api : Client.Api.
Variables A B : Type.
Variable endpoint : string.
Variable limit : Z.
Variable unmarshal : string -> result (Client.Page B).
Variable unwrap : B -> A.
Variables getError parseError : string.
Variable c : Client.Client.

Local Abbreviation fetch :=
  (Client.fetchPages api A B endpoint limit unmarshal unwrap getError parseError).
Local Abbreviation request := (pageRequest c endpoint limit).

(** One turn of the loop. *)
Lemma fetch_step fuel offset all sent :
  fetch (S fuel) c offset all sent =
  match Client.apiDo api (List.length sent) (request offset) with
  | Client.DoFailed err =>
      (Some (Err (getError ++ ": " ++ err)), sent ++ [request offset])%list
  | Client.DoResponse status body =>
      if (status =? 200)%Z then
        match unmarshal body with
        | Err err =>
            (Some (Err (parseError ++ ": " ++ err)), sent ++ [request offset])%list
        | Ok response =>
            match Client.Next response with
            | None =>
                (Some (Ok (all ++ map unwrap (Client.Items response))%list),
                 sent ++ [request offset])%list
            | Some _ =>
                if (Z.of_nat (List.length (Client.Items response)) <? limit)%Z then
                  (Some (Ok (all ++ map unwrap (Client.Items response))%list),
                   sent ++ [request offset])%list
                else
                  fetch fuel c (wrap64 (offset + limit))
                        (all ++ map unwrap (Client.Items response))%list
                        (sent ++ [request offset])%list
            end
        end
      else
        (Some (Err (getError ++ ": " ++
                    "API request failed (status " ++ itoa status ++ "): " ++ body)),
         sent ++ [request offset])%list
  end.
Proof.
  cbn [Client.fetchPages]. rewrite makeRequest_page. unfold requestError.
  destruct (Client.apiDo api _ _) as [err|status body]; [reflexivity|].
  destruct (status =? 200)%Z; reflexivity.
Qed.

Lemma pageRequests_S m :
  pageRequests c endpoint limit (S m) =
  (pageRequests c endpoint limit m ++ [request (limit * Z.of_nat m)])%list.
Proof. unfold pageRequests. rewrite seq_S, map_app. reflexivity. Qed.

Lemma collected_S (page : nat -> Client.Page B) m :
  collected unwrap page (S m) =
  (collected unwrap page m ++ map unwrap (Client.Items (page m)))%list.
Proof.
  unfold collected. rewrite seq_S, flat_map_app. cbn. now rewrite app_nil_r.
Qed.

(** Over [m] pages after which the loop goes on, it goes on. *)
Lemma fetch_continues (page : nat -> Client.Page B) sent :
  0 < limit ->
  forall m fuel,
    limit * Z.of_nat m < 2 ^ 63 ->
    (forall j, (j < m)%nat ->
       servedPage api unmarshal (List.length sent + j)
         (request (limit * Z.of_nat j)) (page j) /\
       continuing limit (page j)) ->
    fetch (m + fuel) c 0 [] sent =
    fetch fuel c (limit * Z.of_nat m) (collected unwrap page m)
          (sent ++ pageRequests c endpoint limit m)%list.
Proof.
  intros Hpos. induction m as [|m IH]; intros fuel Hb Hpages.
  - cbn. rewrite Z.mul_0_r, app_nil_r. reflexivity.
  - replace (S m + fuel)%nat with (m + S fuel)%nat by lia.
    rewrite IH; [|lia|intros j Hj; apply Hpages; lia].
    rewrite fetch_step.
    destruct (Hpages m (Nat.lt_succ_diag_r m)) as ((body & Hdo & Hun) & Hnext & Hfull).
    assert (Hlen : List.length (sent ++ pageRequests c endpoint limit m) =
                   (List.length sent + m)%nat).
    { unfold pageRequests. now rewrite length_app, length_map, length_seq. }
    rewrite Hlen, Hdo. cbn [Z.eqb Pos.eqb]. rewrite Hun.
    destruct (Client.Next (page m)) as [nx|]; [|contradiction].
    replace (_ <? _)%Z with false by (symmetry; apply Z.ltb_ge; exact Hfull).
    rewrite wrap64_small by lia.
    rewrite pageRequests_S, collected_S, app_assoc.
    replace (limit * Z.of_nat m + limit) with (limit * Z.of_nat (S m)) by lia.
    reflexivity.
Qed.

(** X12.  What a paged call returns.  When the API serves pages after
    each of which the loop goes on (a next link and a full page) and then
    a page at which it stops (no next link, or a short page, whatever its
    next link), the call returns the items of all these pages, in order,
    having asked for them at the offsets 0, [limit], twice [limit], ...,
    one request a page. *)
Theorem fetch_collects (page : nat -> Client.Page B) sent m fuel :
  0 < limit ->
  limit * Z.of_nat m < 2 ^ 63 ->
  (m < fuel)%nat ->
  (forall j, (j < m)%nat ->
     servedPage api unmarshal (List.length sent + j)
       (request (limit * Z.of_nat j)) (page j) /\
     continuing limit (page j)) ->
  servedPage api unmarshal (List.length sent + m)
    (request (limit * Z.of_nat m)) (page m) ->
  final limit (page m) ->
  fetch fuel c 0 [] sent =
  (Some (Ok (collected unwrap page (S m))),
   sent ++ pageRequests c endpoint limit (S m))%list.
Proof.
  intros Hpos Hb Hfuel Hpages (body & Hdo & Hun) Hfin.
  replace fuel with (m + S (fuel - S m))%nat by lia.
  rewrite (fetch_continues page sent Hpos m _ Hb Hpages), fetch_step.
  assert (Hlen : List.length (sent ++ pageRequests c endpoint limit m) =
                 (List.length sent + m)%nat).
  { unfold pageRequests. now rewrite length_app, length_map, length_seq. }
  rewrite Hlen, Hdo. cbn [Z.eqb Pos.eqb]. rewrite Hun.
  rewrite pageRequests_S, collected_S, app_assoc.
  destruct (Client.Next (page m)) as [nx|] eqn:Hn; [|reflexivity].
  destruct Hfin as [Hfin|Hfin]; [congruence|].
  apply Z.ltb_lt in Hfin. now rewrite Hfin.
Qed.

(** X13.  A failure at any page fails the whole call.  After any number
    of pages fetched, a request that fails, or is answered with another
    status than 200, or a body that does not decode, makes the call
    return the error, wrapped, and none of the items fetched so far. *)
Theorem fetch_fails (page : nat -> Client.Page B) sent m fuel e msg :
  0 < limit ->
  limit * Z.of_nat m < 2 ^ 63 ->
  (m < fuel)%nat ->
  (forall j, (j < m)%nat ->
     servedPage api unmarshal (List.length sent + j)
       (request (limit * Z.of_nat j)) (page j) /\
     continuing limit (page j)) ->
  (requestError (Client.apiDo api (List.length sent + m)
                   (request (limit * Z.of_nat m))) = Some e /\
   msg = getError ++ ": " ++ e) \/
  (exists body,
     Client.apiDo api (List.length sent + m) (request (limit * Z.of_nat m)) =
       Client.DoResponse 200 body /\
     unmarshal body = Err e /\
     msg = parseError ++ ": " ++ e) ->
  fetch fuel c 0 [] sent =
  (Some (Err msg), sent ++ pageRequests c endpoint limit (S m))%list.
Proof.
  intros Hpos Hb Hfuel Hpages Hfail.
  replace fuel with (m + S (fuel - S m))%nat by lia.
  rewrite (fetch_continues page sent Hpos m _ Hb Hpages), fetch_step.
  assert (Hlen : List.length (sent ++ pageRequests c endpoint limit m) =
                 (List.length sent + m)%nat).
  { unfold pageRequests. now rewrite length_app, length_map, length_seq. }
  rewrite Hlen, pageRequests_S, app_assoc.
  destruct Hfail as [(He & ->)|(body & Hdo & Hun & ->)].
  - unfold requestError in He.
    destruct (Client.apiDo api _ _) as [err|status body].
    + injection He as <-. reflexivity.
    + destruct (status =? 200)%Z; [discriminate|]. injection He as <-. reflexivity.
  - rewrite Hdo. cbn [Z.eqb Pos.eqb]. now rewrite Hun.
Qed.

(** X14.  Nothing bounds the number of pages.  Against an API that
    answers every request with a full page and a next link, the loop
    never ends: whatever the fuel, it is used up, one request a turn. *)
Theorem fetch_never_ends :
  (forall k req, exists p,
     servedPage api unmarshal k req p /\ continuing limit p) ->
  forall fuel offset all sent,
    fst (fetch fuel c offset all sent) = None /\
    List.length (snd (fetch fuel c offset all sent)) = (List.length sent + fuel)%nat.
Proof.
  intros Hall. induction fuel as [|fuel IH]; intros offset all sent.
  - cbn. split; [reflexivity|lia].
  - rewrite fetch_step.
    destruct (Hall (List.length sent) (request offset))
      as (p & (body & Hdo & Hun) & Hnext & Hfull).
    rewrite Hdo. cbn [Z.eqb Pos.eqb]. rewrite Hun.
    destruct (Client.Next p) as [nx|]; [|contradiction].
    replace (_ <? _)%Z with false by (symmetry; apply Z.ltb_ge; exact Hfull).
    destruct (IH (wrap64 (offset + limit)) (all ++ map unwrap (Client.Items p))%list
                 (sent ++ [request offset])%list) as (H1 & H2).
    split; [exact H1|]. rewrite H2, length_app. cbn. lia.
Qed.

End PagedFacts.

Lemma firstn_skipn_add {X} (a b : nat) (l : list X) :
  (firstn a l ++ firstn b (skipn a l))%list = firstn (a + b) l.
Proof.
  revert l. induction a as [|a IH]; intros l; [reflexivity|].
  destruct l as [|x l]; cbn; [now rewrite firstn_nil|]. now rewrite IH.
Qed.

Section PagedWhole.

Variable api : Client.Api.
Variables A B : Type.
Variable endpoint : string.
Variable limit : Z.
Variable unmarshal : string -> result (Client.Page B).
Variable unwrap : B -> A.
Variables getError parseError : string.
Variable c : Client.Client.
Variable items : list B.
Variable sent : Client.Sent.

Local Abbreviation fetch :=
  (Client.fetchPages api A B endpoint limit unmarshal unwrap getError parseError).
Local Abbreviation request := (pageRequest c endpoint limit).
Local Abbreviation L := (Z.to_nat limit).
Local Abbreviation n := (List.length items).

Hypothesis limit_pos : 0 < limit.
Hypothesis no_overflow : Z.of_nat n + limit < 2 ^ 63.

(** The API holds [items] and serves them [limit] a page, with a next
    link on every page that is not the last. *)
Hypothesis served :
  forall j, (L * j <= n)%nat ->
    exists total next,
      servedPage api unmarshal (List.length sent + j) (request (limit * Z.of_nat j))
        (Client.mkPage (firstn L (skipn (L * j) items)) total next) /\
      ((L * (j + 1) < n)%nat -> next <> None).

Lemma fetch_whole_from fuel :
  forall j sentj,
    List.length sentj = (List.length sent + j)%nat ->
    (L * j <= n)%nat ->
    (n < L * (j + fuel))%nat ->
    exists m,
      fetch fuel c (limit * Z.of_nat j) (map unwrap (firstn (L * j) items)) sentj =
      (Some (Ok (map unwrap items)),
       sentj ++ map (fun i => request (limit * Z.of_nat i)) (seq j m))%list /\
      (1 <= m)%nat /\ (L * (j + m - 1) <= n)%nat.
Proof.
  induction fuel as [|fuel IH]; intros j sentj Hlen Hj Hfuel; [lia|].
  destruct (served j Hj) as (total & next & (body & Hdo & Hun) & Hnext).
  rewrite fetch_step, Hlen, Hdo. cbn [Z.eqb Pos.eqb]. rewrite Hun.
  cbn [Client.Items Client.Next].
  rewrite <- map_app, firstn_skipn_add.
  assert (Hlast : (n <= L * j + L)%nat ->
                  map unwrap (firstn (L * j + L) items) = map unwrap items).
  { intros H. now rewrite firstn_all2. }
  assert (Hpl : List.length (firstn L (skipn (L * j) items)) = Nat.min L (n - L * j)).
  { now rewrite length_firstn, length_skipn. }
  destruct next as [nx|].
  - destruct (Z.ltb_spec (Z.of_nat (List.length (firstn L (skipn (L * j) items)))) limit)
      as [Hshort|Hfull].
    + exists 1%nat. rewrite Hlast by lia. cbn [seq map].
      split; [reflexivity|]. split; [lia|].
      replace (j + 1 - 1)%nat with j by lia. exact Hj.
    + assert (Hnext' : (L * (j + 1) <= n)%nat) by lia.
      rewrite wrap64_small by lia.
      replace (limit * Z.of_nat j + limit) with (limit * Z.of_nat (j + 1)) by lia.
      replace (L * j + L)%nat with (L * (j + 1))%nat by lia.
      destruct (IH (j + 1)%nat (sentj ++ [request (limit * Z.of_nat j)])%list)
        as (m & Hm & Hm1 & Hm2); [rewrite length_app; cbn; lia|exact Hnext'|lia|].
      exists (S m). rewrite Hm. cbn [seq map]. rewrite <- app_assoc. cbn [app].
      replace (seq (j + 1) m) with (seq (S j) m) by (f_equal; lia).
      split; [reflexivity|]. split; [lia|].
      replace (j + S m - 1)%nat with (j + 1 + m - 1)%nat by lia. exact Hm2.
  - assert (Hn : ~ (L * (j + 1) < n)%nat).
    { intros H. now apply (Hnext H). }
    exists 1%nat. rewrite Hlast by lia. cbn [seq map].
    split; [reflexivity|]. split; [lia|].
    replace (j + 1 - 1)%nat with j by lia. exact Hj.
Qed.

End PagedWhole.

(** X15.  The whole collection.  Against an API that holds a finite list
    and serves it [limit] items a page, with a next link on every page
    but the last, a paged call returns the whole list, in order, asking
    for the offsets 0, [limit], twice [limit], ... in turn, in no more
    requests than the pages the list fills, plus one. *)
Theorem fetch_whole_collection api A B endpoint limit
    (unmarshal : string -> result (Client.Page B)) (unwrap : B -> A)
    getError parseError c (items : list B) sent fuel :
  0 < limit ->
  Z.of_nat (List.length items) + limit < 2 ^ 63 ->
  (forall j, (Z.to_nat limit * j <= List.length items)%nat ->
     exists total next,
       servedPage api unmarshal (List.length sent + j)
         (pageRequest c endpoint limit (limit * Z.of_nat j))
         (Client.mkPage (firstn (Z.to_nat limit) (skipn (Z.to_nat limit * j) items))
                        total next) /\
       ((Z.to_nat limit * (j + 1) < List.length items)%nat -> next <> None)) ->
  (List.length items < Z.to_nat limit * fuel)%nat ->
  exists m,
    Client.fetchPages api A B endpoint limit unmarshal unwrap getError parseError
      fuel c 0 [] sent =
    (Some (Ok (map unwrap items)), sent ++ pageRequests c endpoint limit m)%list /\
    (1 <= m)%nat /\ (Z.to_nat limit * (m - 1) <= List.length items)%nat.
Proof.
  intros Hpos Hover Hserved Hfuel.
  destruct (fetch_whole_from api A B endpoint limit unmarshal unwrap getError
              parseError c items sent Hpos Hover Hserved fuel 0%nat sent)
    as (m & Hm & H1 & H2); [lia|lia|exact Hfuel|].
  exists m. rewrite Z.mul_0_r, Nat.mul_0_r in Hm. cbn [firstn map] in Hm.
  split; [exact Hm|]. split; [exact H1|exact H2].
Qed.

Lemma fetch_collects_witness :
  Client.GetAllPlaylists sampleApi 3 sampleClient [] =
  (Some (Ok (collected (fun p => p) samplePage 3)),
   [] ++ pageRequests sampleClient "/me/playlists" 50 3)%list.
Proof.
  apply (fetch_collects sampleApi _ _ "/me/playlists" 50
           (Client.unmarshalPlaylists sampleApi) (fun p => p)
           "failed to get playlists" "failed to parse playlists" sampleClient
           samplePage [] 2 3).
  - lia.
  - reflexivity.
  - lia.
  - intros j Hj. destruct j as [|[|j]]; [| |lia].
    + split; [eexists; split; reflexivity|split; [discriminate|cbn; lia]].
    + split; [eexists; split; reflexivity|split; [discriminate|cbn; lia]].
  - eexists. split; reflexivity.
  - left. reflexivity.
Defined.

Lemma fetch_fails_witness :
  Client.GetLikedSongs downApi 1 sampleClient [] =
  (Some (Err ("failed to get liked songs" ++ ": " ++ unavailable)),
   [] ++ pageRequests sampleClient "/me/tracks" 50 1)%list.
Proof.
  apply (fetch_fails downApi _ _ "/me/tracks" 50
           (Client.unmarshalSavedTracks downApi) (fun t => t)
           "failed to get liked songs" "failed to parse liked songs" sampleClient
           (fun _ => Client.mkPage [] 0 None) [] 0 1 unavailable).
  - lia.
  - reflexivity.
  - lia.
  - intros j Hj. lia.
  - left. split; reflexivity.
Defined.

Lemma fetch_never_ends_witness :
  fst (Client.GetAllPlaylists endlessApi 7 sampleClient []) = None /\
  List.length (snd (Client.GetAllPlaylists endlessApi 7 sampleClient [])) = 7%nat.
Proof.
  apply (fetch_never_ends endlessApi _ _ "/me/playlists" 50
           (Client.unmarshalPlaylists endlessApi) (fun p => p)
           "failed to get playlists" "failed to parse playlists" sampleClient).
  intros k req. eexists. split; [eexists; split; reflexivity|].
  split; [discriminate|cbn; lia].
Defined.

Lemma fetch_whole_collection_witness :
  exists m,
    Client.GetAllPlaylists sampleApi 3 sampleClient [] =
    (Some (Ok (map (fun p => p) samplePlaylists)),
     [] ++ pageRequests sampleClient "/me/playlists" 50 m)%list /\
    (1 <= m)%nat /\ (Z.to_nat 50 * (m - 1) <= List.length samplePlaylists)%nat.
Proof.
  apply (fetch_whole_collection sampleApi _ _ "/me/playlists" 50
           (Client.unmarshalPlaylists sampleApi) (fun p => p)
           "failed to get playlists" "failed to parse playlists" sampleClient
           samplePlaylists [] 3).
  - lia.
  - vm_compute. reflexivity.
  - intros j Hj. change (Z.to_nat 50) with 50%nat in *.
    change (List.length samplePlaylists) with 120%nat in *.
    destruct j as [|[|[|j]]]; [| | |lia].
    + exists 120, (Some "next"). split; [eexists; split; reflexivity|discriminate].
    + exists 120, (Some "next"). split; [eexists; split; reflexivity|discriminate].
    + exists 120, None. split; [eexists; split; reflexivity|lia].
  - vm_compute. lia.
Defined.

Lemma find_first {X} (f : X -> bool) (l : list X) x :
  find f l = Some x ->
  f x = true /\
  exists before after,
    l = (before ++ x :: after)%list /\ forall y, In y before -> f y = false.
Proof.
  induction l as [|a l IH]; cbn; [discriminate|].
  destruct (f a) eqn:Fa.
  - intros H. injection H as <-. split; [exact Fa|].
    exists [], l. split; [reflexivity|]. intros y [].
  - intros H. destruct (IH H) as (Fx & before & after & -> & Hb).
    split; [exact Fx|]. exists (a :: before), after. split; [reflexivity|].
    intros y [<-|Hy]; [exact Fa|now apply Hb].
Qed.

(** X16.  A playlist by its name.  When the playlists were fetched,
    [GetPlaylistByName] makes no further request and returns the first
    playlist of that name in the order fetched; it returns the error
    [playlist '...' not found] exactly when no playlist has that
    name. *)
Theorem playlist_by_name api fuel c name sent playlists sent' :
  Client.GetAllPlaylists api fuel c sent = (Some (Ok playlists), sent') ->
  snd (Client.GetPlaylistByName api fuel c name sent) = sent' /\
  ((exists p before after,
      fst (Client.GetPlaylistByName api fuel c name sent) = Some (Ok p) /\
      Client.pl_Name p = name /\
      playlists = (before ++ p :: after)%list /\
      forall q, In q before -> Client.pl_Name q <> name)
   \/
   (fst (Client.GetPlaylistByName api fuel c name sent) =
      Some (Err ("playlist '" ++ name ++ "' not found")) /\
    forall q, In q playlists -> Client.pl_Name q <> name)).
Proof.
  intros H. unfold Client.GetPlaylistByName. rewrite H.
  destruct (find _ playlists) as [p|] eqn:Hf.
  - split; [reflexivity|]. left.
    destruct (find_first _ _ _ Hf) as (Hp & before & after & Hl & Hb).
    exists p, before, after. split; [reflexivity|].
    split; [now apply String.eqb_eq|]. split; [exact Hl|].
    intros q Hq. apply String.eqb_neq. now apply Hb.
  - split; [reflexivity|]. right. split; [reflexivity|].
    intros q Hq. apply String.eqb_neq. exact (find_none _ _ Hf q Hq).
Qed.

Lemma playlist_by_name_witness :
  snd (Client.GetPlaylistByName sampleApi 3 sampleClient "playlist 77" []) =
    pageRequests sampleClient "/me/playlists" 50 3 /\
  ((exists p before after,
      fst (Client.GetPlaylistByName sampleApi 3 sampleClient "playlist 77" []) =
        Some (Ok p) /\
      Client.pl_Name p = "playlist 77" /\
      samplePlaylists = (before ++ p :: after)%list /\
      forall q, In q before -> Client.pl_Name q <> "playlist 77")
   \/
   (fst (Client.GetPlaylistByName sampleApi 3 sampleClient "playlist 77" []) =
      Some (Err ("playlist '" ++ "playlist 77" ++ "' not found")) /\
    forall q, In q samplePlaylists -> Client.pl_Name q <> "playlist 77")).
Proof.
  apply (playlist_by_name sampleApi 3 sampleClient "playlist 77" []
           samplePlaylists (pageRequests sampleClient "/me/playlists" 50 3)).
  vm_compute. reflexivity.
Defined.

Lemma authenticate_outcomes env arrivals w :
  match authenticate env arrivals w with
  | (Val (a, b, None), w') =>
      exists tok, cachedToken w' = Some tok /\ AccessToken tok = a /\ RefreshToken tok = b
  | (Val (_, _, Some e), w') => e = timeoutError /\ listening w' = false
  | (Panic msg, _) => msg = registrationPanic
  end.
Proof.
  destruct (authenticate_cases env arrivals w)
    as [(_ & w2 & Hp & _)|(_ & evs0 & got & w3 & Hs & Hn & Ha & Hv & Hl)].
  - rewrite Hp. reflexivity.
  - rewrite Hl. destruct got as [token|].
    + exists token. repeat split.
    + split; reflexivity.
Qed.

Lemma login_outcomes env arrivals w :
  match Login env arrivals w with
  | (Val (a, b, None), w') =>
      exists tok, cachedToken w' = Some tok /\ AccessToken tok = a /\ RefreshToken tok = b
  | (Val (_, _, Some e), w') => e = timeoutError /\ listening w' = false
  | (Panic msg, _) => msg = registrationPanic
  end.
Proof.
  rewrite Login_cases. destruct (cachedToken w) as [tok|] eqn:Hc;
    [|apply authenticate_outcomes].
  destruct (_ <? _)%Z; [exists tok; repeat split; exact Hc|].
  destruct (_ <? _)%Z; [apply authenticate_outcomes|].
  destruct (refresh_posts_once env tok (set_clockReads (2 + clockReads w) w))
    as (res & w1 & Hr & _).
  rewrite Hr. destruct res as [newToken|e]; [|apply authenticate_outcomes].
  exists newToken. repeat split.
Qed.

(** X17.  [NewClient].  The client it gives carries the access token of
    the token [Login] left in the cache; the only error it gives is the
    timeout of [Login], wrapped, with the listener closed; and when it
    panics it is on the second registration of the handler. *)
Theorem new_client_outcomes env arrivals w :
  match Client.NewClient env arrivals w with
  | (Val (Ok c), w') =>
      exists tok, cachedToken w' = Some tok /\ Client.accessToken c = AccessToken tok
  | (Val (Err e), w') =>
      e = "failed to get access token: authentication timeout after 5 minutes" /\
      listening w' = false
  | (Panic msg, _) => msg = registrationPanic
  end.
Proof.
  unfold Client.NewClient, GetAccessToken, bind, ret.
  pose proof (login_outcomes env arrivals w) as H.
  destruct (Login env arrivals w) as [[[[a b] [e|]]|msg] w'].
  - destruct H as (-> & Hl). split; [reflexivity|exact Hl].
  - destruct H as (tok & Hc & Ha & _). exists tok. split; [exact Hc|].
    cbn. congruence.
  - exact H.
Qed.

(* ================================================================= *)
(** ** The authorization URL *)

Lemma urlSafe_unreserved c :
  Base64.urlSafe c = true -> Ascii.eqb c " " = false /\ URL.unreserved c = true.
Proof.
  destruct c as [[] [] [] [] [] [] [] []]; vm_compute; intros H;
    first [discriminate H | split; reflexivity].
Qed.

Lemma QueryEscape_urlSafe s :
  forallb Base64.urlSafe (list_ascii_of_string s) = true -> URL.QueryEscape s = s.
Proof.
  induction s as [|c s IH]; [reflexivity|].
  cbn [list_ascii_of_string forallb URL.QueryEscape].
  intros H. apply andb_true_iff in H. destruct H as (Hc & Hs).
  destruct (urlSafe_unreserved c Hc) as (-> & ->). now rewrite IH.
Qed.

Lemma Encode_auth_params st chal :
  URL.Encode
    (Set_ "code_challenge" chal
       (Set_ "code_challenge_method" "S256"
          (Set_ "scope" (String.concat " " scopes)
             (Set_ "state" st
                (Set_ "redirect_uri" redirectURI
                   (Set_ "response_type" "code"
                      (Set_ "client_id" clientID []))))))) =
  "client_id=" ++ clientID ++
  "&code_challenge=" ++ URL.QueryEscape chal ++
  "&code_challenge_method=S256" ++
  "&redirect_uri=http%3A%2F%2F127.0.0.1%3A1069" ++
  "&response_type=code" ++
  "&scope=playlist-read-private+playlist-read-collaborative+user-library-read" ++
  "&state=" ++ URL.QueryEscape st.
Proof. vm_compute. reflexivity. Qed.

(** X18.  The authorization URL.  With the [Encode] of [net/url], the
    URL [buildAuthURL] gives after [initPKCE] is the authorization
    endpoint with the seven parameters in the order of their names; the
    redirect URI and the scopes are escaped, and the state and the
    challenge, being URL-safe base64, stand in it as they are. *)
Theorem authorization_url env w :
  valuesEncode env = URL.Encode ->
  let w1 := snd (initPKCE env w) in
  buildAuthURL env w1 =
  (Val (authURL ++ "?" ++
        "client_id=" ++ clientID ++
        "&code_challenge=" ++ codeChallenge w1 ++
        "&code_challenge_method=S256" ++
        "&redirect_uri=http%3A%2F%2F127.0.0.1%3A1069" ++
        "&response_type=code" ++
        "&scope=playlist-read-private+playlist-read-collaborative+user-library-read" ++
        "&state=" ++ state w1),
   w1).
Proof.
  intros He w1. unfold buildAuthURL, bind, gets, ret. rewrite He.
  rewrite Encode_auth_params.
  assert (Hs : URL.QueryEscape (state w1) = state w1).
  { apply QueryEscape_urlSafe. subst w1. rewrite initPKCE_eq.
    apply EncodeToString_urlSafe. }
  assert (Hc : URL.QueryEscape (codeChallenge w1) = codeChallenge w1).
  { apply QueryEscape_urlSafe. subst w1. rewrite initPKCE_eq.
    apply EncodeToString_urlSafe. }
  rewrite Hs, Hc. reflexivity.
Qed.

Lemma authorization_url_witness :
  let w1 := snd (initPKCE libEnv initialWorld) in
  buildAuthURL libEnv w1 =
  (Val (authURL ++ "?" ++
        "client_id=" ++ clientID ++
        "&code_challenge=" ++ codeChallenge w1 ++
        "&code_challenge_method=S256" ++
        "&redirect_uri=http%3A%2F%2F127.0.0.1%3A1069" ++
        "&response_type=code" ++
        "&scope=playlist-read-private+playlist-read-collaborative+user-library-read" ++
        "&state=" ++ state w1),
   w1).
Proof.
  apply (authorization_url libEnv initialWorld). reflexivity.
Defined.

(* ================================================================= *)
(** ** The encoding loses nothing *)

Lemma base64Index_enc i : base64Index (Base64.enc i) = Z.land i 0x3F.
Proof.
  unfold Base64.enc.
  assert (H : 0 <= Z.land i 0x3F < 64).
  { change 0x3F with (Z.ones 6). rewrite Z.land_ones by lia.
    apply Z.mod_pos_bound. lia. }
  rewrite <- (Z2Nat.id (Z.land i 0x3F)) at 2 by lia.
  assert (Hn : (Z.to_nat (Z.land i 0x3F) < 64)%nat) by lia.
  revert Hn. generalize (Z.to_nat (Z.land i 0x3F)). intros n Hn.
  do 64 (destruct n as [|n]; [reflexivity|]). lia.
Qed.

Lemma enc_inj i j : Base64.enc i = Base64.enc j -> Z.land i 0x3F = Z.land j 0x3F.
Proof. intros H. rewrite <- !base64Index_enc. now rewrite H. Qed.

Lemma land_shiftl_low a b k :
  0 <= k -> 0 <= b < 2 ^ k -> Z.land (Z.shiftl a k) b = 0.
Proof.
  intros Hk Hb. apply Z.bits_inj'. intros n Hn.
  rewrite Z.land_spec, Z.bits_0.
  destruct (Z.ltb_spec n k) as [Hlt|Hge].
  - rewrite Z.shiftl_spec_low by lia. reflexivity.
  - replace (Z.testbit b n) with false; [apply andb_false_r|].
    symmetry. destruct (Z.eq_dec b 0) as [->|Hb0]; [apply Z.bits_0|].
    apply Z.bits_above_log2; [lia|].
    apply Z.log2_lt_pow2; [lia|].
    apply Z.lt_le_trans with (2 ^ k); [lia|].
    apply Z.pow_le_mono_r; lia.
Qed.

Lemma lor_shiftl_add a b k :
  0 <= k -> 0 <= b < 2 ^ k -> Z.lor (Z.shiftl a k) b = a * 2 ^ k + b.
Proof.
  intros Hk Hb.
  rewrite <- Z.lxor_lor by (now apply land_shiftl_low).
  rewrite <- Z.add_nocarry_lxor by (now apply land_shiftl_low).
  now rewrite Z.shiftl_mul_pow2.
Qed.

Lemma group3 a b c :
  isByte a -> isByte b -> isByte c ->
  Z.lor (Z.lor (Z.shiftl a 16) (Z.shiftl b 8)) c = a * 65536 + b * 256 + c.
Proof.
  unfold isByte. intros Ha Hb Hc.
  rewrite (Z.shiftl_mul_pow2 b 8) by lia.
  rewrite (lor_shiftl_add a (b * 2 ^ 8) 16) by lia.
  replace (a * 2 ^ 16 + b * 2 ^ 8) with (Z.shiftl (a * 256 + b) 8)
    by (rewrite Z.shiftl_mul_pow2; lia).
  rewrite lor_shiftl_add by lia. lia.
Qed.

Lemma group2 a b :
  isByte a -> isByte b ->
  Z.lor (Z.shiftl a 16) (Z.shiftl b 8) = a * 65536 + b * 256.
Proof.
  unfold isByte. intros Ha Hb.
  rewrite (Z.shiftl_mul_pow2 b 8) by lia.
  rewrite lor_shiftl_add by lia. lia.
Qed.

Lemma sextet v k : 0 <= k -> Z.land (Z.shiftr v k) 0x3F = (v / 2 ^ k) mod 64.
Proof.
  intros Hk. change 0x3F with (Z.ones 6).
  rewrite Z.land_ones, Z.shiftr_div_pow2 by lia. reflexivity.
Qed.

Lemma land63 v : Z.land v 0x3F = v mod 64.
Proof. change 0x3F with (Z.ones 6). now rewrite Z.land_ones by lia. Qed.

Ltac sextets :=
  repeat match goal with
         | H : Base64.enc _ = Base64.enc _ |- _ => apply enc_inj in H
         end;
  rewrite ?sextet, ?land63 in * by lia.

Opaque Z.shiftl Z.shiftr Z.lor Z.land.

Lemma encode_one a a' :
  isByte a -> isByte a' ->
  Base64.encode [a] = Base64.encode [a'] -> a = a'.
Proof.
  unfold isByte. intros Ha Ha' H. cbn [Base64.encode] in H. cbv zeta in H.
  injection H as H1 H2. sextets.
  rewrite !Z.shiftl_mul_pow2 in * by lia.
  change (2 ^ 16) with 65536 in *. change (2 ^ 18) with 262144 in *.
  change (2 ^ 12) with 4096 in *.
  Z.div_mod_to_equations. lia.
Qed.

Lemma encode_two a b a' b' :
  isByte a -> isByte b -> isByte a' -> isByte b' ->
  Base64.encode [a; b] = Base64.encode [a'; b'] -> a = a' /\ b = b'.
Proof.
  intros Ha Hb Ha' Hb' H. cbn [Base64.encode] in H. cbv zeta in H.
  injection H as H1 H2 H3. sextets.
  rewrite !group2 in * by assumption. unfold isByte in *.
  change (2 ^ 18) with 262144 in *. change (2 ^ 12) with 4096 in *.
  change (2 ^ 6) with 64 in *.
  Z.div_mod_to_equations. lia.
Qed.

Lemma encode_three a b c a' b' c' l l' :
  isByte a -> isByte b -> isByte c -> isByte a' -> isByte b' -> isByte c' ->
  Base64.encode (a :: b :: c :: l) = Base64.encode (a' :: b' :: c' :: l') ->
  a = a' /\ b = b' /\ c = c' /\ Base64.encode l = Base64.encode l'.
Proof.
  intros Ha Hb Hc Ha' Hb' Hc' H. cbn [Base64.encode] in H. cbv zeta in H.
  injection H as H1 H2 H3 H4 H5. sextets.
  rewrite !group3 in * by assumption. unfold isByte in *.
  change (2 ^ 18) with 262144 in *. change (2 ^ 12) with 4096 in *.
  change (2 ^ 6) with 64 in *.
  repeat split; try exact H5; Z.div_mod_to_equations; lia.
Qed.

Transparent Z.shiftl Z.shiftr Z.lor Z.land.

Lemma encode_inj bs1 :
  Forall isByte bs1 ->
  forall bs2, Forall isByte bs2 ->
    Base64.encode bs1 = Base64.encode bs2 -> bs1 = bs2.
Proof.
  induction bs1 as [|a|a b|a b c l IH] using list_ind3; intros H1 bs2 H2 E.
  - destruct bs2 as [|a' [|b' [|c' l']]]; [reflexivity|discriminate..].
  - destruct bs2 as [|a' [|b' [|c' l']]]; try discriminate.
    inversion H1; inversion H2; subst. f_equal. now apply encode_one.
  - destruct bs2 as [|a' [|b' [|c' l']]]; try discriminate.
    inversion H1 as [|? ? Ha H1']; inversion H1'; subst.
    inversion H2 as [|? ? Ha' H2']; inversion H2'; subst.
    destruct (encode_two a b a' b') as (-> & ->); auto.
  - destruct bs2 as [|a' [|b' [|c' l']]]; try discriminate.
    inversion H1 as [|? ? Ha H1a]; inversion H1a as [|? ? Hb H1b];
      inversion H1b as [|? ? Hc Hl]; subst.
    inversion H2 as [|? ? Ha' H2a]; inversion H2a as [|? ? Hb' H2b];
      inversion H2b as [|? ? Hc' Hl']; subst.
    destruct (encode_three a b c a' b' c' l l') as (-> & -> & -> & El); auto.
    f_equal. f_equal. f_equal. now apply IH.
Qed.

(** X19.  The encoding of the random bytes loses nothing.  Two attempts
    get the same random string, state or verifier, only when the entropy
    source gave them the same bytes: [generateRandomString] is one to
    one on what it reads. *)
Theorem random_string_determines_bytes env env' n w w' :
  fst (generateRandomString env n w) = fst (generateRandomString env' n w') ->
  randBytes env (randReads w) n = randBytes env' (randReads w') n.
Proof.
  unfold generateRandomString, rand_Read, bind, gets, modify, ret. cbn [fst].
  intros H. injection H as H. unfold Base64.EncodeToString in H.
  apply (f_equal list_ascii_of_string) in H.
  rewrite !list_ascii_of_string_of_list_ascii in H.
  apply encode_inj in H; [exact H| |]; apply randBytes_range.
Qed.

Lemma random_string_determines_bytes_witness :
  randBytes okEnv (randReads initialWorld) 16 =
  randBytes noBrowserEnv (randReads waitingWorld) 16.
Proof.
  apply (random_string_determines_bytes okEnv noBrowserEnv 16 initialWorld waitingWorld).
  vm_compute. reflexivity.
Defined.

(* ================================================================= *)
(** ** More on the hand-off *)

(** X20.  A second send leaks as a late one does.  Once [Login] has
    received its token, a handler that is at its send on [ch], that of a
    second good callback, stays at its send in every state the goroutines
    can get to, and [Login] keeps the token it has. *)
Theorem second_send_never_completes env s s' i token got :
  Handoff.login s = Handoff.Received got ->
  nth_error (Handoff.handlers s) i = Some (Handoff.Sending token) ->
  Handoff.steps env s s' ->
  Handoff.login s' = Handoff.Received got /\
  nth_error (Handoff.handlers s') i = Some (Handoff.Sending token).
Proof.
  intros Hl Hi Hsteps. induction Hsteps as [s|s s1 s2 Hstep _ IH]; [auto|].
  destruct (HandoffFacts.step_after_select env s s1 i token Hstep) as (H1 & H2);
    [congruence|exact Hi|].
  apply IH; congruence.
Qed.

Lemma second_send_never_completes_witness :
  Handoff.login secondSend = Handoff.Received lateToken /\
  nth_error (Handoff.handlers secondSend) 1 = Some (Handoff.Sending lateToken).
Proof.
  apply (second_send_never_completes okEnv secondSend secondSend 1 lateToken lateToken).
  - reflexivity.
  - reflexivity.
  - apply Handoff.steps_refl.
Defined.

Lemma nth_error_update {X} (l : list X) i j a x :
  nth_error (Handoff.update j a l) i = Some x ->
  x = a \/ nth_error l i = Some x.
Proof.
  revert i j. induction l as [|y l IH]; intros i j H.
  - destruct j; cbn in H; destruct i; discriminate.
  - destruct j, i; cbn in H |- *; auto.
    + injection H as <-. auto.
    + now apply (IH i j).
Qed.

(** X21.  What [Login] receives was sent by a handler.  From a state in
    which [Login] is at its [select] and no handler runs, whatever the
    goroutines do, a token [Login] has received, and a token a handler is
    about to send, is the token that a run of [completeAuthHandler] on
    some request ended with. *)
Theorem received_token_was_sent env s s' :
  Handoff.login s = Handoff.Selecting ->
  Handoff.handlers s = [] ->
  Handoff.steps env s s' ->
  (forall token, Handoff.login s' = Handoff.Received token -> producedBy env token) /\
  (forall i token,
      nth_error (Handoff.handlers s') i = Some (Handoff.Sending token) ->
      producedBy env token).
Proof.
  intros Hl Hh Hsteps.
  assert (Inv : (forall token, Handoff.login s = Handoff.Received token ->
                               producedBy env token) /\
                (forall i token,
                    nth_error (Handoff.handlers s) i = Some (Handoff.Sending token) ->
                    producedBy env token)).
  { split.
    - intros token H. congruence.
    - intros i token H. rewrite Hh in H. destruct i; discriminate. }
  clear Hl Hh. induction Hsteps as [s|s s1 s2 Hstep _ IH]; [exact Inv|].
  apply IH. destruct Inv as (I1 & I2).
  destruct Hstep as [s r Hopen|s j r sent w' Hj Hb|s j t Hsel Hj|s Hsel];
    cbn [Handoff.login Handoff.handlers]; split.
  - exact I1.
  - intros i token H.
    destruct (Nat.lt_ge_cases i (List.length (Handoff.handlers s))) as [Hlt|Hge].
    + rewrite nth_error_app1 in H by exact Hlt. now apply (I2 i).
    + rewrite nth_error_app2 in H by exact Hge.
      destruct (i - _)%nat as [|[|k]]; cbn in H; discriminate.
  - exact I1.
  - intros i token H. apply nth_error_update in H. destruct H as [H|H].
    + destruct sent as [t|]; cbn in H; [|discriminate].
      injection H as ->. exists r, (Handoff.world s), w'. exact Hb.
    + now apply (I2 i).
  - intros token H. injection H as <-. now apply (I2 j).
  - intros i token H. apply nth_error_update in H. destruct H as [H|H];
      [discriminate|now apply (I2 i)].
  - intros token H. discriminate.
  - exact I2.
Qed.

Lemma received_token_was_sent_witness :
  (forall token, Handoff.login lateSend = Handoff.Received token ->
                 producedBy okEnv token) /\
  (forall i token,
      nth_error (Handoff.handlers lateSend) i = Some (Handoff.Sending token) ->
      producedBy okEnv token).
Proof.
  apply (received_token_was_sent okEnv selecting lateSend).
  - reflexivity.
  - reflexivity.
  - eapply Handoff.steps_step.
    { apply (Handoff.step_accept okEnv selecting goodCallback). vm_compute. reflexivity. }
    eapply Handoff.steps_step.
    { apply Handoff.step_timer. reflexivity. }
    eapply Handoff.steps_step.
    { apply (Handoff.step_serve okEnv _ 0 goodCallback (Some lateToken)
               (snd (completeAuthHandler okEnv goodCallback selectWorld))).
      - reflexivity.
      - vm_compute. reflexivity. }
    apply Handoff.steps_refl.
Defined.

(* ================================================================= *)
(** ** What the client sends *)

Section PagedRequests.

Variable api : Client.Api.
Variables A B : Type.
Variable endpoint : string.
Variable limit : Z.
Variable unmarshal : string -> result (Client.Page B).
Variable unwrap : B -> A.
Variables getError parseError : string.
Variable c : Client.Client.

Lemma fetch_requests fuel :
  forall offset all sent,
  exists reqs,
    snd (Client.fetchPages api A B endpoint limit unmarshal unwrap getError
           parseError fuel c offset all sent) = (sent ++ reqs)%list /\
    (List.length reqs <= fuel)%nat /\
    Forall (apiRequestOf c) reqs.
Proof.
  induction fuel as [|fuel IH]; intros offset all sent.
  - exists []. cbn. rewrite app_nil_r. repeat split; [lia|constructor].
  - rewrite fetch_step.
    assert (R : apiRequestOf c (pageRequest c endpoint limit offset)).
    { repeat split. }
    assert (One : exists reqs,
               (sent ++ [pageRequest c endpoint limit offset])%list = (sent ++ reqs)%list /\
               (List.length reqs <= S fuel)%nat /\ Forall (apiRequestOf c) reqs).
    { exists [pageRequest c endpoint limit offset].
      split; [reflexivity|]. split; [cbn; lia|]. now constructor. }
    destruct (Client.apiDo api _ _) as [err|status body]; [exact One|].
    destruct (status =? 200)%Z; [|exact One].
    destruct (unmarshal body) as [response|err]; [|exact One].
    destruct (Client.Next response); [|exact One].
    destruct (_ <? _)%Z; [exact One|].
    destruct (IH (wrap64 (offset + limit))
                 (all ++ map unwrap (Client.Items response))%list
                 (sent ++ [pageRequest c endpoint limit offset])%list)
      as (reqs & Hs & Hl & Hf).
    exists (pageRequest c endpoint limit offset :: reqs).
    rewrite Hs, <- app_assoc. split; [reflexivity|]. split; [cbn; lia|].
    now constructor.
Qed.

End PagedRequests.

(** X22.  Where the token goes.  Whatever the API answers and however a
    paged call ends, each request it makes is a GET under the base URL
    of the API that carries the access token of the client as its bearer
    token, the requests made before are left as they were, and there is
    at most one request a turn of the loop. *)
Theorem paged_call_requests api A B endpoint limit
    (unmarshal : string -> result (Client.Page B)) (unwrap : B -> A)
    getError parseError c fuel offset all sent :
  exists reqs,
    snd (Client.fetchPages api A B endpoint limit unmarshal unwrap getError
           parseError fuel c offset all sent) = (sent ++ reqs)%list /\
    (List.length reqs <= fuel)%nat /\
    Forall (apiRequestOf c) reqs /\
    Forall (fun r => Get "Authorization" (Client.req_headers r) =
                     "Bearer " ++ Client.accessToken c) reqs.
Proof.
  destruct (fetch_requests api A B endpoint limit unmarshal unwrap getError
              parseError c fuel offset all sent) as (reqs & Hs & Hl & Hf).
  exists reqs. split; [exact Hs|]. split; [exact Hl|]. split; [exact Hf|].
  eapply Forall_impl; [|exact Hf]. intros r (_ & Hh & _). rewrite Hh. reflexivity.
Qed.

(* ================================================================= *)
(** ** The wait of [Login], as goroutines *)

Module WaitFacts.
Import Wait.

Lemma nth_error_update_same {X} (l : list X) i a x :
  nth_error l i = Some x -> nth_error (Handoff.update i a l) i = Some a.
Proof.
  revert i. induction l as [|y l IH]; intros i H.
  - destruct i; discriminate.
  - destruct i; cbn in *; [reflexivity|]. now apply IH.
Qed.

Lemma length_update {X} (l : list X) i a :
  List.length (Handoff.update i a l) = List.length l.
Proof.
  revert i. induction l as [|y l IH]; intros i; [destruct i; reflexivity|].
  destruct i; cbn; [reflexivity|]. now rewrite IH.
Qed.

Lemma Forall_update {X} (P : X -> Prop) (l : list X) i a :
  Forall P l -> P a -> Forall P (Handoff.update i a l).
Proof.
  intros Hl Ha. revert i. induction Hl as [|y l Hy Hl IH]; intros i.
  - destruct i; constructor.
  - destruct i; cbn; constructor; auto.
Qed.

Lemma map_request_update (l : list HandlerPc) i h h' :
  nth_error l i = Some h -> request h' = request h ->
  map request (Handoff.update i h' l) = map request l.
Proof.
  revert i. induction l as [|y l IH]; intros i H E.
  - destruct i; discriminate.
  - destruct i; cbn in *.
    + injection H as ->. now rewrite E.
    + f_equal. now apply IH.
Qed.

Lemma running_update (l : list HandlerPc) i r r' :
  nth_error l i = Some (Serving r) ->
  S (running (Handoff.update i (Done r') l)) = running l.
Proof.
  unfold running. revert i. induction l as [|y l IH]; intros i H.
  - destruct i; discriminate.
  - destruct i; cbn in H.
    + injection H as ->. reflexivity.
    + cbn [Handoff.update filter]. destruct (negb (idle y)); cbn [List.length].
      * f_equal. now apply IH.
      * now apply IH.
Qed.

Lemma running_idle (l : list HandlerPc) :
  forallb idle l = true -> running l = 0%nat.
Proof.
  unfold running. induction l as [|y l IH]; [reflexivity|].
  cbn. destruct (idle y); cbn; [exact IH|discriminate].
Qed.

Lemma not_idle (l : list HandlerPc) :
  forallb idle l = false ->
  exists i h, nth_error l i = Some h /\ idle h = false.
Proof.
  induction l as [|y l IH]; [discriminate|].
  cbn. destruct (idle y) eqn:Hy; cbn.
  - intros H. destruct (IH H) as (i & h & Hi & Hh). now exists (S i), h.
  - intros _. now exists 0%nat, y.
Qed.

Lemma idle_nth (l : list HandlerPc) i h :
  forallb idle l = true -> nth_error l i = Some h -> idle h = true.
Proof.
  intros Hall Hi. rewrite forallb_forall in Hall.
  apply Hall. eapply nth_error_In. exact Hi.
Qed.

(** The handler of a well-formed callback whose exchange is answered
    sends, in whatever world of the attempt it runs. *)
Lemma handler_sends env r w :
  sends env (state w) (codeVerifier w) r ->
  exists token w', completeAuthHandler env r w = (Val (Some token), w').
Proof.
  intros (Hwf & Hpost).
  unfold wellFormed in Hwf.
  apply andb_prop in Hwf as (Hwf & Hc). apply andb_prop in Hwf as (He & Hst).
  rewrite completeAuthHandler_eq, exchangeCodeForToken_eq. cbv zeta.
  rewrite He, Hst. cbn [negb].
  destruct (String.eqb (Get "code" r) ""); [discriminate|].
  cbn [posts codeVerifier clockReads add_events].
  destruct (Hpost (posts w)) as (body & tr & -> & Hj).
  cbn [Z.eqb Pos.eqb negb]. rewrite Hj. eauto.
Qed.

(** The handler of a callback that carries a failure returns, and
    leaves the world as it is but for its events. *)
Lemma handler_returns env r w sent w' :
  carriesFailure (state w) r ->
  completeAuthHandler env r w = (Val sent, w') ->
  sent = None /\ exists evs, w' = add_events evs w /\ noPost evs.
Proof.
  intros Hf H.
  destruct (handler_rejects env r w Hf) as (evs & He & Hn & _).
  rewrite He in H. injection H as <- <-. eauto.
Qed.

(** No step touches the state and the verifier of the attempt. *)
Lemma step_keeps_attempt env s s' :
  step env s s' ->
  state (world s') = state (world s) /\
  codeVerifier (world s') = codeVerifier (world s).
Proof.
  intros [s0 r Hopen|s0 j r sent w' Hj Hb|s0 j r t Hsel Hj|s0 Hsel|s0 Hd Hall|s0 t Hs];
    cbn [world]; try (split; reflexivity).
  destruct (handler_served env r (world s0)) as (sent' & w'' & He & Hv).
  rewrite He in Hb. injection Hb as _ <-.
  destruct Hv as (H1 & H2 & _). split; assumption.
Qed.

(** While [Login] is in the shutdown of its timeout branch, a handler
    that will not return keeps it there. *)
Lemma blocked_step env s s' i h :
  step env s s' ->
  login s = Draining ->
  nth_error (handlers s) i = Some h ->
  blocking env (world s) h ->
  login s' = Draining /\
  exists h', nth_error (handlers s') i = Some h' /\
             blocking env (world s') h' /\ request h' = request h.
Proof.
  intros Hstep Hl Hi Hb.
  pose proof (step_keeps_attempt env s s' Hstep) as (Hst & Hver).
  assert (Hkeep : blocking env (world s') h).
  { destruct h; cbn in *; auto. now rewrite Hst, Hver. }
  clear Hst Hver.
  destruct Hstep as [s r Hopen|s j r sent w' Hj Hbody|s j r t Hsel Hj|s Hsel|s Hd Hall|s t Hs];
    cbn [login handlers world] in *; try congruence.
  - split; [exact Hl|]. exists h. split; [|split; [exact Hkeep|reflexivity]].
    rewrite nth_error_app1; [exact Hi|]. apply nth_error_Some. congruence.
  - split; [exact Hl|].
    destruct (Nat.eq_dec i j) as [->|Hne].
    + rewrite Hj in Hi. injection Hi as <-. cbn in Hb.
      destruct (handler_sends env r (world s) Hb) as (token & w'' & He).
      rewrite He in Hbody. injection Hbody as <- _.
      exists (Sending r token). split; [|split; [exact I|reflexivity]].
      eapply nth_error_update_same. exact Hj.
    + exists h. split; [|split; [exact Hkeep|reflexivity]].
      rewrite HandoffFacts.nth_error_update_other; assumption.
  - exfalso. pose proof (idle_nth _ _ _ Hall Hi) as Hidle.
    destruct h; cbn in *; [discriminate|discriminate|contradiction].
Qed.

(** What is left of a step once the timer has fired and the listener is
    closed: a handler runs its body, or the shutdown is over. *)
Lemma draining_step env s s' :
  step env s s' ->
  login s = Draining ->
  listening (world s) = false ->
  (exists j r sent w',
      nth_error (handlers s) j = Some (Serving r) /\
      completeAuthHandler env r (world s) = (Val sent, w') /\
      s' = mkState Draining (Handoff.update j (afterBody r sent) (handlers s)) w')
  \/
  (forallb idle (handlers s) = true /\
   s' = mkState (Returned ("", "", Some timeoutError)) (handlers s) (world s)).
Proof.
  intros Hstep Hl Hopen.
  destruct Hstep as [s r Ho|s j r sent w' Hj Hbody|s j r t Hsel Hj|s Hsel|s Hd Hall|s t Hs];
    try congruence.
  - left. exists j, r, sent, w'. rewrite Hl. auto.
  - right. auto.
Qed.

(** When the timer has fired, the listener is closed, and the handlers
    that are still running serve callbacks that carry failures, [Login]
    returns the timeout error on every run: with the listener closed,
    the cache as it was, no post made and no request accepted since. *)
Lemma timeout_returns env c p reqs : forall n s,
  running (handlers s) = n ->
  login s = Draining ->
  listening (world s) = false ->
  cachedToken (world s) = c ->
  posts (world s) = p ->
  map request (handlers s) = reqs ->
  Forall (returning (state (world s))) (handlers s) ->
  inevitably env
    (fun s' => login s' = Returned ("", "", Some timeoutError) /\
               listening (world s') = false /\
               cachedToken (world s') = c /\
               posts (world s') = p /\
               map request (handlers s') = reqs) s.
Proof.
  induction n as [|n IH]; intros s Hn Hl Hopen Hc Hp Hreqs Hall.
  - assert (Hidle : forallb idle (handlers s) = true).
    { destruct (forallb idle (handlers s)) eqn:E; [reflexivity|].
      destruct (not_idle _ E) as (i & h & Hi & Hh).
      exfalso. clear - Hn Hi Hh. unfold running in Hn.
      apply nth_error_In in Hi.
      assert (Hin : In h (filter (fun h => negb (idle h)) (handlers s))).
      { apply filter_In. split; [exact Hi|]. now rewrite Hh. }
      destruct (filter _ (handlers s)); [contradiction|discriminate]. }
    apply inevitably_later.
    + eexists. apply step_drained; assumption.
    + intros s' Hstep.
      destruct (draining_step env s s' Hstep Hl Hopen)
        as [(j & r & sent & w' & Hj & _)|(_ & ->)].
      * pose proof (idle_nth _ _ _ Hidle Hj). discriminate.
      * apply inevitably_now. cbn [login world handlers]. auto.
  - assert (Hidle : forallb idle (handlers s) = false).
    { destruct (forallb idle (handlers s)) eqn:E; [|reflexivity].
      rewrite (running_idle _ E) in Hn. discriminate. }
    assert (Hserve : forall j r sent w',
               nth_error (handlers s) j = Some (Serving r) ->
               completeAuthHandler env r (world s) = (Val sent, w') ->
               inevitably env
                 (fun s' => login s' = Returned ("", "", Some timeoutError) /\
                            listening (world s') = false /\
                            cachedToken (world s') = c /\
                            posts (world s') = p /\
                            map request (handlers s') = reqs)
                 (mkState Draining (Handoff.update j (afterBody r sent) (handlers s)) w')).
    { intros j r sent w' Hj Hbody.
      assert (Hf : carriesFailure (state (world s)) r).
      { rewrite Forall_forall in Hall.
        exact (Hall _ (nth_error_In _ _ Hj)). }
      destruct (handler_returns env r (world s) sent w' Hf Hbody)
        as (-> & evs & -> & _).
      apply IH; cbn [login handlers world afterBody]; auto.
      - pose proof (running_update (handlers s) j r r Hj) as Hr.
        rewrite Hn in Hr. now injection Hr.
      - rewrite <- Hreqs. eapply map_request_update; [exact Hj|reflexivity].
      - apply Forall_update; [exact Hall|exact I]. }
    apply inevitably_later.
    + destruct (not_idle _ Hidle) as (i & h & Hi & Hh).
      assert (Hr : returning (state (world s)) h).
      { rewrite Forall_forall in Hall. exact (Hall _ (nth_error_In _ _ Hi)). }
      destruct h as [r|r t|r]; cbn in Hh, Hr; [|contradiction|discriminate].
      destruct (handler_served env r (world s)) as (sent & w' & He & _).
      eexists. eapply step_serve; [exact Hi|exact He].
    + intros s' Hstep.
      destruct (draining_step env s s' Hstep Hl Hopen)
        as [(j & r & sent & w' & Hj & Hbody & ->)|(E & _)].
      * now apply (Hserve j r sent w').
      * rewrite E in Hidle. discriminate.
Qed.

End WaitFacts.

(** C4.  The timeout branch waits for the handlers.  Once the timer has
    fired, [Login] is in [server.Shutdown(context.Background())]: a
    handler that was accepted before and is at its send on [ch], or is
    on its way there with a callback that passes the checks and whose
    exchange is answered, does not return, and [Login] stays in the
    shutdown in every state the goroutines can get to: it does not
    return the timeout error, nor anything else. *)
Theorem timeout_waits_for_handlers env s s' i h :
  Wait.login s = Wait.Draining ->
  nth_error (Wait.handlers s) i = Some h ->
  blocking env (Wait.world s) h ->
  Wait.steps env s s' ->
  Wait.login s' = Wait.Draining /\
  (forall ret, Wait.login s' <> Wait.Returned ret) /\
  exists h', nth_error (Wait.handlers s') i = Some h' /\
             blocking env (Wait.world s') h' /\
             Wait.request h' = Wait.request h.
Proof.
  intros Hl Hi Hb Hsteps. revert h Hl Hi Hb.
  induction Hsteps as [s|s s1 s2 Hstep _ IH]; intros h Hl Hi Hb.
  - split; [exact Hl|]. split; [congruence|]. now exists h.
  - destruct (WaitFacts.blocked_step env s s1 i h Hstep Hl Hi Hb)
      as (Hl1 & h1 & Hi1 & Hb1 & Hr1).
    destruct (IH h1 Hl1 Hi1 Hb1) as (Hl2 & Hn2 & h2 & Hi2 & Hb2 & Hr2).
    split; [exact Hl2|]. split; [exact Hn2|].
    exists h2. split; [exact Hi2|]. split; [exact Hb2|congruence].
Qed.

Lemma timeout_waits_for_handlers_witness :
  Wait.login (Wait.mkState Wait.Draining [Wait.Sending goodCallback lateToken]
                (snd (completeAuthHandler okEnv goodCallback (closed selectWorld))))
    = Wait.Draining /\
  (forall ret,
      Wait.login (Wait.mkState Wait.Draining [Wait.Sending goodCallback lateToken]
                    (snd (completeAuthHandler okEnv goodCallback (closed selectWorld))))
      <> Wait.Returned ret) /\
  exists h',
    nth_error (Wait.handlers
                 (Wait.mkState Wait.Draining [Wait.Sending goodCallback lateToken]
                    (snd (completeAuthHandler okEnv goodCallback (closed selectWorld)))))
              0 = Some h' /\
    blocking okEnv
      (Wait.world (Wait.mkState Wait.Draining [Wait.Sending goodCallback lateToken]
                     (snd (completeAuthHandler okEnv goodCallback (closed selectWorld)))))
      h' /\
    Wait.request h' = Wait.request (Wait.Serving goodCallback).
Proof.
  apply (timeout_waits_for_handlers okEnv (Wait.expire inFlight) _ 0
           (Wait.Serving goodCallback)).
  - reflexivity.
  - reflexivity.
  - split; [vm_compute; reflexivity|].
    intros k. exists "{}", (mkTokenResp "AT" "Bearer" 3600 "RT" "").
    split; reflexivity.
  - eapply Wait.steps_step; [|apply Wait.steps_refl].
    apply (Wait.step_serve okEnv (Wait.expire inFlight) 0 goodCallback (Some lateToken)
             (snd (completeAuthHandler okEnv goodCallback (closed selectWorld)))).
    + reflexivity.
    + vm_compute. reflexivity.
Defined.

(** The state of the witness is within reach of the wait's start: the
    good callback is accepted, the timer fires, the handler runs. *)
Lemma timeout_hang_reachable :
  Wait.steps okEnv (Wait.start selectWorld)
    (Wait.mkState Wait.Draining [Wait.Sending goodCallback lateToken]
       (snd (completeAuthHandler okEnv goodCallback (closed selectWorld)))).
Proof.
  eapply Wait.steps_step.
  { apply (Wait.step_accept okEnv (Wait.start selectWorld) goodCallback).
    vm_compute. reflexivity. }
  eapply Wait.steps_step.
  { apply Wait.step_timer. reflexivity. }
  eapply Wait.steps_step; [|apply Wait.steps_refl].
  apply (Wait.step_serve okEnv (Wait.expire inFlight) 0 goodCallback (Some lateToken)
           (snd (completeAuthHandler okEnv goodCallback (closed selectWorld)))).
  - reflexivity.
  - vm_compute. reflexivity.
Qed.

(** What the timeout branch does when no handler is in its way: for the
    sample attempt with a denied callback still being served when the
    timer fires, [Login] returns the timeout error on every run. *)
Example timeout_returns_example :
  Wait.inevitably okEnv
    (fun s' => Wait.login s' = Wait.Returned ("", "", Some timeoutError) /\
               listening (Wait.world s') = false /\
               cachedToken (Wait.world s') = None /\
               posts (Wait.world s') = 0%nat /\
               map Wait.request (Wait.handlers s') = [deniedCallback])
    (Wait.expire (Wait.mkState Wait.Selecting [Wait.Serving deniedCallback] selectWorld)).
Proof.
  apply (WaitFacts.timeout_returns okEnv None 0%nat [deniedCallback] 1); try reflexivity.
  apply Forall_cons; [|apply Forall_nil].
  left. discriminate.
Qed.

(* ================================================================= *)
(** ** The stale token *)

(** A process that holds a token has registered the handler: the cache
    is written at lines 278 and 328 only, the first where there was a
    token before and the second after the registration of line 287. *)
Lemma reachable_registered w :
  reachable w -> cachedToken w = None \/ registered w = true.
Proof.
  induction 1 as [|env arrivals w Hw IH]; [left; reflexivity|].
  right. rewrite Login_cases.
  destruct (cachedToken w) as [tok|] eqn:Hc; [|apply authenticate_registers].
  destruct IH as [IH|IH]; [discriminate|].
  destruct (_ <? _)%Z; [exact IH|].
  destruct (_ <? _)%Z; [apply authenticate_registers|].
  destruct (refreshToken env tok _) as [[[newToken|e]|msg] w1] eqn:Hr;
    [| apply authenticate_registers |];
    destruct (refresh_frame env tok _ _ _ Hr) as (_ & Hm & _);
    unfold registered; cbn [snd muxPatterns set_cachedToken]; rewrite Hm; exact IH.
Qed.

(** C6.  The stale token.  In a process that holds a token which fails
    the five-minute check, [Login] posts one refresh, before anything
    else.  When the refresh succeeds, its token is the new cache and its
    pair is what [Login] returns, and nothing else is done.  When it
    fails, [Login] goes on to line 283 and panics at the
    [http.HandleFunc] of line 287, the handler being registered already:
    there is no interactive login, no listener is opened, the token
    stays in the cache, and the caller gets the panic, not the error of
    the refresh. *)
Theorem login_stale_refresh env arrivals w tok :
  reachable w ->
  cachedToken w = Some tok ->
  Expiry tok <= now env (clockReads w) + 5 * Minute ->
  now env (clockReads w) <= now env (S (clockReads w)) ->
  match refreshToken env tok (set_clockReads (2 + clockReads w) w) with
  | (Val (Ok newToken), w1) =>
      Login env arrivals w =
        (Val (AccessToken newToken, RefreshToken newToken, None),
         set_cachedToken (Some newToken) w1) /\
      events_since w (snd (Login env arrivals w)) =
        [EvPostForm tokenURL (refreshData tok)]
  | (Val (Err e), w1) =>
      fst (Login env arrivals w) = Panic registrationPanic /\
      events_since w (snd (Login env arrivals w)) =
        [EvPostForm tokenURL (refreshData tok); EvHandleFunc "/"] /\
      cachedToken (snd (Login env arrivals w)) = Some tok /\
      listening (snd (Login env arrivals w)) = listening w
  | (Panic _, _) => False
  end.
Proof.
  intros Hreach Hc Hstale Hmono.
  assert (Hreg : registered w = true).
  { destruct (reachable_registered w Hreach) as [H|H]; [congruence|exact H]. }
  rewrite Login_cases, Hc.
  replace (now env (clockReads w) + 5 * Minute <? Expiry tok)%Z with false
    by (symmetry; apply Z.ltb_ge; exact Hstale).
  replace (now env (S (clockReads w)) + 5 * Minute <? Expiry tok)%Z with false
    by (symmetry; apply Z.ltb_ge; lia).
  destruct (refresh_posts_once env tok (set_clockReads (2 + clockReads w) w))
    as (res & w1 & Hr & Ht).
  change (trace (set_clockReads _ w)) with (trace w) in Ht.
  rewrite Hr. destruct res as [newToken|e].
  - split; [reflexivity|]. cbn [snd].
    now apply events_since_app.
  - destruct (refresh_frame env tok _ _ _ Hr) as (Hl & Hm & _).
    pose proof (refresh_keeps_cache env tok _ _ _ Hr) as Hk.
    assert (Hreg1 : registered w1 = true).
    { unfold registered. rewrite Hm. exact Hreg. }
    unfold authenticate, bind. rewrite (startListener_panics env w1 Hreg1).
    cbn [fst snd]. split; [reflexivity|]. split; [|split].
    + apply events_since_app.
      cbn [trace add_events set_pkce set_randReads]. rewrite Ht, <- app_assoc.
      reflexivity.
    + cbn [cachedToken add_events set_pkce set_randReads]. rewrite Hk. exact Hc.
    + cbn [listening add_events set_pkce set_randReads]. exact Hl.
Qed.

Lemma login_stale_refresh_witness :
  match refreshToken staleEnv staleToken
          (set_clockReads (2 + clockReads staleWorld) staleWorld) with
  | (Val (Ok newToken), w1) =>
      Login staleEnv [goodCallback] staleWorld =
        (Val (AccessToken newToken, RefreshToken newToken, None),
         set_cachedToken (Some newToken) w1) /\
      events_since staleWorld (snd (Login staleEnv [goodCallback] staleWorld)) =
        [EvPostForm tokenURL (refreshData staleToken)]
  | (Val (Err e), w1) =>
      fst (Login staleEnv [goodCallback] staleWorld) = Panic registrationPanic /\
      events_since staleWorld (snd (Login staleEnv [goodCallback] staleWorld)) =
        [EvPostForm tokenURL (refreshData staleToken); EvHandleFunc "/"] /\
      cachedToken (snd (Login staleEnv [goodCallback] staleWorld)) = Some staleToken /\
      listening (snd (Login staleEnv [goodCallback] staleWorld)) = listening staleWorld
  | (Panic _, _) => False
  end.
Proof.
  apply (login_stale_refresh staleEnv [goodCallback] staleWorld staleToken).
  - apply reachable_login. apply reachable_initial.
  - vm_compute. reflexivity.
  - vm_compute. discriminate.
  - vm_compute. discriminate.
Defined.

(** The second login of the sample process, run: its first login got a
    token that lives for a minute, the refresh is answered 400, and the
    call panics. *)
Example stale_refresh_failure_panics :
  fst (Login staleEnv [goodCallback] initialWorld) = Val ("AT", "RT", None) /\
  fst (refreshToken staleEnv staleToken (set_clockReads 3 staleWorld)) =
    Val (Err "token refresh failed (status 400): invalid_grant") /\
  fst (Login staleEnv [goodCallback] staleWorld) = Panic registrationPanic.
Proof. vm_compute. repeat split. Qed.

(* ================================================================= *)
(** ** The sequential wait among the runs of the goroutines *)

Lemma steps_trans env s1 s2 s3 :
  Wait.steps env s1 s2 -> Wait.steps env s2 s3 -> Wait.steps env s1 s3.
Proof.
  induction 1 as [|s s' s'' Hstep _ IH]; [auto|].
  intros H. eapply Wait.steps_step; [exact Hstep|auto].
Qed.

Lemma update_last {X} (l : list X) x a :
  Handoff.update (List.length l) a (l ++ [x]) = (l ++ [a])%list.
Proof. induction l as [|y l IH]; cbn; [reflexivity|now rewrite IH]. Qed.

Lemma nth_error_last {X} (l : list X) x :
  nth_error (l ++ [x]) (List.length l) = Some x.
Proof. induction l as [|y l IH]; cbn; [reflexivity|exact IH]. Qed.

Lemma forallb_idle_done hs r :
  forallb Wait.idle hs = true -> forallb Wait.idle (hs ++ [Wait.Done r]) = true.
Proof. intros H. rewrite forallb_app, H. reflexivity. Qed.

(** The wait of [awaitToken] is a run of the goroutines: each request
    is accepted and its handler runs before the next is accepted; the
    first token sent is received, or the timer fires when all the
    handlers have returned. *)
Lemma awaitToken_is_a_run env arrivals : forall hs w got w3,
  listening w = true ->
  forallb Wait.idle hs = true ->
  awaitToken env arrivals w = (Val got, w3) ->
  exists hs',
    Wait.steps env (Wait.mkState Wait.Selecting hs w)
      match got with
      | None =>
          Wait.mkState (Wait.Returned ("", "", Some timeoutError)) hs' (closed w3)
      | Some token =>
          Wait.mkState (Wait.Returned (AccessToken token, RefreshToken token, None))
                       hs' (loggedIn token w3)
      end.
Proof.
  induction arrivals as [|r rest IH]; intros hs w got w3 Hopen Hidle Ha.
  - cbn in Ha. injection Ha as <- <-. exists hs.
    eapply Wait.steps_step.
    { apply Wait.step_timer. reflexivity. }
    eapply Wait.steps_step; [|apply Wait.steps_refl].
    apply (Wait.step_drained env (Wait.mkState Wait.Draining hs (closed w)));
      [reflexivity|exact Hidle].
  - cbn [awaitToken] in Ha. unfold bind in Ha.
    destruct (handler_served env r w) as (sent & w1 & He & Hv).
    rewrite He in Ha.
    assert (Hrun : Wait.steps env (Wait.mkState Wait.Selecting hs w)
                     (Wait.mkState Wait.Selecting
                        (hs ++ [Wait.afterBody r sent])%list w1)).
    { eapply Wait.steps_step.
      { apply (Wait.step_accept env (Wait.mkState Wait.Selecting hs w) r). exact Hopen. }
      eapply Wait.steps_step; [|apply Wait.steps_refl].
      cbn [Wait.login Wait.handlers Wait.world].
      rewrite <- (update_last hs (Wait.Serving r) (Wait.afterBody r sent)).
      apply (Wait.step_serve env
               (Wait.mkState Wait.Selecting (hs ++ [Wait.Serving r])%list w)
               (List.length hs) r sent w1).
      - apply nth_error_last.
      - exact He. }
    destruct sent as [token|].
    + injection Ha as <- <-. exists (hs ++ [Wait.Done r])%list.
      eapply steps_trans; [exact Hrun|].
      eapply Wait.steps_step.
      { apply (Wait.step_receive env
                 (Wait.mkState Wait.Selecting (hs ++ [Wait.Sending r token])%list w1)
                 (List.length hs) r token); [reflexivity|apply nth_error_last]. }
      cbn [Wait.handlers Wait.world]. rewrite update_last.
      eapply Wait.steps_step; [|apply Wait.steps_refl].
      apply (Wait.step_stopped env
               (Wait.mkState (Wait.Stopping token) (hs ++ [Wait.Done r])%list (closed w1))
               token).
      reflexivity.
    + destruct Hv as (_ & _ & _ & Hl & _).
      destruct (IH (hs ++ [Wait.Done r])%list w1 got w3) as (hs' & Hrest).
      * congruence.
      * now apply forallb_idle_done.
      * exact Ha.
      * exists hs'. eapply steps_trans; [exact Hrun|exact Hrest].
Qed.

(** So what [Login] returns from its interactive login, and the world
    it returns in, are those of a run of the goroutines from the start
    of the wait. *)
Lemma login_is_a_run env arrivals w w1 :
  interactive env w w1 ->
  registered w1 = false ->
  exists ret w' hs,
    Login env arrivals w = (Val ret, w') /\
    Wait.steps env (Wait.start (snd (startListener env w1)))
               (Wait.mkState (Wait.Returned ret) hs w').
Proof.
  intros Hi Hreg. rewrite (login_interactive env arrivals w w1 Hi).
  destruct (authenticate_cases env arrivals w1)
    as [(Hr & _)|(_ & evs0 & got & w3 & Hs & Hn & Ha & Hv & Hl)]; [congruence|].
  rewrite Hl, Hs. cbn [snd].
  destruct (awaitToken_is_a_run env arrivals []
              (add_events evs0 (started env w1)) got w3) as (hs & Hrun);
    [reflexivity|reflexivity|exact Ha|].
  destruct got as [token|]; do 3 eexists; (split; [reflexivity|exact Hrun]).
Qed.

(* ================================================================= *)
(** ** The wait with one callback that passes the checks *)

Lemma not_wellFormed st r : wellFormed st r = false -> carriesFailure st r.
Proof.
  unfold wellFormed, carriesFailure. intros H.
  destruct (String.eqb (Get "error" r) "") eqn:He.
  - destruct (String.eqb (Get "state" r) st) eqn:Hs.
    + destruct (String.eqb (Get "code" r) "") eqn:Hc; [|discriminate].
      right; right. now apply String.eqb_eq.
    + right; left. now apply String.eqb_neq.
  - left. now apply String.eqb_neq.
Qed.

Lemma filter_single {X} (f : X -> bool) (l : list X) more r :
  (filter f l ++ more)%list = [r] ->
  forall i x, nth_error l i = Some x -> f x = true ->
  x = r /\ forall i' x', nth_error l i' = Some x' -> f x' = true -> i' = i.
Proof.
  induction l as [|y l IH]; intros H i x Hi Hx.
  - destruct i; discriminate.
  - cbn [filter] in H. destruct (f y) eqn:Hy.
    + injection H as -> H. apply app_eq_nil in H as (Hnil & _).
      assert (Hnone : forall k z, nth_error l k = Some z -> f z = true -> False).
      { intros k z Hk Hz.
        assert (Hin : In z (filter f l)) by (apply filter_In; eauto using nth_error_In).
        rewrite Hnil in Hin. contradiction. }
      destruct i as [|i]; cbn in Hi.
      * injection Hi as <-. split; [reflexivity|].
        intros [|i'] x' Hi' Hx'; [reflexivity|]. cbn in Hi'.
        exfalso. eauto.
      * exfalso. eauto.
    + destruct i as [|i]; cbn in Hi.
      * injection Hi as <-. congruence.
      * destruct (IH H i x Hi Hx) as (-> & Huniq). split; [reflexivity|].
        intros [|i'] x' Hi' Hx'; cbn in Hi'.
        -- injection Hi' as <-. congruence.
        -- f_equal. eauto.
Qed.

(** A step accepts a request or leaves the requests as they are. *)
Lemma step_requests env s s' :
  Wait.step env s s' ->
  exists extra,
    map Wait.request (Wait.handlers s') =
    (map Wait.request (Wait.handlers s) ++ extra)%list.
Proof.
  intros [s0 r Hopen|s0 j r sent w' Hj Hb|s0 j r t Hsel Hj|s0 Hsel|s0 Hd Hall|s0 t Hs];
    cbn [Wait.handlers].
  - exists [r]. now rewrite map_app.
  - exists []. rewrite app_nil_r.
    eapply WaitFacts.map_request_update; [exact Hj|]. now destruct sent.
  - exists []. rewrite app_nil_r.
    eapply WaitFacts.map_request_update; [exact Hj|reflexivity].
  - exists []. now rewrite app_nil_r.
  - exists []. now rewrite app_nil_r.
  - exists []. now rewrite app_nil_r.
Qed.

Lemma onlyGood_back env st r s s' :
  Wait.step env s s' -> onlyGood st r s' -> onlyGood st r s.
Proof.
  intros Hstep (more & H).
  destruct (step_requests env s s' Hstep) as (extra & E).
  rewrite E, filter_app, <- app_assoc in H.
  eexists. exact H.
Qed.

Lemma onlyGood_steps env st r s s' :
  Wait.steps env s s' -> onlyGood st r s' -> onlyGood st r s.
Proof.
  induction 1 as [|s s1 s2 Hstep _ IH]; [auto|].
  intros H. eapply onlyGood_back; [exact Hstep|auto].
Qed.

(** With [r] the one callback that passes the checks, a handler whose
    callback passes them serves [r], and it is the only one. *)
Lemma onlyGood_nth st r s i h :
  onlyGood st r s ->
  nth_error (Wait.handlers s) i = Some h ->
  wellFormed st (Wait.request h) = true ->
  Wait.request h = r /\
  forall i' h', nth_error (Wait.handlers s) i' = Some h' ->
                wellFormed st (Wait.request h') = true -> i' = i.
Proof.
  intros (more & H) Hi Hw.
  destruct (filter_single _ _ _ _ H i (Wait.request h)) as (E & Huniq).
  - now apply map_nth_error.
  - exact Hw.
  - split; [exact E|]. intros i' h' Hi' Hw'.
    apply (Huniq i' (Wait.request h')); [now apply map_nth_error|exact Hw'].
Qed.

Lemma during_add n evs evs' w2 w :
  during n evs w2 w -> during n (evs ++ evs') w2 (add_events evs' w).
Proof.
  intros (H1 & H2 & H3 & H4 & H5). repeat split; cbn; try assumption.
  rewrite H5, app_assoc. reflexivity.
Qed.

Lemma during_closed n evs w2 w :
  during n evs w2 w -> during n (evs ++ [EvShutdown]) w2 (closed w).
Proof.
  intros (H1 & H2 & H3 & H4 & H5). repeat split; cbn; try assumption.
  rewrite H5, app_assoc. reflexivity.
Qed.

Lemma during_finish n evs w2 w token :
  during n evs w2 w ->
  during n (evs ++ [EvPrintln "✓ Authentication successful!"]) w2 (Wait.finish token w).
Proof.
  intros (H1 & H2 & H3 & H4 & H5). repeat split; cbn; try assumption.
  rewrite H5, app_assoc. reflexivity.
Qed.

Lemma filter_isPost_add evs evs' l :
  filter isPost evs = l -> noPost evs' -> filter isPost (evs ++ evs') = l.
Proof.
  intros H Hn. unfold noPost, count in Hn. apply length_zero_iff_nil in Hn.
  now rewrite filter_app, Hn, app_nil_r.
Qed.

Lemma settled_others st j hs :
  Forall (settled st) hs -> othersSettled st j hs.
Proof.
  intros H i h _ Hi. rewrite Forall_forall in H.
  apply H. eapply nth_error_In. exact Hi.
Qed.

Lemma othersSettled_app st j hs r :
  othersSettled st j hs -> (j < List.length hs)%nat ->
  othersSettled st j (hs ++ [Wait.Serving r]).
Proof.
  intros H Hj i h Hne Hi.
  destruct (Nat.lt_ge_cases i (List.length hs)) as [Hlt|Hge].
  - rewrite nth_error_app1 in Hi by exact Hlt. now apply (H i).
  - rewrite nth_error_app2 in Hi by exact Hge.
    destruct (i - List.length hs)%nat as [|k]; cbn in Hi.
    + injection Hi as <-. exact I.
    + destruct k; discriminate.
Qed.

Lemma othersSettled_update st j hs i h :
  othersSettled st j hs -> settled st h ->
  othersSettled st j (Handoff.update i h hs).
Proof.
  intros H Hh k x Hne Hk.
  destruct (nth_error_update _ _ _ _ _ Hk) as [->|Hk']; [exact Hh|].
  now apply (H k).
Qed.

Lemma othersSettled_same st j hs h :
  othersSettled st j hs -> othersSettled st j (Handoff.update j h hs).
Proof.
  intros H k x Hne Hk.
  rewrite HandoffFacts.nth_error_update_other in Hk by exact Hne.
  now apply (H k).
Qed.

(** What the handler of a callback that passes the checks does when
    its exchange is answered. *)
Lemma handler_exchanges env r w body tr sent w' :
  wellFormed (state w) r = true ->
  postForm env (posts w) tokenURL
    (exchangeData (Get "code" r) (codeVerifier w)) = PostResponse 200 body ->
  jsonDecode env body = Ok tr ->
  completeAuthHandler env r w = (Val sent, w') ->
  sent = Some (tokenOf (resp_RefreshToken tr) tr (now env (clockReads w))) /\
  state w' = state w /\ codeVerifier w' = codeVerifier w /\
  cachedToken w' = cachedToken w /\ listening w' = listening w /\
  posts w' = S (posts w) /\ clockReads w' = S (clockReads w) /\
  trace w' =
    (trace w ++ [EvQueryGet "error"; EvQueryGet "state"; EvQueryGet "code";
                 EvPostForm tokenURL (exchangeData (Get "code" r) (codeVerifier w));
                 EvSuccessPage])%list.
Proof.
  intros Hwf Hp Hj.
  unfold wellFormed in Hwf.
  apply andb_prop in Hwf as (Hwf & Hc). apply andb_prop in Hwf as (He & Hst).
  rewrite completeAuthHandler_eq, exchangeCodeForToken_eq. cbv zeta.
  rewrite He, Hst. cbn [negb].
  destruct (String.eqb (Get "code" r) ""); [discriminate|].
  cbn [posts codeVerifier clockReads add_events].
  rewrite Hp. cbn [Z.eqb Pos.eqb negb]. rewrite Hj.
  intros H. injection H as <- <-.
  repeat split. cbn. rewrite <- !app_assoc. reflexivity.
Qed.

Section OneGoodCallback.

Variable env : Env.
Variable w2 : World.
Variable r : Values.
Variable body : string.
Variable tr : TokenResp.

Hypothesis r_passes : wellFormed (state w2) r = true.
Hypothesis r_answered :
  postForm env (posts w2) tokenURL
    (exchangeData (Get "code" r) (codeVerifier w2)) = PostResponse 200 body.
Hypothesis r_decodes : jsonDecode env body = Ok tr.

Local Abbreviation token :=
  (tokenOf (resp_RefreshToken tr) tr (now env (clockReads w2))).

(** A handler whose callback does not pass the checks leaves the wait
    where it stands. *)
Lemma serve_failure s i r' sent w' :
  waitInv w2 r token s ->
  nth_error (Wait.handlers s) i = Some (Wait.Serving r') ->
  wellFormed (state w2) r' = false ->
  completeAuthHandler env r' (Wait.world s) = (Val sent, w') ->
  waitInv w2 r token
    (Wait.mkState (Wait.login s)
       (Handoff.update i (Wait.afterBody r' sent) (Wait.handlers s)) w').
Proof.
  intros Hinv Hi Hw Hb.
  assert (Hst : state (Wait.world s) = state w2)
    by (destruct Hinv as [? (H & _)|? ? (H & _)|? ? (H & _)]; exact H).
  assert (Hf : carriesFailure (state (Wait.world s)) r')
    by (rewrite Hst; now apply not_wellFormed).
  destruct (WaitFacts.handler_returns env r' _ sent w' Hf Hb) as (-> & evs' & -> & Hn).
  cbn [Wait.afterBody].
  destruct Hinv as [evs Hd Hp Hc Hall Hl|evs j Hd Hp Hc Hj Ho Hl|evs j Hd Hp Hj Ho Hopen Hl].
  - apply (inv_waiting _ _ _ _ (evs ++ evs')); cbn [Wait.login Wait.handlers Wait.world].
    + now apply during_add.
    + now apply filter_isPost_add.
    + exact Hc.
    + apply WaitFacts.Forall_update; [exact Hall|exact Hw].
    + destruct Hl as [Hl|[Hl|(Hl & _ & Hidle)]]; auto.
      pose proof (WaitFacts.idle_nth _ _ _ Hidle Hi). discriminate.
  - assert (Hne : i <> j) by (intros ->; congruence).
    apply (inv_sending _ _ _ _ (evs ++ evs') j); cbn [Wait.login Wait.handlers Wait.world].
    + now apply during_add.
    + now apply filter_isPost_add.
    + exact Hc.
    + rewrite HandoffFacts.nth_error_update_other; auto.
    + apply othersSettled_update; [exact Ho|exact Hw].
    + exact Hl.
  - assert (Hne : i <> j) by (intros ->; congruence).
    apply (inv_received _ _ _ _ (evs ++ evs') j); cbn [Wait.login Wait.handlers Wait.world].
    + now apply during_add.
    + now apply filter_isPost_add.
    + rewrite HandoffFacts.nth_error_update_other; auto.
    + apply othersSettled_update; [exact Ho|exact Hw].
    + exact Hopen.
    + exact Hl.
Qed.

(** The handler of [r] runs once, and goes to its send. *)
Lemma serve_good s i r' sent w' :
  waitInv w2 r token s ->
  onlyGood (state w2) r s ->
  nth_error (Wait.handlers s) i = Some (Wait.Serving r') ->
  wellFormed (state w2) r' = true ->
  completeAuthHandler env r' (Wait.world s) = (Val sent, w') ->
  waitInv w2 r token
    (Wait.mkState (Wait.login s)
       (Handoff.update i (Wait.afterBody r' sent) (Wait.handlers s)) w').
Proof.
  intros Hinv Hq Hi Hw Hb.
  destruct (onlyGood_nth _ _ _ i _ Hq Hi Hw) as (Er & Huniq). cbn in Er. subst r'.
  destruct Hinv as [evs Hd Hp Hc Hall Hl|evs j Hd Hp Hc Hj Ho Hl|evs j Hd Hp Hj Ho Hopen Hl].
  - destruct Hd as (H1 & H2 & H3 & H4 & H5). cbn [Nat.add] in H3, H4.
    destruct (handler_exchanges env r (Wait.world s) body tr sent w')
      as (-> & G1 & G2 & G3 & G4 & G5 & G6 & G7).
    { now rewrite H1. }
    { now rewrite H2, H3. }
    { exact r_decodes. }
    { exact Hb. }
    rewrite H4. cbn [Wait.afterBody].
    apply (inv_sending _ _ _ _
             (evs ++ [EvQueryGet "error"; EvQueryGet "state"; EvQueryGet "code";
                      EvPostForm tokenURL (exchangeData (Get "code" r) (codeVerifier w2));
                      EvSuccessPage]) i);
      cbn [Wait.login Wait.handlers Wait.world].
    + repeat split; cbn [Nat.add]; try congruence.
      rewrite G7, H5, H2, <- app_assoc. reflexivity.
    + rewrite filter_app, Hp. reflexivity.
    + congruence.
    + eapply WaitFacts.nth_error_update_same. exact Hi.
    + apply othersSettled_same. now apply settled_others.
    + destruct Hl as [Hl|[(Hl & Hopen)|(Hl & _ & Hidle)]].
      * now left.
      * right. split; [exact Hl|congruence].
      * pose proof (WaitFacts.idle_nth _ _ _ Hidle Hi). discriminate.
  - exfalso. assert (E : j = i) by (apply (Huniq j _ Hj); exact r_passes).
    congruence.
  - exfalso. assert (E : j = i) by (apply (Huniq j _ Hj); exact r_passes).
    congruence.
Qed.

(** The invariant of the wait. *)
Lemma waitInv_step s s' :
  Wait.step env s s' ->
  waitInv w2 r token s ->
  onlyGood (state w2) r s' ->
  waitInv w2 r token s'.
Proof.
  intros Hstep Hinv Hq'.
  pose proof (onlyGood_back env _ _ _ _ Hstep Hq') as Hq.
  destruct Hstep as [s r' Hopen'|s i r' sent w' Hi Hb|s i r' t Hsel Hi|s Hsel|s Hd' Hall'|s t Hs].
  - (* a request is accepted *)
    destruct Hinv as [evs Hd Hp Hc Hall Hl|evs j Hd Hp Hc Hj Ho Hl|evs j Hd Hp Hj Ho Hopen Hl].
    + apply (inv_waiting _ _ _ _ evs); cbn [Wait.login Wait.handlers Wait.world]; auto.
      * apply Forall_app. split; [exact Hall|]. apply Forall_cons; [exact I|apply Forall_nil].
      * destruct Hl as [Hl|[(_ & Hl)|(_ & Hl & _)]]; [now left|congruence|congruence].
    + apply (inv_sending _ _ _ _ evs j); cbn [Wait.login Wait.handlers Wait.world]; auto.
      * rewrite nth_error_app1; [exact Hj|]. apply nth_error_Some. congruence.
      * apply othersSettled_app; [exact Ho|]. apply nth_error_Some. congruence.
    + congruence.
  - (* a handler runs *)
    destruct (wellFormed (state w2) r') eqn:Hw.
    + now apply serve_good.
    + now apply serve_failure.
  - (* the token is received *)
    destruct Hinv as [evs Hd Hp Hc Hall Hl|evs j Hd Hp Hc Hj Ho Hl|evs j Hd Hp Hj Ho Hopen Hl].
    + exfalso. rewrite Forall_forall in Hall.
      exact (Hall _ (nth_error_In _ _ Hi)).
    + assert (E : i = j).
      { destruct (Nat.eq_dec i j) as [E|Hne]; [exact E|].
        exfalso. exact (Ho i _ Hne Hi). }
      subst i. rewrite Hj in Hi. injection Hi as <- <-.
      apply (inv_received _ _ _ _ (evs ++ [EvShutdown]) j);
        cbn [Wait.login Wait.handlers Wait.world].
      * now apply during_closed.
      * apply filter_isPost_add; [exact Hp|reflexivity].
      * eapply WaitFacts.nth_error_update_same. exact Hj.
      * now apply othersSettled_same.
      * reflexivity.
      * left. split; [reflexivity|exact Hc].
    + destruct Hl as [(Hl & _)|(Hl & _)]; congruence.
  - (* the timer fires *)
    destruct Hinv as [evs Hd Hp Hc Hall Hl|evs j Hd Hp Hc Hj Ho Hl|evs j Hd Hp Hj Ho Hopen Hl].
    + apply (inv_waiting _ _ _ _ (evs ++ [EvShutdown]));
        cbn [Wait.login Wait.handlers Wait.world]; auto.
      * now apply during_closed.
      * apply filter_isPost_add; [exact Hp|reflexivity].
    + apply (inv_sending _ _ _ _ (evs ++ [EvShutdown]) j);
        cbn [Wait.login Wait.handlers Wait.world]; auto.
      * now apply during_closed.
      * apply filter_isPost_add; [exact Hp|reflexivity].
    + destruct Hl as [(Hl & _)|(Hl & _)]; congruence.
  - (* the shutdown of the timeout branch is over *)
    destruct Hinv as [evs Hd Hp Hc Hall Hl|evs j Hd Hp Hc Hj Ho Hl|evs j Hd Hp Hj Ho Hopen Hl].
    + apply (inv_waiting _ _ _ _ evs); cbn [Wait.login Wait.handlers Wait.world]; auto.
      destruct Hl as [Hl|[(_ & Hl)|(Hl & _)]]; [congruence| |congruence].
      right; right. auto.
    + pose proof (WaitFacts.idle_nth _ _ _ Hall' Hj). discriminate.
    + destruct Hl as [(Hl & _)|(Hl & _)]; congruence.
  - (* the shutdown after the receive is over *)
    destruct Hinv as [evs Hd Hp Hc Hall Hl|evs j Hd Hp Hc Hj Ho Hl|evs j Hd Hp Hj Ho Hopen Hl].
    + destruct Hl as [Hl|[(Hl & _)|(Hl & _)]]; congruence.
    + destruct Hl as [Hl|(Hl & _)]; congruence.
    + destruct Hl as [(Hl & Hc)|(Hl & _)]; [|congruence].
      rewrite Hl in Hs. injection Hs as <-.
      apply (inv_received _ _ _ _ (evs ++ [EvPrintln "✓ Authentication successful!"]) j);
        cbn [Wait.login Wait.handlers Wait.world]; auto.
      * now apply during_finish.
      * apply filter_isPost_add; [exact Hp|reflexivity].
Qed.

Lemma waitInv_steps s s' :
  Wait.steps env s s' ->
  waitInv w2 r token s ->
  onlyGood (state w2) r s' ->
  waitInv w2 r token s'.
Proof.
  induction 1 as [|s s1 s' Hstep Hsteps IH]; [auto|].
  intros Hinv Hq. apply IH; [|exact Hq].
  apply (waitInv_step s s1 Hstep Hinv).
  exact (onlyGood_steps env _ _ _ _ Hsteps Hq).
Qed.

Lemma waitInv_start : waitInv w2 r token (Wait.start w2).
Proof.
  apply (inv_waiting _ _ _ _ []); cbn; auto.
  repeat split. now rewrite app_nil_r.
Qed.

End OneGoodCallback.

(** X6.  The login, end to end, with the handlers side by side.  From
    the start of the wait, when one of the callbacks that were accepted
    passes the checks of the handler (no error, the attempt's state, a
    code), the others carrying failures, and the exchange of its code
    is answered 200 with a body that decodes: however the goroutines
    were scheduled, if [Login] has returned, it has returned the access
    and refresh token of that response and has cached the token, the
    listener is closed, and the token endpoint was called once, with
    the code of that callback and the verifier of the attempt. *)
Theorem wait_end_to_end env w2 r body tr s' ret :
  wellFormed (state w2) r = true ->
  postForm env (posts w2) tokenURL
    (exchangeData (Get "code" r) (codeVerifier w2)) = PostResponse 200 body ->
  jsonDecode env body = Ok tr ->
  Wait.steps env (Wait.start w2) s' ->
  filter (wellFormed (state w2)) (map Wait.request (Wait.handlers s')) = [r] ->
  Wait.login s' = Wait.Returned ret ->
  ret = (resp_AccessToken tr, resp_RefreshToken tr, None) /\
  cachedToken (Wait.world s') =
    Some (tokenOf (resp_RefreshToken tr) tr (now env (clockReads w2))) /\
  listening (Wait.world s') = false /\
  posts (Wait.world s') = S (posts w2) /\
  filter isPost (events_since w2 (Wait.world s')) =
    [EvPostForm tokenURL (exchangeData (Get "code" r) (codeVerifier w2))].
Proof.
  intros Hw Hp Hj Hsteps Hone Hret.
  assert (Hq : onlyGood (state w2) r s').
  { exists []. now rewrite app_nil_r. }
  pose proof (waitInv_steps env w2 r body tr Hw Hp Hj _ _ Hsteps
                (waitInv_start env w2 r tr) Hq) as Hinv.
  destruct Hinv as [evs Hd Hpo Hc Hall Hl|evs j Hd Hpo Hc Hj' Ho Hl|evs j Hd Hpo Hj' Ho Hopen Hl].
  - exfalso.
    destruct Hl as [Hl|[(Hl & _)|(_ & _ & Hidle)]]; [congruence|congruence|].
    assert (Hnone : filter (wellFormed (state w2))
                      (map Wait.request (Wait.handlers s')) = []).
    { clear - Hall Hidle. induction (Wait.handlers s') as [|h hs IH]; [reflexivity|].
      inversion Hall as [|h0 hs0 Hh Hhs]; subst.
      cbn in Hidle. apply andb_prop in Hidle as (Hi & Hidle).
      destruct h as [r0|r0 t|r0]; try discriminate.
      cbn in Hh |- *. rewrite Hh. auto. }
    rewrite Hnone in Hone. discriminate.
  - destruct Hl as [Hl|(Hl & _)]; congruence.
  - destruct Hl as [(Hl & _)|(Hl & Hc)]; [congruence|].
    rewrite Hl in Hret. injection Hret as <-.
    destruct Hd as (_ & _ & H3 & _ & H5).
    split; [reflexivity|]. split; [exact Hc|]. split; [exact Hopen|].
    split; [exact H3|].
    rewrite (events_since_app _ _ _ H5). exact Hpo.
Qed.

Lemma wait_end_to_end_witness :
  ("AT", "RT", @None string) = (resp_AccessToken (mkTokenResp "AT" "Bearer" 3600 "RT" ""),
                        resp_RefreshToken (mkTokenResp "AT" "Bearer" 3600 "RT" ""), None) /\
  cachedToken (Wait.world sideBySide) =
    Some (tokenOf "RT" (mkTokenResp "AT" "Bearer" 3600 "RT" "")
                  (now okEnv (clockReads selectWorld))) /\
  listening (Wait.world sideBySide) = false /\
  posts (Wait.world sideBySide) = S (posts selectWorld) /\
  filter isPost (events_since selectWorld (Wait.world sideBySide)) =
    [EvPostForm tokenURL
       (exchangeData (Get "code" goodCallback) (codeVerifier selectWorld))].
Proof.
  apply (wait_end_to_end okEnv selectWorld goodCallback "{}"
           (mkTokenResp "AT" "Bearer" 3600 "RT" "") sideBySide ("AT", "RT", @None string)).
  - vm_compute. reflexivity.
  - reflexivity.
  - reflexivity.
  - eapply Wait.steps_step.
    { apply (Wait.step_accept okEnv (Wait.start selectWorld) deniedCallback).
      vm_compute. reflexivity. }
    cbn [Wait.login Wait.handlers Wait.world Wait.start app].
    eapply Wait.steps_step.
    { apply (Wait.step_accept okEnv
               (Wait.mkState Wait.Selecting [Wait.Serving deniedCallback] selectWorld)
               goodCallback).
      vm_compute. reflexivity. }
    cbn [Wait.login Wait.handlers Wait.world app].
    eapply Wait.steps_step.
    { apply (Wait.step_serve okEnv
               (Wait.mkState Wait.Selecting
                  [Wait.Serving deniedCallback; Wait.Serving goodCallback] selectWorld)
               1 goodCallback (Some lateToken)
               (snd (completeAuthHandler okEnv goodCallback selectWorld))).
      - reflexivity.
      - vm_compute. reflexivity. }
    cbn [Wait.login Wait.handlers Wait.world Handoff.update Wait.afterBody].
    eapply Wait.steps_step.
    { apply (Wait.step_serve okEnv
               (Wait.mkState Wait.Selecting
                  [Wait.Serving deniedCallback; Wait.Sending goodCallback lateToken]
                  (snd (completeAuthHandler okEnv goodCallback selectWorld)))
               0 deniedCallback None
               (snd (completeAuthHandler okEnv deniedCallback
                       (snd (completeAuthHandler okEnv goodCallback selectWorld))))).
      - reflexivity.
      - vm_compute. reflexivity. }
    cbn [Wait.login Wait.handlers Wait.world Handoff.update Wait.afterBody].
    eapply Wait.steps_step.
    { apply (Wait.step_receive okEnv
               (Wait.mkState Wait.Selecting
                  [Wait.Done deniedCallback; Wait.Sending goodCallback lateToken]
                  (snd (completeAuthHandler okEnv deniedCallback
                          (snd (completeAuthHandler okEnv goodCallback selectWorld)))))
               1 goodCallback lateToken); reflexivity. }
    cbn [Wait.login Wait.handlers Wait.world Handoff.update].
    eapply Wait.steps_step.
    { apply (Wait.step_stopped okEnv
               (Wait.mkState (Wait.Stopping lateToken)
                  [Wait.Done deniedCallback; Wait.Done goodCallback]
                  (closed (snd (completeAuthHandler okEnv deniedCallback
                                  (snd (completeAuthHandler okEnv goodCallback selectWorld))))))
               lateToken).
      reflexivity. }
    apply Wait.steps_refl.
  - vm_compute. reflexivity.
  - reflexivity.
Defined.
